(** * ci-guardian: the failure-remediation pipeline, embedded and verified

    A shallow embedding of the parts of ci-guardian that carry its design:

    - [Re]        the fragment of Python's [re] that the registry patterns use
    - [Parser]    [analysis/parser.py]: the pattern registry, [parse_error_logs]
                  and [_extract_generic_errors]
    - [Claude]    [analysis/claude.py]: [_parse_claude_response], [analyze_failure]
    - [Handler]   [webhook/handler.py]: the deduplication cache and
                  [process_workflow_failure]
    - [Hashlib]   SHA-256 and HMAC, which the validator calls
    - [Validator] [webhook/validator.py]: [validate_github_signature]
    - [Config]    [config.py]: [is_repo_allowed]
    - [Webhook]   [webhook/handler.py]: [github_webhook]
    - [Logs]      [github/logs.py]: [fetch_workflow_logs]
    - [Repo]      [github/repo.py]: [get_relevant_files]
    - [Fixer]     [analysis/fixer.py]: [apply_fix] and the validation pass

    Conventions.  A Python [str] is a Rocq [string]; one [ascii] stands for one
    code point below 256, so [len], slicing and match positions count
    characters as Python does.  Python integers are [Z], Python floats are
    IEEE binary64 [float]s, [dict]s are [gmap]s.  A computation that may raise
    returns a [result]. *)

From Stdlib Require Import ZArith Ascii String List Lia Sorted.
From Stdlib Require Import DecimalString.
From Stdlib Require Import Floats.PrimFloat.
From stdpp Require Import gmap strings list.

Local Open Scope Z_scope.

(** ** Python values, exceptions and [str] primitives *)

Module Py.

(** The exceptions that the modelled code raises, catches or lets through. *)
Inductive exn :=
| APIError (detail : string)        (* anthropic.APIError *)
| ValueError (detail : string)
| IndexError
| AttributeError
| TypeError
| RuntimeError (detail : string)
| RecursionError (detail : string)
| OSError (detail : string).

Inductive result (A : Type) :=
| Ok (a : A)
| Raise (e : exn).
Arguments Ok {A} a.
Arguments Raise {A} e.

Definition bind {A B} (m : result A) (k : A -> result B) : result B :=
  match m with
  | Ok a => k a
  | Raise e => Raise e
  end.

Notation "x <- m ;; k" := (bind m (fun x => k))
  (at level 100, m at next level, right associativity).

(** A [for] loop over [l] whose body updates the state [a] and may raise:
    the loop ends at the first iteration that raises. *)
Fixpoint fold_result {A B} (body : A -> B -> result A) (l : list B) (a : A)
    : result A :=
  match l with
  | [] => Ok a
  | x :: l' => a' <- body a x ;; fold_result body l' a'
  end.

(** [str.isspace] on the code points below 256; it is also what [\s] matches
    in a [str] pattern. *)
Definition isspace (c : ascii) : bool :=
  let n := N_of_ascii c in
  ((9 <=? n) && (n <=? 13) || (28 <=? n) && (n <=? 32)
   || (n =? 133) || (n =? 160))%N.

Definition isdigit (c : ascii) : bool :=
  let n := N_of_ascii c in ((48 <=? n) && (n <=? 57))%N.

Definition isupper_ascii (c : ascii) : bool :=
  let n := N_of_ascii c in ((65 <=? n) && (n <=? 90))%N.

Definition islower_ascii (c : ascii) : bool :=
  let n := N_of_ascii c in ((97 <=? n) && (n <=? 122))%N.

(** [\w] in a [str] pattern: alphanumeric (Unicode sense) or underscore. *)
Definition isword (c : ascii) : bool :=
  let n := N_of_ascii c in
  (isdigit c || isupper_ascii c || islower_ascii c || (n =? 95)
   || (n =? 170) || (n =? 178) || (n =? 179) || (n =? 181) || (n =? 185)
   || (n =? 186) || (188 <=? n) && (n <=? 190)
   || (192 <=? n) && (n <=? 214) || (216 <=? n) && (n <=? 246)
   || (248 <=? n))%N.

Definition lower (c : ascii) : ascii :=
  if isupper_ascii c then ascii_of_N (N_of_ascii c + 32) else c.

Definition is_ascii (c : ascii) : bool := (N_of_ascii c <? 128)%N.

Definition len (s : string) : Z := Z.of_nat (String.length s).

(** [s.startswith(p)] *)
Fixpoint startswith (p s : string) : bool :=
  match p, s with
  | EmptyString, _ => true
  | String a p', String b s' => if Ascii.eqb a b then startswith p' s' else false
  | String _ _, EmptyString => false
  end.

(** [s.find(sub, start)]: the lowest index at or after [start] where [sub]
    occurs, [-1] when there is none.  [pos] is the index of the head of [s]
    in the whole string. *)
Fixpoint find_go (sub s : string) (pos : nat) (start : Z) : Z :=
  if (start <=? Z.of_nat pos) && startswith sub s then Z.of_nat pos
  else match s with
       | EmptyString => -1
       | String _ s' => find_go sub s' (S pos) start
       end.

Definition find (s sub : string) (start : Z) : Z := find_go sub s 0 start.

(** [s.rfind(sub)]: the highest index where [sub] occurs, [-1] when none. *)
Fixpoint rfind_go (sub s : string) (pos : nat) (best : Z) : Z :=
  let best' := if startswith sub s then Z.of_nat pos else best in
  match s with
  | EmptyString => best'
  | String _ s' => rfind_go sub s' (S pos) best'
  end.

Definition rfind (s sub : string) : Z := rfind_go sub s 0 (-1).

(** [sub in s] *)
Definition contains (sub s : string) : bool := 0 <=? find s sub 0.

(** [s.index(sub)] and [s.rindex(sub)] raise [ValueError] where [find] and
    [rfind] return [-1]. *)
Definition index (s sub : string) : result Z :=
  let i := find s sub 0 in
  if i <? 0 then Raise (ValueError "substring not found") else Ok i.

Definition rindex (s sub : string) : result Z :=
  let i := rfind s sub in
  if i <? 0 then Raise (ValueError "substring not found") else Ok i.

Fixpoint drop_str (n : nat) (s : string) : string :=
  match n, s with
  | O, _ => s
  | S n', String _ s' => drop_str n' s'
  | S _, EmptyString => EmptyString
  end.

Fixpoint take_str (n : nat) (s : string) : string :=
  match n, s with
  | S n', String c s' => String c (take_str n' s')
  | _, _ => EmptyString
  end.

(** Slice bounds as Python clips them: a negative bound counts from the end. *)
Definition clip (n i : Z) : Z :=
  if i <? 0 then Z.max 0 (i + n) else Z.min i n.

(** [s[a:b]] *)
Definition slice (s : string) (a b : Z) : string :=
  let a' := clip (len s) a in
  let b' := clip (len s) b in
  take_str (Z.to_nat (b' - a')) (drop_str (Z.to_nat a') s).

(** [s[:n]] *)
Definition slice_to (s : string) (n : Z) : string := slice s 0 n.

Fixpoint lstrip (s : string) : string :=
  match s with
  | String c s' => if isspace c then lstrip s' else s
  | EmptyString => EmptyString
  end.

Fixpoint rstrip (s : string) : string :=
  match s with
  | String c s' =>
      match rstrip s' with
      | EmptyString => if isspace c then EmptyString else String c EmptyString
      | r => String c r
      end
  | EmptyString => EmptyString
  end.

(** [s.strip()] *)
Definition strip (s : string) : string := rstrip (lstrip s).

(** [str(n)] *)
Definition str_int (n : Z) : string := NilZero.string_of_int (Z.to_int n).

(** [sys.get_int_max_str_digits()], as the interpreter starts with it. *)
Definition int_max_str_digits : Z := 4300.

(** [int(s)] on a run of decimal digits (the only strings the parser
    passes): the number, or [ValueError] when the run is longer than the
    limit of the interpreter, leading zeros counted. *)
Fixpoint int_go (acc : Z) (s : string) : Z :=
  match s with
  | String c s' => int_go (10 * acc + (Z.of_N (N_of_ascii c) - 48)) s'
  | EmptyString => acc
  end.

Definition int (s : string) : result Z :=
  if int_max_str_digits <? len s then
    Raise (ValueError
             ("Exceeds the limit (4300 digits) for integer string conversion: "
              +:+ "value has " +:+ str_int (len s) +:+ " digits; use "
              +:+ "sys.set_int_max_str_digits() to increase the limit"))
  else Ok (int_go 0 s).

(** Truthiness of a [str]. *)
Definition nonempty (s : string) : bool :=
  match s with EmptyString => false | String _ _ => true end.

(** What [json.loads] can deliver, and what the dynamically typed fields of
    a [FixResult] can therefore hold. *)
#[warnings="-register-all"]
Inductive value :=
| VNone
| VBool (b : bool)
| VInt (n : Z)
| VFloat (f : float)
| VStr (s : string)
| VList (l : list value)
| VDict (d : gmap string value).

(** [bool(v)] *)
Definition truthy (v : value) : bool :=
  match v with
  | VNone => false
  | VBool b => b
  | VInt n => negb (n =? 0)
  | VFloat f => negb (PrimFloat.eqb f 0%float)
  | VStr s => nonempty s
  | VList l => match l with [] => false | _ => true end
  | VDict d => match map_to_list d with [] => false | _ => true end
  end.

End Py.

(** ** The fragment of Python's [re] used by the pattern registry

    Every pattern of the program is compiled with [re.MULTILINE]; repetition
    is only ever applied to a single-character atom ([\d+], [[^\s:]+], [.+],
    [\s*], [.*?]), and no pattern can match the empty string.  The matcher is
    the backtracking one of [re]: alternatives left to right, greedy
    repetition longest first, lazy repetition shortest first. *)

Module Re.
Import Py.

Inductive regex :=
| Eps
| Lit (c : ascii)                    (* a literal character *)
| Cls (p : ascii -> bool)            (* a class or escape: one character in it *)
| Bol                                (* ^ under MULTILINE *)
| Eol                                (* $ under MULTILINE *)
| Seq (r1 r2 : regex)
| Alt (r1 r2 : regex)                (* r1|r2 *)
| Star (p : ascii -> bool)           (* atom*  *)
| LazyStar (p : ascii -> bool)       (* atom*? *)
| Group (name : string) (r : regex). (* (?P<name>r); group number n is named "n" *)

(** A compiled pattern: the expression and whether [re.IGNORECASE] is set. *)
Record pattern := Pattern { p_regex : regex; p_ignorecase : bool }.

(** A position in the subject: the character before it, the text from it on,
    its index, and the groups closed so far. *)
Record cursor := Cursor {
  c_prev : option ascii;
  c_rest : string;
  c_pos : nat;
  c_groups : gmap string string
}.

Definition advance (cur : cursor) (c : ascii) (rest : string) : cursor :=
  Cursor (Some c) rest (S (c_pos cur)) (c_groups cur).

Definition newline : ascii := ascii_of_N 10.

Definition at_bol (cur : cursor) : bool :=
  match c_prev cur with
  | None => true
  | Some c => Ascii.eqb c newline
  end.

Definition at_eol (cur : cursor) : bool :=
  match c_rest cur with
  | EmptyString => true
  | String c _ => Ascii.eqb c newline
  end.

Definition lit_matches (icase : bool) (l c : ascii) : bool :=
  if icase then Ascii.eqb (lower l) (lower c) else Ascii.eqb l c.

Section Matcher.
Context {R : Type}.

(** [atom*]: take as many as possible, give back one at a time. *)
Fixpoint greedy (p : ascii -> bool) (rest : string) (cur : cursor)
    (k : cursor -> option R) : option R :=
  match rest with
  | String c rest' =>
      if p c then
        match greedy p rest' (advance cur c rest') k with
        | Some r => Some r
        | None => k cur
        end
      else k cur
  | EmptyString => k cur
  end.

(** [atom*?]: take as few as possible, one more on failure. *)
Fixpoint lazy_star (p : ascii -> bool) (rest : string) (cur : cursor)
    (k : cursor -> option R) : option R :=
  match k cur with
  | Some r => Some r
  | None =>
      match rest with
      | String c rest' =>
          if p c then lazy_star p rest' (advance cur c rest') k else None
      | EmptyString => None
      end
  end.

Definition close_group (name : string) (opened closed : cursor) : cursor :=
  Cursor (c_prev closed) (c_rest closed) (c_pos closed)
    (<[name := take_str (c_pos closed - c_pos opened) (c_rest opened)]>
       (c_groups closed)).

Fixpoint run (icase : bool) (r : regex) (cur : cursor)
    (k : cursor -> option R) : option R :=
  match r with
  | Eps => k cur
  | Lit l =>
      match c_rest cur with
      | String c rest' =>
          if lit_matches icase l c then k (advance cur c rest') else None
      | EmptyString => None
      end
  | Cls p =>
      match c_rest cur with
      | String c rest' => if p c then k (advance cur c rest') else None
      | EmptyString => None
      end
  | Bol => if at_bol cur then k cur else None
  | Eol => if at_eol cur then k cur else None
  | Seq r1 r2 => run icase r1 cur (fun cur' => run icase r2 cur' k)
  | Alt r1 r2 =>
      match run icase r1 cur k with
      | Some x => Some x
      | None => run icase r2 cur k
      end
  | Star p => greedy p (c_rest cur) cur k
  | LazyStar p => lazy_star p (c_rest cur) cur k
  | Group name r1 => run icase r1 cur (fun cur' => k (close_group name cur cur'))
  end.
End Matcher.

(** A match object: [start()], [end()] and the groups. *)
Record Match := MkMatch {
  m_start : Z;
  m_end : Z;
  m_groups : gmap string string
}.

(** [match.groupdict().get(name)] *)
Definition group (m : Match) (name : string) : option string :=
  m_groups m !! name.

(** [pattern.match] anchored at one position. *)
Definition match_at (pat : pattern) (prev : option ascii) (rest : string)
    (pos : nat) : option Match :=
  run (p_ignorecase pat) (p_regex pat) (Cursor prev rest pos ∅)
    (fun cur => Some (MkMatch (Z.of_nat pos) (Z.of_nat (c_pos cur)) (c_groups cur))).

Definition match_len (m : Match) : nat := Z.to_nat (m_end m - m_start m).

(** The scan of [finditer]: the leftmost match from each position on, the
    next search starting where the previous match ended.  [skip] counts the
    characters still covered by the last match. *)
Fixpoint scan (pat : pattern) (prev : option ascii) (rest : string)
    (pos skip : nat) : list Match :=
  let here := match skip with
              | O => match_at pat prev rest pos
              | S _ => None
              end in
  match here with
  | Some m =>
      m :: match rest with
           | String c rest' => scan pat (Some c) rest' (S pos) (match_len m - 1)
           | EmptyString => []
           end
  | None =>
      match rest with
      | String c rest' => scan pat (Some c) rest' (S pos) (skip - 1)
      | EmptyString => []
      end
  end.

(** [pattern.finditer(s)], as the list of its matches in text order. *)
Definition finditer (pat : pattern) (s : string) : list Match :=
  scan pat None s 0 0.

(** Concrete syntax helpers. *)
Definition Plus (p : ascii -> bool) : regex := Seq (Cls p) (Star p).
Definition Opt (r : regex) : regex := Alt r Eps.

Fixpoint Str (s : string) : regex :=
  match s with
  | EmptyString => Eps
  | String c EmptyString => Lit c
  | String c s' => Seq (Lit c) (Str s')
  end.

Fixpoint Cat (rs : list regex) : regex :=
  match rs with
  | [] => Eps
  | [r] => r
  | r :: rs' => Seq r (Cat rs')
  end.

(** Character classes of the registry. *)
Definition dot (c : ascii) : bool := negb (Ascii.eqb c newline).       (* .       *)
Definition space (c : ascii) : bool := isspace c.                      (* \s      *)
Definition digit (c : ascii) : bool := isdigit c.                      (* \d      *)
Definition word (c : ascii) : bool := isword c.                        (* \w      *)
Definition upper (c : ascii) : bool := isupper_ascii c.                (* [A-Z]   *)
Definition one_of (s : string) (c : ascii) : bool :=                   (* [abc]   *)
  existsb (Ascii.eqb c) (list_ascii_of_string s).
Definition not_space_or (s : string) (c : ascii) : bool :=             (* [^\sabc] *)
  negb (isspace c || one_of s c).

End Re.

(** ** analysis/parser.py *)

Module Parser.
Import Py Re.

Record ParsedError := MkParsedError {
  pe_error_type : string;
  pe_message : string;
  pe_file_path : option string;
  pe_line_number : option Z;
  pe_column : option Z;
  pe_context : string
}.

Record ParsedErrors := MkParsedErrors {
  errors : list ParsedError;
  raw_logs : string;
  error_type : string
}.

(** The [affected_files] property builds a set, so the order of its elements
    is not determined; it is kept as the set. *)
Definition affected_files (r : ParsedErrors) : gset string :=
  list_to_set
    (omap (fun e => match pe_file_path e with
                    | Some f => if nonempty f then Some f else None
                    | None => None
                    end) (errors r)).

(** [(?P<file>[^\s:]+\.py)], shared by the Python tool patterns. *)
Definition py_file : regex :=
  Group "file" (Seq (Plus (not_space_or ":")) (Str ".py")).

(** [\.[jt]sx?] *)
Definition js_suffix : regex :=
  Cat [Lit "."; Cls (one_of "jt"); Lit "s"; Opt (Lit "x")].

(** [^(?P<file>[^\s:]+\.py):(?P<line>\d+):(?P<col>\d+)\s*[-–]\s*error:\s*(?P<msg>.+)$]
    The en dash of the class [[-–]] is U+2013, outside the code points a
    [string] holds here; within them the class is the hyphen alone. *)
Definition pyright_re : regex :=
  Cat [Bol; py_file; Lit ":"; Group "line" (Plus digit); Lit ":";
       Group "col" (Plus digit); Star space; Cls (one_of "-"); Star space;
       Str "error:"; Star space; Group "msg" (Plus dot); Eol].

(** [^(?P<file>[^\s:]+\.py):(?P<line>\d+):\s*error:\s*(?P<msg>.+)$] *)
Definition mypy_re : regex :=
  Cat [Bol; py_file; Lit ":"; Group "line" (Plus digit); Lit ":"; Star space;
       Str "error:"; Star space; Group "msg" (Plus dot); Eol].

(** [^(?P<file>[^\s:]+\.py):(?P<line>\d+):(?P<col>\d+):\s*(?P<code>[A-Z]\d+)\s*(?P<msg>.+)$] *)
Definition ruff_re : regex :=
  Cat [Bol; py_file; Lit ":"; Group "line" (Plus digit); Lit ":";
       Group "col" (Plus digit); Lit ":"; Star space;
       Group "code" (Seq (Cls upper) (Plus digit)); Star space;
       Group "msg" (Plus dot); Eol].

(** [^\s*(?P<file>[^\s:]+\.[jt]sx?):(?P<line>\d+):(?P<col>\d+)\s+(?:error|warning)\s+(?P<msg>.+)$] *)
Definition eslint_re : regex :=
  Cat [Bol; Star space;
       Group "file" (Seq (Plus (not_space_or ":")) js_suffix); Lit ":";
       Group "line" (Plus digit); Lit ":"; Group "col" (Plus digit);
       Plus space; Alt (Str "error") (Str "warning"); Plus space;
       Group "msg" (Plus dot); Eol].

(** [^(?P<file>[^\s(]+\.[jt]sx?)\((?P<line>\d+),(?P<col>\d+)\):\s*error\s+(?P<code>TS\d+):\s*(?P<msg>.+)$] *)
Definition typescript_re : regex :=
  Cat [Bol; Group "file" (Seq (Plus (not_space_or "(")) js_suffix); Lit "(";
       Group "line" (Plus digit); Lit ","; Group "col" (Plus digit);
       Str "):"; Star space; Str "error"; Plus space;
       Group "code" (Seq (Str "TS") (Plus digit)); Lit ":"; Star space;
       Group "msg" (Plus dot); Eol].

(** [^FAILED\s+(?P<file>[^\s:]+\.py)::(?P<test>\w+)] *)
Definition pytest_failed_re : regex :=
  Cat [Bol; Str "FAILED"; Plus space; py_file; Str "::";
       Group "test" (Plus word)].

(** [^(?P<file>[^\s:]+\.py):(?P<line>\d+):\s*(?:AssertionError|assert\s)] *)
Definition pytest_assert_re : regex :=
  Cat [Bol; py_file; Lit ":"; Group "line" (Plus digit); Lit ":"; Star space;
       Alt (Str "AssertionError") (Seq (Str "assert") (Cls space))].

(** [^FAIL\s+(?P<file>[^\s]+\.(?:test|spec)\.[jt]sx?)$] *)
Definition jest_re : regex :=
  Cat [Bol; Str "FAIL"; Plus space;
       Group "file" (Cat [Plus (not_space_or ""); Lit ".";
                          Alt (Str "test") (Str "spec"); js_suffix]);
       Eol].

Definition multiline (r : regex) : pattern := Pattern r false.
Definition multiline_ignorecase (r : regex) : pattern := Pattern r true.

(** The registry, in the insertion order a [dict] iterates in. *)
Definition PATTERNS : list (string * list pattern) :=
  [ ("pyright", [multiline pyright_re]);
    ("mypy", [multiline mypy_re]);
    ("ruff", [multiline ruff_re]);
    ("eslint", [multiline eslint_re]);
    ("typescript", [multiline typescript_re]);
    ("pytest", [multiline pytest_failed_re; multiline pytest_assert_re]);
    ("jest", [multiline jest_re]) ].

(** The state of the loops of [parse_error_logs]: [errors], [detected_type]. *)
Definition scan_state : Type := list ParsedError * string.

(** [a or b] on strings. *)
Definition str_or (a b : string) : string := if nonempty a then a else b.

(** Field of a group used as [int(groups[g]) if groups.get(g) else None]. *)
Definition int_group (m : Match) (g : string) : result (option Z) :=
  match group m g with
  | Some s => if nonempty s then n <- int s ;; Ok (Some n) else Ok None
  | None => Ok None
  end.

(** The error built for one match, with its context window attached.  The
    two conversions stand in the call that builds the [ParsedError], the
    line before the column; when one raises there is no error object. *)
Definition error_of_match (logs tool : string) (m : Match)
    : result ParsedError :=
  line_number <- int_group m "line" ;;
  column <- int_group m "col" ;;
  let start := Z.max 0 (m_start m - 200) in
  let stop := Z.min (len logs) (m_end m + 200) in
  Ok (MkParsedError tool
        (str_or (default "" (group m "msg")) (default "" (group m "code")))
        (group m "file")
        line_number
        column
        (slice logs start stop)).

(** Body of [for match in matches]. *)
Definition on_match (logs tool : string) (st : scan_state) (m : Match)
    : result scan_state :=
  error <- error_of_match logs tool m ;;
  Ok (st.1 ++ [error], tool).

(** Body of [for pattern in patterns]. *)
Definition on_pattern (logs tool : string) (st : scan_state) (pat : pattern)
    : result scan_state :=
  fold_result (on_match logs tool) (finditer pat logs) st.

(** Body of [for error_type, patterns in PATTERNS.items()]. *)
Definition on_tool (logs : string) (st : scan_state)
    (entry : string * list pattern) : result scan_state :=
  fold_result (on_pattern logs entry.1) entry.2 st.

Definition scan_registry (registry : list (string * list pattern))
    (logs : string) : result scan_state :=
  fold_result (on_tool logs) registry ([], "unknown").

(** The generic indicators of [_extract_generic_errors]:
    [^error\[.*?\]:\s*(.+)$] (MULTILINE | IGNORECASE), [^Error:\s*(.+)$],
    [^fatal:\s*(.+)$] (MULTILINE | IGNORECASE), [^(?:npm |yarn )?ERR!\s*(.+)$]. *)
Definition error_indicators : list pattern :=
  [ multiline_ignorecase
      (Cat [Bol; Str "error["; LazyStar dot; Str "]:"; Star space;
            Group "1" (Plus dot); Eol]);
    multiline
      (Cat [Bol; Str "Error:"; Star space; Group "1" (Plus dot); Eol]);
    multiline_ignorecase
      (Cat [Bol; Str "fatal:"; Star space; Group "1" (Plus dot); Eol]);
    multiline
      (Cat [Bol; Opt (Alt (Str "npm ") (Str "yarn ")); Str "ERR!"; Star space;
            Group "1" (Plus dot); Eol]) ].

Definition generic_error (m : Match) : ParsedError :=
  MkParsedError "generic" (strip (default "" (group m "1"))) None None None "".

Definition _extract_generic_errors (logs : string) : list ParsedError :=
  let errors :=
    fold_left
      (fun errors pat =>
         fold_left (fun errors m => errors ++ [generic_error m])
                   (finditer pat logs) errors)
      error_indicators [] in
  take 10 errors.

(** [parse_error_logs]: an exception of the loops leaves the function. *)
Definition parse_error_logs (logs : string) : result ParsedErrors :=
  scanned <- scan_registry PATTERNS logs ;;
  let '(errors, detected_type) := scanned in
  let errors :=
    match errors with
    | [] => _extract_generic_errors logs
    | _ => errors
    end in
  Ok (MkParsedErrors errors logs
        (match errors with [] => "unknown" | _ => detected_type end)).

End Parser.

(** ** analysis/claude.py *)

Module Claude.
Import Py.

Record FileChange := MkFileChange {
  file_path : value;
  original_content : string;
  new_content : value
}.

Record FixResult := MkFixResult {
  can_fix : value;
  description : value;
  changes : list FileChange;
  confidence : value;
  analysis : value
}.

(** [FixResult(can_fix=False, description="", analysis=a)]: the other fields
    take their defaults. *)
Definition negative_result (a : string) : FixResult :=
  MkFixResult (VBool false) (VStr "") [] (VFloat 0%float) (VStr a).

(** [obj.get(key, default)]: only a [dict] has the method. *)
Definition dict_get (obj : value) (key : string) (dflt : value) : result value :=
  match obj with
  | VDict d => Ok (default dflt (d !! key))
  | _ => Raise AttributeError
  end.

(** What a [for] loop iterates over.  A [dict] yields its keys and a [str] its
    characters; the order of a [dict]'s keys plays no role below, where the
    first key already makes the loop body raise. *)
Definition iterate (obj : value) : result (list value) :=
  match obj with
  | VList l => Ok l
  | VStr s => Ok (map (fun c => VStr (String c "")) (list_ascii_of_string s))
  | VDict d => Ok (map (fun kv => VStr kv.1) (map_to_list d))
  | _ => Raise TypeError
  end.

(** [source_files.get(key, "")]: a [list] or [dict] key is unhashable, any
    other non-string key is simply absent. *)
Definition source_get (source_files : gmap string string) (key : value)
    : result string :=
  match key with
  | VStr p => Ok (default "" (source_files !! p))
  | VList _ | VDict _ => Raise TypeError
  | _ => Ok ""
  end.

(** The loop [for change_data in ...] with its accumulator [changes]. *)
Fixpoint build_changes (source_files : gmap string string)
    (items : list value) (changes : list FileChange)
    : result (list FileChange) :=
  match items with
  | [] => Ok changes
  | change_data :: rest =>
      file_path <- dict_get change_data "file_path" (VStr "") ;;
      new_content <- dict_get change_data "new_content" (VStr "") ;;
      if truthy file_path && truthy new_content then
        original <- source_get source_files file_path ;;
        build_changes source_files rest
          (changes ++ [MkFileChange file_path original new_content])
      else build_changes source_files rest changes
  end.

(** The first part of [_parse_claude_response]: the value of the local
    [json_match] when the extraction is over. *)
Definition json_match (response_text : string) : result (option string) :=
  if contains "```json" response_text then
    let start := find response_text "```json" 0 + 7 in
    let stop := find response_text "```" start in
    if stop >? start
    then Ok (Some (strip (slice response_text start stop)))
    else Ok None
  else if contains "```" response_text then
    let start := find response_text "```" 0 + 3 in
    let stop := find response_text "```" start in
    if stop >? start
    then Ok (Some (strip (slice response_text start stop)))
    else Ok None
  else
    match (start <- index response_text "{" ;;
           stop <- rindex response_text "}" ;;
           Ok (slice response_text start (stop + 1))) with
    | Ok s => Ok (Some s)
    | Raise (ValueError _) => Ok None
    | Raise e => Raise e
    end.

(** What [json.loads] does with a text: it returns the decoded value, or it
    raises [json.JSONDecodeError] on a text that is not JSON,
    [RecursionError] on a nesting deeper than the interpreter's stack, or
    the plain [ValueError] of [int] on a number longer than its limit. *)
Inductive loads :=
| Loaded (data : value)
| NotJSON (detail : string)
| TooDeep (detail : string)
| NumberTooLong (detail : string).

Section Decoder.
Variable json_loads : string -> loads.

Definition _parse_claude_response (response_text : string)
    (source_files : gmap string string) : result FixResult :=
  found <- json_match response_text ;;
  match found with
  | Some text =>
      if nonempty text then
        match json_loads text with
        | NotJSON e => Ok (negative_result ("JSON parse error: " +:+ e))
        | TooDeep e => Raise (RecursionError e)
        | NumberTooLong e => Raise (ValueError e)
        | Loaded data =>
            proposed <- dict_get data "changes" (VList []) ;;
            items <- iterate proposed ;;
            changes <- build_changes source_files items [] ;;
            can_fix <- dict_get data "can_fix" (VBool false) ;;
            description <- dict_get data "description" (VStr "") ;;
            confidence <- dict_get data "confidence" (VFloat 0%float) ;;
            analysis <- dict_get data "analysis" (VStr "") ;;
            Ok (MkFixResult can_fix description changes confidence analysis)
        end
      else Ok (negative_result "Failed to parse Claude response")
  | None => Ok (negative_result "Failed to parse Claude response")
  end.

(** One block of [response.content]: a text block, or one without a [text]
    attribute. *)
Inductive content_block :=
| TextBlock (text : string)
| OtherBlock.

(** What [client.messages.create] does: return a response, or raise. *)
Inductive service_call :=
| Responds (content : list content_block)
| Raises (e : exn).

(** [analyze_failure].  The prompt built from the errors only flows into
    the service call, so the two things the function gets back from the
    outside are its inputs here: what [get_relevant_files] yields and what
    the service call does. *)
Definition analyze_failure (relevant_files : result (gmap string string))
    (service : service_call) : result FixResult :=
  source_files <- relevant_files ;;
  let attempt :=
    content <- match service with
               | Responds content => Ok content
               | Raises e => Raise e
               end ;;
    content_block <- match content with
                     | b :: _ => Ok b
                     | [] => Raise IndexError
                     end ;;
    response_text <-
      match content_block with
      | TextBlock text => Ok text
      | OtherBlock =>
          Raise (ValueError "Unexpected response format from Claude API")
      end ;;
    _parse_claude_response response_text source_files in
  match attempt with
  | Raise (APIError e) => Ok (negative_result ("API error: " +:+ e))
  | other => other
  end.
End Decoder.

End Claude.

(** ** webhook/handler.py *)

Module Handler.
Import Py Parser Claude.

(** *** The deduplication cache *)

Definition _CACHE_TTL_SECONDS : float := 3600%float.

(** [current_time - timestamp > _CACHE_TTL_SECONDS] *)
Definition is_expired (current_time timestamp : float) : bool :=
  PrimFloat.ltb _CACHE_TTL_SECONDS (PrimFloat.sub current_time timestamp).

(** [_cleanup_cache]: collect the expired keys, then delete each of them.
    [current_time] is the reading of [time.time()] the function takes. *)
Definition _cleanup_cache (current_time : float)
    (_processed_runs : gmap Z float) : gmap Z float :=
  let expired :=
    omap (fun item : Z * float =>
            if is_expired current_time item.2 then Some item.1 else None)
         (map_to_list _processed_runs) in
  fold_left (fun runs run_id => delete run_id runs) expired _processed_runs.

(** The [# Deduplicate] step of [github_webhook]: sweep, look the run up,
    record it when it is new.  The result is whether the request is answered
    as a duplicate, with the cache as the step leaves it.  The clock is read
    twice, once by the sweep and once for the recorded timestamp. *)
Definition deduplicate (run_id : Z) (sweep_time record_time : float)
    (_processed_runs : gmap Z float) : bool * gmap Z float :=
  let runs := _cleanup_cache sweep_time _processed_runs in
  match runs !! run_id with
  | Some _ => (true, runs)
  | None => (false, <[run_id := record_time]> runs)
  end.

(** The specification's [seen_or_record(key, now)]: one reading of the clock. *)
Definition seen_or_record (key : Z) (now : float) (cache : gmap Z float)
    : bool * gmap Z float :=
  deduplicate key now now cache.

(** *** The pipeline *)

(** The fields of the payload that [process_workflow_failure] reads. *)
Record WorkItem := MkWorkItem {
  run_id : Z;
  repo_full_name : string;
  head_branch : string;
  head_sha : string;
  html_url : string
}.

(** The calls the pipeline makes to its collaborators, with their arguments. *)
Inductive event :=
| SendFailureNotification (repo branch : string) (run : Z) (run_url : string)
| FetchWorkflowLogs (repo : string) (run : Z)
| CloneRepository (repo branch commit : string)
| AnalyzeFailure (errors : ParsedErrors) (repo_path : string)
| ApplyFix (repo_path : string) (changes : list FileChange)
| CreateFixPr (repo_path repo : string) (run : Z) (fix_description : value)
    (original_branch : string)
| SendPrNotification (repo branch pr_url : string) (fix_description : value)
| Rmtree (repo_path : string)
| LogException (e : exn).

(** What each collaborator answers. *)
Record Collaborators := MkCollaborators {
  send_failure_notification : string -> string -> Z -> string -> result unit;
  fetch_workflow_logs : string -> Z -> result string;
  clone_repository : string -> string -> string -> result string;
  analyze_failure : ParsedErrors -> string -> result FixResult;
  apply_fix : string -> list FileChange -> result unit;
  create_fix_pr : string -> string -> Z -> value -> string -> result string;
  send_pr_notification : string -> string -> string -> value -> result unit
}.

(** The exit through which one run of the pipeline leaves. *)
Inductive outcome :=
| NO_ERRORS       (* return: no parseable errors *)
| NOT_FIXABLE     (* return: the fix is not feasible *)
| PUBLISHED       (* the end of the try block *)
| FAILED.         (* the except clause *)

(** A computation with a trace of collaborator calls. *)
Definition Eff (A : Type) : Type := list event * result A.

Definition ret {A} (a : A) : Eff A := ([], Ok a).

Definition call {A} (ev : event) (answer : result A) : Eff A := ([ev], answer).

(** A step of the pipeline's own code, which calls no collaborator. *)
Definition local {A} (answer : result A) : Eff A := ([], answer).

Definition ebind {A B} (m : Eff A) (k : A -> Eff B) : Eff B :=
  match m with
  | (t, Ok a) => let '(t', r) := k a in (t ++ t', r)
  | (t, Raise e) => (t, Raise e)
  end.

Notation "x <~ m ;; k" := (ebind m (fun x => k))
  (at level 100, m at next level, right associativity).

(** [try: m finally: shutil.rmtree(repo_path, ignore_errors=True)] *)
Definition finally_rmtree {A} (repo_path : string) (m : Eff A) : Eff A :=
  let '(t, r) := m in (t ++ [Rmtree repo_path], r).

Section Pipeline.
Variable env : Collaborators.

Definition process_workflow_failure (w : WorkItem) : list event * outcome :=
  let attempt : Eff outcome :=
    _ <~ call (SendFailureNotification (repo_full_name w) (head_branch w)
                 (run_id w) (html_url w))
              (send_failure_notification env (repo_full_name w) (head_branch w)
                 (run_id w) (html_url w)) ;;
    logs <~ call (FetchWorkflowLogs (repo_full_name w) (run_id w))
                 (fetch_workflow_logs env (repo_full_name w) (run_id w)) ;;
    parsed_errors <~ local (parse_error_logs logs) ;;
    match errors parsed_errors with
    | [] => ret NO_ERRORS
    | _ =>
        repo_path <~ call (CloneRepository (repo_full_name w) (head_branch w)
                             (head_sha w))
                          (clone_repository env (repo_full_name w)
                             (head_branch w) (head_sha w)) ;;
        finally_rmtree repo_path
          (fix_result <~ call (AnalyzeFailure parsed_errors repo_path)
                              (analyze_failure env parsed_errors repo_path) ;;
           if negb (truthy (can_fix fix_result)) then ret NOT_FIXABLE
           else
             _ <~ call (ApplyFix repo_path (changes fix_result))
                       (apply_fix env repo_path (changes fix_result)) ;;
             pr_url <~ call (CreateFixPr repo_path (repo_full_name w) (run_id w)
                               (description fix_result) (head_branch w))
                            (create_fix_pr env repo_path (repo_full_name w)
                               (run_id w) (description fix_result)
                               (head_branch w)) ;;
             _ <~ call (SendPrNotification (repo_full_name w) (head_branch w)
                          pr_url (description fix_result))
                       (send_pr_notification env (repo_full_name w)
                          (head_branch w) pr_url (description fix_result)) ;;
             ret PUBLISHED)
    end in
  match attempt with
  | (t, Ok o) => (t, o)
  | (t, Raise e) => (t ++ [LogException e], FAILED)
  end.
End Pipeline.

(** The calls by which a fix leaves the pipeline. *)
Definition is_fix_action (ev : event) : bool :=
  match ev with
  | ApplyFix _ _ | CreateFixPr _ _ _ _ _ | SendPrNotification _ _ _ _ => true
  | _ => false
  end.

End Handler.

(** ** hashlib.sha256 and hmac, after FIPS 180-4 and RFC 2104 *)

Module Hashlib.

Definition word (x : Z) : Z := x mod 2 ^ 32.

Definition rotr (n x : Z) : Z :=
  Z.lor (Z.shiftr x n) (word (Z.shiftl x (32 - n))).

Definition xor3 (a b c : Z) : Z := Z.lxor a (Z.lxor b c).

Definition ch (x y z : Z) : Z :=
  Z.lxor (Z.land x y) (Z.land (Z.lxor x (2 ^ 32 - 1)) z).

Definition maj (x y z : Z) : Z :=
  xor3 (Z.land x y) (Z.land x z) (Z.land y z).

Definition big_sigma0 (x : Z) : Z := xor3 (rotr 2 x) (rotr 13 x) (rotr 22 x).
Definition big_sigma1 (x : Z) : Z := xor3 (rotr 6 x) (rotr 11 x) (rotr 25 x).
Definition small_sigma0 (x : Z) : Z := xor3 (rotr 7 x) (rotr 18 x) (Z.shiftr x 3).
Definition small_sigma1 (x : Z) : Z := xor3 (rotr 17 x) (rotr 19 x) (Z.shiftr x 10).

Definition round_constants : list Z :=
  [1116352408; 1899447441; 3049323471; 3921009573; 961987163; 1508970993;
   2453635748; 2870763221; 3624381080; 310598401; 607225278; 1426881987;
   1925078388; 2162078206; 2614888103; 3248222580; 3835390401; 4022224774;
   264347078; 604807628; 770255983; 1249150122; 1555081692; 1996064986;
   2554220882; 2821834349; 2952996808; 3210313671; 3336571891; 3584528711;
   113926993; 338241895; 666307205; 773529912; 1294757372; 1396182291;
   1695183700; 1986661051; 2177026350; 2456956037; 2730485921; 2820302411;
   3259730800; 3345764771; 3516065817; 3600352804; 4094571909; 275423344;
   430227734; 506948616; 659060556; 883997877; 958139571; 1322822218;
   1537002063; 1747873779; 1955562222; 2024104815; 2227730452; 2361852424;
   2428436474; 2756734187; 3204031479; 3329325298].

Definition initial_hash : list Z :=
  [1779033703; 3144134277; 1013904242; 2773480762; 1359893119; 2600822924;
   528734635; 1541459225].

Definition byte_value (b : Byte.byte) : Z := Z.of_N (Byte.to_N b).

Definition byte_of (x : Z) : Byte.byte :=
  default Byte.x00 (Byte.of_N (Z.to_N (x mod 256))).

(** Big-endian bytes of a number, [n] of them. *)
Fixpoint be_bytes (n : nat) (x : Z) : list Byte.byte :=
  match n with
  | O => []
  | S n' => byte_of (Z.shiftr x (8 * Z.of_nat n')) :: be_bytes n' x
  end.

Definition be_word (bs : list Byte.byte) : Z :=
  fold_left (fun acc b => 256 * acc + byte_value b) bs 0.

(** The message followed by the bit 1, zeros, and its length in bits on 64
    bits, to a multiple of 64 bytes. *)
Definition pad (msg : list Byte.byte) : list Byte.byte :=
  let n := Z.of_nat (length msg) in
  let zeros := Z.to_nat ((55 - n) mod 64) in
  msg ++ [Byte.x80] ++ repeat Byte.x00 zeros ++ be_bytes 8 (8 * n).

(** Cut into pieces of [n] elements; [fuel] bounds the number of pieces. *)
Fixpoint chunks {A} (fuel n : nat) (l : list A) : list (list A) :=
  match fuel, l with
  | O, _ | _, [] => []
  | S fuel', _ => take n l :: chunks fuel' n (drop n l)
  end.

(** The message schedule, grown from the 16 words of the block. *)
Fixpoint schedule (more : nat) (w : list Z) : list Z :=
  match more with
  | O => w
  | S more' =>
      let t := length w in
      let at_ (back : nat) := nth (t - back) w 0 in
      schedule more'
        (w ++ [word (small_sigma1 (at_ 2%nat) + at_ 7%nat
                     + small_sigma0 (at_ 15%nat) + at_ 16%nat)])
  end.

Definition round (st : list Z) (kw : Z * Z) : list Z :=
  match st with
  | [a; b; c; d; e; f; g; h] =>
      let t1 := h + big_sigma1 e + ch e f g + kw.1 + kw.2 in
      let t2 := big_sigma0 a + maj a b c in
      [word (t1 + t2); a; b; c; word (d + t1); e; f; g]
  | _ => st
  end.

Definition compress (hash : list Z) (block : list Byte.byte) : list Z :=
  let w := schedule 48 (map be_word (chunks 16 4 block)) in
  let st := fold_left round (combine round_constants w) hash in
  map (fun p : Z * Z => word (p.1 + p.2)) (combine hash st).

(** [hashlib.sha256(msg).digest()] *)
Definition sha256 (msg : list Byte.byte) : list Byte.byte :=
  let padded := pad msg in
  let blocks := chunks (length padded) 64 padded in
  flat_map (be_bytes 4) (fold_left compress blocks initial_hash).

Definition xor_bytes (x : Z) (bs : list Byte.byte) : list Byte.byte :=
  map (fun b => byte_of (Z.lxor (byte_value b) x)) bs.

(** [hmac.new(key, msg, hashlib.sha256).digest()] *)
Definition hmac_sha256 (key msg : list Byte.byte) : list Byte.byte :=
  let key := if (64 <? length key)%nat then sha256 key else key in
  let key := key ++ repeat Byte.x00 (64 - length key) in
  sha256 (xor_bytes 92 key ++ sha256 (xor_bytes 54 key ++ msg)).

End Hashlib.

(** ** webhook/validator.py *)

Module Validator.
Import Py.

(** [s.encode("utf-8")] for code points below 256. *)
Definition encode_utf8 (s : string) : list Byte.byte :=
  flat_map (fun c =>
              let n := N_of_ascii c in
              if (n <? 128)%N then [byte_of_ascii c]
              else [byte_of_ascii (ascii_of_N (192 + n / 64));
                    byte_of_ascii (ascii_of_N (128 + n mod 64))])
           (list_ascii_of_string s).

Definition hex_digit (n : N) : ascii :=
  if (n <? 10)%N then ascii_of_N (48 + n) else ascii_of_N (87 + n).

(** [bytes.hex()], which [hexdigest] applies to the digest. *)
Fixpoint hex (bs : list Byte.byte) : string :=
  match bs with
  | [] => ""
  | b :: bs' =>
      let n := Byte.to_N b in
      String (hex_digit (n / 16)) (String (hex_digit (n mod 16)) (hex bs'))
  end.

Definition all_ascii (s : string) : bool :=
  forallb is_ascii (list_ascii_of_string s).

(** [hmac.compare_digest] on two [str]: refuses non-ASCII text. *)
Definition compare_digest (a b : string) : result bool :=
  if all_ascii a && all_ascii b then Ok (String.eqb a b) else Raise TypeError.

(** ["sha256=" + hmac.new(secret.encode("utf-8"), payload, hashlib.sha256).hexdigest()] *)
Definition expected_signature (payload : list Byte.byte) (secret : string)
    : string :=
  "sha256=" +:+ hex (Hashlib.hmac_sha256 (encode_utf8 secret) payload).

Definition validate_github_signature (payload : list Byte.byte)
    (signature : option string) (secret : string) : result bool :=
  match signature with
  | None => Ok false
  | Some sig =>
      if negb (nonempty sig) then Ok false
      else if negb (startswith "sha256=" sig) then Ok false
      else compare_digest (expected_signature payload secret) sig
  end.

End Validator.

(** ** Notions the statements below are written with *)

Module Notions.
Import Py Re Parser Claude.

(** All matches of one tool's patterns: pattern by pattern, each pattern's
    matches in text order. *)
Definition tool_matches (logs : string) (patterns : list pattern) : list Match :=
  flat_map (fun pat => finditer pat logs) patterns.

Definition has_match (logs : string) (entry : string * list pattern) : bool :=
  match tool_matches logs entry.2 with
  | [] => false
  | _ :: _ => true
  end.

(** The tools with at least one match in the text, in registry order. *)
Definition matching_tools (registry : list (string * list pattern))
    (logs : string) : list string :=
  map fst (List.filter (has_match logs) registry).

(** The matches of the tool-specific pass, each with the tool whose pattern
    found it: tool by tool in registry order, pattern by pattern, each
    pattern's matches in text order. *)
Definition registry_matches (registry : list (string * list pattern))
    (logs : string) : list (string * Match) :=
  flat_map (fun entry => map (pair entry.1) (tool_matches logs entry.2))
           registry.

(** A list comprehension whose element expression may raise. *)
Fixpoint map_result {A B} (f : A -> result B) (l : list A) : result (list B) :=
  match l with
  | [] => Ok []
  | x :: l' => y <- f x ;; ys <- map_result f l' ;; Ok (y :: ys)
  end.

(** The errors of the tool-specific pass, one for each match. *)
Definition tool_errors (registry : list (string * list pattern))
    (logs : string) : result (list ParsedError) :=
  map_result (fun tm : string * Match => error_of_match logs tm.1 tm.2)
             (registry_matches registry logs).

(** [e] is the error built for the match [tm] of the tool [tm.1]. *)
Definition error_for (logs : string) (tm : string * Match) (e : ParsedError)
    : Prop :=
  error_of_match logs tm.1 tm.2 = Ok e.

(** The group [g] of a match is absent or short enough for [int]. *)
Definition fits_int (m : Match) (g : string) : bool :=
  match group m g with
  | Some s => len s <=? int_max_str_digits
  | None => true
  end.

(** Every line and column number matched by the registry fits [int]. *)
Definition numbers_fit (registry : list (string * list pattern))
    (logs : string) : bool :=
  forallb (fun tm : string * Match =>
             fits_int tm.2 "line" && fits_int tm.2 "col")
          (registry_matches registry logs).

Definition is_value_error (e : exn) : Prop := exists detail, e = ValueError detail.

(** The generic matches grouped by indicator, in the order of the list
    [error_indicators]. *)
Definition generic_matches (logs : string) : list Match :=
  tool_matches logs error_indicators.

(** The same matches merged by their position in the text. *)
Fixpoint insert_by_start (m : Match) (ms : list Match) : list Match :=
  match ms with
  | [] => [m]
  | m' :: ms' =>
      if m_start m <? m_start m' then m :: ms else m' :: insert_by_start m ms'
  end.

Definition in_text_order (ms : list Match) : list Match :=
  fold_right insert_by_start [] ms.

(** The fallback pass as the specification words it: the first 10 matches
    across all generic patterns combined, in text order. *)
Definition generic_errors_in_text_order (logs : string) : list ParsedError :=
  take 10 (map generic_error (in_text_order (generic_matches logs))).

Definition is_generic (e : ParsedError) : Prop :=
  pe_error_type e = "generic" /\ pe_file_path e = None /\
  pe_line_number e = None /\ pe_column e = None.

Definition starts_before (a b : Match) : Prop := m_start a < m_start b.

(** The three extraction strategies of the reply decoder, each yielding a
    candidate text or nothing: (a) a block tagged as json, (b) any fenced
    block, (c) the text from the first opening brace to the last closing one. *)
Definition tagged_block (text : string) : option string :=
  if contains "```json" text then
    let start := find text "```json" 0 + 7 in
    let stop := find text "```" start in
    if stop >? start then Some (strip (slice text start stop)) else None
  else None.

Definition any_block (text : string) : option string :=
  if contains "```" text then
    let start := find text "```" 0 + 3 in
    let stop := find text "```" start in
    if stop >? start then Some (strip (slice text start stop)) else None
  else None.

Definition widest_braces (text : string) : option string :=
  let start := find text "{" 0 in
  let stop := rfind text "}" in
  if (start <? 0) || (stop <? 0) then None
  else Some (slice text start (stop + 1)).

(** A candidate counts when it is not the empty text. *)
Definition yielded (candidate : option string) : option string :=
  match candidate with
  | Some t => if nonempty t then Some t else None
  | None => None
  end.

(** The strategy the code selects: by the first marker the text contains. *)
Definition selected_strategy (text : string) : option string :=
  if contains "```json" text then tagged_block text
  else if contains "```" text then any_block text
  else widest_braces text.

(** The extraction as the specification words it: the strategies in order,
    a later one attempted whenever every earlier one yielded nothing. *)
Definition extraction_chain (text : string) : option string :=
  match yielded (tagged_block text) with
  | Some t => Some t
  | None =>
      match yielded (any_block text) with
      | Some t => Some t
      | None => yielded (widest_braces text)
      end
  end.

Section Decoded.
Variable json_loads : string -> loads.

(** The reply text decodes to [data]: the extraction yields a non-empty
    candidate, and [json.loads] turns it into [data]. *)
Definition decodes_to (text : string) (data : value) : Prop :=
  exists t, json_match text = Ok (Some t) /\ nonempty t = true
            /\ json_loads t = Loaded data.
End Decoded.

(** The exceptions of an ill-shaped decoded value. *)
Definition shape_error (e : exn) : Prop := e = AttributeError \/ e = TypeError.

(** The exception with which [json.loads] leaves [_parse_claude_response]:
    every one it raises but [JSONDecodeError]. *)
Definition loads_raises (outcome : loads) (e : exn) : Prop :=
  match outcome with
  | TooDeep detail => e = RecursionError detail
  | NumberTooLong detail => e = ValueError detail
  | Loaded _ | NotJSON _ => False
  end.

(** The entries proposed under the key [changes] of a decoded object. *)
Definition proposed (d : gmap string value) : list value :=
  match d !! "changes" with
  | Some (VList cs) => cs
  | _ => []
  end.

(** A text field of an entry, the empty text when the key is missing. *)
Definition text_field (entry : value) (key : string) : string :=
  match entry with
  | VDict e => match e !! key with Some (VStr s) => s | _ => "" end
  | _ => ""
  end.

Definition is_text_or_missing (o : option value) : Prop :=
  match o with
  | Some (VStr _) | None => True
  | Some _ => False
  end.

(** An entry shaped as the prompt asks: an object whose [file_path] and
    [new_content], where present, are texts. *)
Definition well_shaped_change (entry : value) : Prop :=
  match entry with
  | VDict e => is_text_or_missing (e !! "file_path")
               /\ is_text_or_missing (e !! "new_content")
  | _ => False
  end.

(** A decoded object whose [changes], where present, is a list of such
    entries. *)
Definition well_shaped_reply (d : gmap string value) : Prop :=
  match d !! "changes" with
  | None => True
  | Some (VList cs) => Forall well_shaped_change cs
  | Some _ => False
  end.

(** Both the path and the new content are non-empty. *)
Definition fully_populated (entry : value) : bool :=
  nonempty (text_field entry "file_path")
  && nonempty (text_field entry "new_content").

(** The [FileChange] made of an entry, its original content looked up in the
    resolved sources. *)
Definition change_of (source_files : gmap string string) (entry : value)
    : FileChange :=
  MkFileChange (VStr (text_field entry "file_path"))
    (default "" (source_files !! text_field entry "file_path"))
    (VStr (text_field entry "new_content")).

End Notions.

(** ** Sample inputs *)

Module Samples.
Import Py Re Parser Claude Handler.

Definition LF : string := String Re.newline "".

Fixpoint unlines (ls : list string) : string :=
  match ls with
  | [] => ""
  | l :: ls' => l +:+ LF +:+ unlines ls'
  end.

(** Only a generic indicator. *)
Definition generic_only_log : string := "Error: boom".

(** An [Error:] line before an [error[...]:] line. *)
Definition two_indicator_log : string :=
  unlines ["Error: first in the text"; "error[E0425]: second in the text"].

(** Fifteen generic-indicator lines. *)
Definition fifteen_indicator_log : string :=
  unlines (map (fun n => "fatal: failure " +:+ n)
    ["01"; "02"; "03"; "04"; "05"; "06"; "07"; "08"; "09"; "10";
     "11"; "12"; "13"; "14"; "15"]).

(** A jest line first, a pyright line after it. *)
Definition jest_then_pyright_log : string :=
  unlines ["FAIL src/app.test.ts"; "src/main.py:10:5 - error: bad argument"].

(** A single pyright line. *)
Definition pyright_log : string := "src/main.py:10:5 - error: bad argument".

(** A pyright line whose line number has 4301 digits. *)
Definition overlong_number_log : string :=
  "src/main.py:" +:+ string_of_list_ascii (repeat "1"%char (Z.to_nat 4301))
  +:+ ":5 - error: bad argument".

(** Reply texts.  The double quote is built from its code. *)
Definition DQ : string := String (ascii_of_N 34) "".

Definition quoted (s : string) : string := DQ +:+ s +:+ DQ.

Definition fenced_json (body : string) : string :=
  "```json" +:+ LF +:+ body +:+ LF +:+ "```".

(** The object with the one member [can_fix: false]. *)
Definition declined_json : string :=
  "{" +:+ quoted "can_fix" +:+ ": false}".

(** A reply whose tagged block is never closed. *)
Definition unclosed_reply : string := "```json" +:+ LF +:+ declined_json.

(** A fenced block that is not JSON. *)
Definition broken_reply : string := fenced_json "{oops".

(** Two proposed changes: the first with empty new content, the second
    complete. *)
Definition two_changes_json : string :=
  "{" +:+ quoted "can_fix" +:+ ": true, " +:+ quoted "changes" +:+ ": [{"
  +:+ quoted "file_path" +:+ ": " +:+ quoted "src/a.py" +:+ ", "
  +:+ quoted "new_content" +:+ ": " +:+ quoted "" +:+ "}, {"
  +:+ quoted "file_path" +:+ ": " +:+ quoted "src/b.py" +:+ ", "
  +:+ quoted "new_content" +:+ ": " +:+ quoted "x = 1" +:+ "}]}".

Definition two_changes_data : gmap string value :=
  list_to_map
    [("can_fix", VBool true);
     ("changes",
      VList [VDict (list_to_map [("file_path", VStr "src/a.py");
                                 ("new_content", VStr "")]);
             VDict (list_to_map [("file_path", VStr "src/b.py");
                                 ("new_content", VStr "x = 1")])])].

(** An object without the member [can_fix]. *)
Definition no_gate_json : string :=
  "{" +:+ quoted "analysis" +:+ ": " +:+ quoted "flaky test" +:+ "}".

Definition no_gate_data : gmap string value :=
  list_to_map [("analysis", VStr "flaky test")].

(** What [json.loads] answers on the sample texts; no other text is decoded
    in the samples. *)
Definition sample_loads (text : string) : loads :=
  if String.eqb text declined_json then
    Loaded (VDict (list_to_map [("can_fix", VBool false)]))
  else if String.eqb text two_changes_json then Loaded (VDict two_changes_data)
  else if String.eqb text no_gate_json then Loaded (VDict no_gate_data)
  else if String.eqb text "{oops" then
    NotJSON "Expecting property name enclosed in double quotes: line 1 column 2 (char 1)"
  else NotJSON "Expecting value: line 1 column 1 (char 0)".

Definition sample_sources : gmap string string :=
  list_to_map [("src/b.py", "x = 0")].

(** A work item, and collaborators that all answer, the oracle declining. *)
Definition sample_item : WorkItem :=
  MkWorkItem 12345 "owner/repo" "main" "abc123"
    "https://github.com/owner/repo/actions/runs/12345".

Definition sample_checkout : string := "/tmp/ci-guardian-0/owner-repo".

Definition declining_env : Collaborators :=
  MkCollaborators
    (fun _ _ _ _ => Ok tt)
    (fun _ _ => Ok pyright_log)
    (fun _ _ _ => Ok sample_checkout)
    (fun _ _ => Ok (negative_result "not feasible"))
    (fun _ _ => Ok tt)
    (fun _ _ _ _ _ => Ok "https://github.com/owner/repo/pull/1")
    (fun _ _ _ _ => Ok tt).

(** The request of the validator's own tests. *)
Definition test_secret : string := "test-secret-123".

Definition test_payload : list Byte.byte :=
  String.list_byte_of_string
    ("{" +:+ quoted "action" +:+ ": " +:+ quoted "completed" +:+ "}").

Definition test_signature : string :=
  "sha256=866b3ab19c865696277d7c215da829452598031069aa37b8def268a65963ecf9".

(** Three readings of the clock: a moment, one second later, and one hour
    and one second later. *)
Definition t0 : float := 1700000000%float.
Definition t0_plus_1s : float := PrimFloat.add t0 1%float.
Definition t0_plus_ttl_1s : float := PrimFloat.add t0 3601%float.

End Samples.


(** * Further code of the repository *)

(** ** More Python primitives *)

Module PyMore.
Import Py.

(** [l[:n]] on a list. *)
Definition list_slice_to {A} (l : list A) (n : Z) : list A :=
  take (Z.to_nat (clip (Z.of_nat (length l)) n)) l.

(** A [str] where one is required. *)
Definition as_text (v : value) : result string :=
  match v with
  | VStr s => Ok s
  | _ => Raise TypeError
  end.

End PyMore.

(** ** config.py *)

Module Config.

(** The settings the modelled code reads. *)
Record Settings := MkSettings {
  github_webhook_secret : string;
  allowed_repos : list string;
  max_context_files : Z;
  max_log_size : Z
}.

Definition is_repo_allowed (self : Settings) (repo_full_name : string) : bool :=
  match allowed_repos self with
  | [] => true
  | _ :: _ => existsb (String.eqb repo_full_name) (allowed_repos self)
  end.

End Config.

(** ** webhook/handler.py: the request handler *)

Module Webhook.
Import Py PyMore Handler Validator Config.

(** The JSON document of a delivery of GitHub, with the members the handler
    and the pipeline read: the body decodes to an object, [workflow_run] and
    [repository], where present, are objects, and a workflow run carries its
    integer [id] and the texts [head_branch], [head_sha] and [html_url].  A
    member the handler reads with [.get] is optional.  Bodies of another
    shape are outside this record, and so is what the handler does with
    them. *)
Record WorkflowRun := MkWorkflowRun {
  wr_id : Z;
  wr_conclusion : option string;
  wr_head_branch : string;
  wr_head_sha : string;
  wr_html_url : string
}.

Record Payload := MkPayload {
  pl_action : option string;
  pl_workflow_run : option WorkflowRun;
  pl_repository : option string      (* repository.full_name *)
}.

Record Request := MkRequest {
  body : list Byte.byte;
  x_hub_signature_256 : option string;
  x_github_event : option string;
  json : Payload
}.

(** What the caller gets: the 401 of [HTTPException], or one of the two
    answers. *)
Inductive response :=
| Unauthorized
| Ignored (reason : string)
| Accepted (run : string).

(** The answer, the cache as the handler leaves it, and the payload queued
    for [process_workflow_failure], if any. *)
Record handled := MkHandled {
  h_response : response;
  h_cache : gmap Z float;
  h_queued : option Payload
}.

(** [f"{x}"] of an optional text. *)
Definition show (x : option string) : string := default "None" x.

Definition is_text (x : option string) (s : string) : bool :=
  match x with
  | Some t => String.eqb t s
  | None => false
  end.

(** [github_webhook] on such a delivery.  The two readings of the clock are
    inputs, as in [deduplicate].  With no [workflow_run] member every [.get]
    on the empty default is [None], so the conclusion is not a failure. *)
Definition github_webhook (settings : Settings) (sweep_time record_time : float)
    (_processed_runs : gmap Z float) (request : Request) : result handled :=
  valid <- validate_github_signature (body request)
             (x_hub_signature_256 request) (github_webhook_secret settings) ;;
  if negb valid then Ok (MkHandled Unauthorized _processed_runs None)
  else
    let payload := json request in
    if negb (is_text (x_github_event request) "workflow_run") then
      Ok (MkHandled (Ignored "not a workflow_run event") _processed_runs None)
    else
      let action := pl_action payload in
      match pl_workflow_run payload with
      | None =>
          Ok (MkHandled
                (Ignored ("action=" +:+ show action +:+ ", conclusion=None"))
                _processed_runs None)
      | Some workflow_run =>
          let conclusion := wr_conclusion workflow_run in
          if negb (is_text action "completed")
             || negb (is_text conclusion "failure") then
            Ok (MkHandled
                  (Ignored ("action=" +:+ show action +:+ ", conclusion="
                            +:+ show conclusion))
                  _processed_runs None)
          else
            let repo_full_name := default "" (pl_repository payload) in
            if negb (is_repo_allowed settings repo_full_name) then
              Ok (MkHandled (Ignored "repository not allowed")
                    _processed_runs None)
            else
              let run_id := wr_id workflow_run in
              let '(duplicate, runs) :=
                deduplicate run_id sweep_time record_time _processed_runs in
              if duplicate then Ok (MkHandled (Ignored "duplicate") runs None)
              else Ok (MkHandled (Accepted (str_int run_id)) runs (Some payload))
      end.

(** The work item [process_workflow_failure] reads out of the queued payload
    of such a delivery, whose workflow run has the members the subscripts
    name; the subscript of a missing [repository] raises before the pipeline
    starts, and there is no work item then. *)
Definition work_item (payload : Payload) : option WorkItem :=
  match pl_workflow_run payload, pl_repository payload with
  | Some workflow_run, Some repo =>
      Some (MkWorkItem (wr_id workflow_run) repo (wr_head_branch workflow_run)
              (wr_head_sha workflow_run) (wr_html_url workflow_run))
  | _, _ => None
  end.

End Webhook.

(** ** github/logs.py *)

Module Logs.
Import Py PyMore.

(** [fetch_workflow_logs], from what the [gh] process hands back: its return
    code and its two decoded output streams. *)
Definition fetch_workflow_logs (max_log_size : Z) (returncode : Z)
    (stdout stderr : string) : result string :=
  if negb (returncode =? 0) then
    Raise (RuntimeError ("Failed to fetch workflow logs: " +:+ stderr))
  else
    let logs := stdout in
    if len logs >? max_log_size then
      Ok ("[... truncated " +:+ str_int (len logs - max_log_size)
          +:+ " characters ...]" +:+ String Re.newline ""
          +:+ slice logs (- max_log_size) (len logs))
    else Ok logs.

End Logs.

(** ** github/repo.py *)

Module Repo.
Import Py PyMore.

(** What the file system answers at a path below the working copy:
    [exists()] or [is_file()] is false; the file is there and can be read;
    it is there and [read_text] raises; or [exists()] or [is_file()] itself
    raises, which [pathlib] does for every [OSError] other than a missing
    path (a name that is too long, a directory that may not be searched). *)
Inductive file_state :=
| Missing
| Readable (content : string)
| Unreadable (e : exn)
| Inaccessible (e : exn).

(** The truncation of a very large file. *)
Definition truncate_content (content : string) : string :=
  if len content >? 10000 then
    slice_to content 10000 +:+ String Re.newline "" +:+ "... [truncated]"
  else content.

(** The body of the loop of [get_relevant_files]: the test of the path
    stands outside the [try], the reading inside. *)
Definition read_file (fs : string -> file_state)
    (files_content : gmap string string) (file_path : string)
    : result (gmap string string) :=
  match fs file_path with
  | Inaccessible e => Raise e
  | Missing | Unreadable _ => Ok files_content
  | Readable content => Ok (<[file_path := truncate_content content]> files_content)
  end.

(** [get_relevant_files]; [fs] gives the state of [repo_path / file_path]. *)
Definition get_relevant_files (max_context_files : Z)
    (fs : string -> file_state) (error_files : list string)
    : result (gmap string string) :=
  fold_result (read_file fs) (list_slice_to error_files max_context_files) ∅.

End Repo.

(** ** analysis/fixer.py *)

Module Fixer.
Import Py PyMore Claude.

(** The tools of the validation pass, and what launching one does: it runs
    (and may rewrite files), it is not installed ([FileNotFoundError]), or
    the launch raises something else. *)
Inductive tool := RuffFormat | RuffCheckFix | Prettier | EslintFix.

Inductive launch :=
| Launched (fs : gmap string string)
| NotFound
| LaunchRaises (e : exn).

(** The working copy after a step, the tools launched, and how it ended. *)
Record applied := MkApplied {
  a_fs : gmap string string;
  a_tools : list tool;
  a_result : result unit
}.

(** What [Path.write_text] does with a file and a text: it writes the
    text; or opening the file raises and the file is as it was; or the file
    is opened, which empties it, and the writing raises, leaving in the file
    whatever had reached it. *)
Inductive written :=
| Written
| NotOpened (e : exn)
| Interrupted (e : exn) (remains : string).

Section FileSystem.
(** The file that [repo_path / file_path] names. *)
Variable resolve : string -> string -> string.
(** What creating the parent directories of a file raises, if anything. *)
Variable mkdir_error : string -> option exn.
Variable write_text : string -> string -> written.
Variable run_tool : tool -> string -> gmap string string -> launch.

(** The body of the loop of [apply_fix]: the files as it leaves them, and
    whether it raised. *)
Definition write_change (repo_path : string) (fs : gmap string string)
    (change : FileChange) : gmap string string * result unit :=
  match as_text (file_path change) with
  | Raise e => (fs, Raise e)
  | Ok relative =>
      let target := resolve repo_path relative in
      match mkdir_error target with
      | Some e => (fs, Raise e)
      | None =>
          match as_text (new_content change) with
          | Raise e => (fs, Raise e)
          | Ok content =>
              match write_text target content with
              | Written => (<[target := content]> fs, Ok tt)
              | NotOpened e => (fs, Raise e)
              | Interrupted e remains => (<[target := remains]> fs, Raise e)
              end
          end
      end
  end.

(** The loop: the files as they are when it ends or raises. *)
Fixpoint write_changes (repo_path : string) (changes : list FileChange)
    (fs : gmap string string) : gmap string string * result unit :=
  match changes with
  | [] => (fs, Ok tt)
  | change :: rest =>
      match write_change repo_path fs change with
      | (fs', Ok _) => write_changes repo_path rest fs'
      | (fs', Raise e) => (fs', Raise e)
      end
  end.

(** Both launches stand in one [try]: a missing [ruff] skips the second. *)
Definition _validate_python_project (repo_path : string)
    (fs : gmap string string) : applied :=
  match run_tool RuffFormat repo_path fs with
  | Launched fs1 =>
      match run_tool RuffCheckFix repo_path fs1 with
      | Launched fs2 => MkApplied fs2 [RuffFormat; RuffCheckFix] (Ok tt)
      | NotFound => MkApplied fs1 [RuffFormat; RuffCheckFix] (Ok tt)
      | LaunchRaises e => MkApplied fs1 [RuffFormat; RuffCheckFix] (Raise e)
      end
  | NotFound => MkApplied fs [RuffFormat] (Ok tt)
  | LaunchRaises e => MkApplied fs [RuffFormat] (Raise e)
  end.

(** Each launch stands in a [try] of its own. *)
Definition _validate_node_project (repo_path : string)
    (fs : gmap string string) : applied :=
  match run_tool Prettier repo_path fs with
  | LaunchRaises e => MkApplied fs [Prettier] (Raise e)
  | first =>
      let fs1 := match first with Launched fs1 => fs1 | _ => fs end in
      match run_tool EslintFix repo_path fs1 with
      | Launched fs2 => MkApplied fs2 [Prettier; EslintFix] (Ok tt)
      | NotFound => MkApplied fs1 [Prettier; EslintFix] (Ok tt)
      | LaunchRaises e => MkApplied fs1 [Prettier; EslintFix] (Raise e)
      end
  end.

Definition exists_in (fs : gmap string string) (repo_path name : string) : bool :=
  match fs !! resolve repo_path name with
  | Some _ => true
  | None => false
  end.

Definition _validate_changes (repo_path : string) (fs : gmap string string)
    : applied :=
  if exists_in fs repo_path "pyproject.toml" then
    _validate_python_project repo_path fs
  else if exists_in fs repo_path "package.json" then
    _validate_node_project repo_path fs
  else MkApplied fs [] (Ok tt).

Definition apply_fix (repo_path : string) (changes : list FileChange)
    (fs : gmap string string) : applied :=
  match write_changes repo_path changes fs with
  | (fs', Ok _) => _validate_changes repo_path fs'
  | (fs', Raise e) => MkApplied fs' [] (Raise e)
  end.
End FileSystem.

End Fixer.


(** ** Notions and samples for the further properties *)

Module MoreNotions.
Import Py PyMore Re Parser Claude Handler Validator Config Webhook Repo Fixer.

(** The place of a call in the fixed order of the pipeline. *)
Definition stage (ev : event) : nat :=
  match ev with
  | SendFailureNotification _ _ _ _ => 1
  | FetchWorkflowLogs _ _ => 2
  | CloneRepository _ _ _ => 3
  | AnalyzeFailure _ _ => 4
  | ApplyFix _ _ => 5
  | CreateFixPr _ _ _ _ _ => 6
  | SendPrNotification _ _ _ _ => 7
  | Rmtree _ => 8
  | LogException _ => 9
  end%nat.

Definition is_logged_exception (ev : event) : bool :=
  match ev with
  | LogException _ => true
  | _ => false
  end.

(** The exception the collaborator raises when it is called as the event
    records, if it raises. *)
Definition raised (env : Collaborators) (ev : event) : option exn :=
  match ev with
  | SendFailureNotification repo branch run run_url =>
      match Handler.send_failure_notification env repo branch run run_url with
      | Raise e => Some e
      | Ok _ => None
      end
  | FetchWorkflowLogs repo run =>
      match Handler.fetch_workflow_logs env repo run with
      | Raise e => Some e
      | Ok _ => None
      end
  | CloneRepository repo branch commit =>
      match Handler.clone_repository env repo branch commit with
      | Raise e => Some e
      | Ok _ => None
      end
  | AnalyzeFailure errors repo_path =>
      match Handler.analyze_failure env errors repo_path with
      | Raise e => Some e
      | Ok _ => None
      end
  | ApplyFix repo_path changes =>
      match Handler.apply_fix env repo_path changes with
      | Raise e => Some e
      | Ok _ => None
      end
  | CreateFixPr repo_path repo run fix_description original_branch =>
      match Handler.create_fix_pr env repo_path repo run fix_description
              original_branch with
      | Raise e => Some e
      | Ok _ => None
      end
  | SendPrNotification repo branch pr_url fix_description =>
      match Handler.send_pr_notification env repo branch pr_url
              fix_description with
      | Raise e => Some e
      | Ok _ => None
      end
  | Rmtree _ | LogException _ => None
  end.

(** After the first call that raises, the trace holds the removal of the
    working copy, if there is one, and the logging of that exception, and
    nothing else. *)
Fixpoint quiet_after_raise (env : Collaborators) (trace : list event) : Prop :=
  match trace with
  | [] => True
  | ev :: rest =>
      match raised env ev with
      | Some e =>
          rest = [LogException e]
          \/ exists repo_path, rest = [Rmtree repo_path; LogException e]
      | None => quiet_after_raise env rest
      end
  end.

(** The delivery passes every filter that stands before the deduplication. *)
Definition passes_filters (settings : Settings) (request : Request) : bool :=
  match validate_github_signature (body request) (x_hub_signature_256 request)
          (github_webhook_secret settings) with
  | Ok true =>
      is_text (x_github_event request) "workflow_run"
      && is_text (pl_action (json request)) "completed"
      && match pl_workflow_run (json request) with
         | Some workflow_run => is_text (wr_conclusion workflow_run) "failure"
         | None => false
         end
      && is_repo_allowed settings (default "" (pl_repository (json request)))
  | _ => false
  end.

(** The content the last change aimed at [target] gives it, if any does. *)
Fixpoint last_write (resolve : string -> string -> string) (repo_path : string)
    (changes : list FileChange) (target : string) : option string :=
  match changes with
  | [] => None
  | change :: rest =>
      match last_write resolve repo_path rest target with
      | Some content => Some content
      | None =>
          match file_path change, new_content change with
          | VStr relative, VStr content =>
              if String.eqb (resolve repo_path relative) target
              then Some content else None
          | _, _ => None
          end
      end
  end.

(** A change the loop of [apply_fix] can write: both fields are texts, the
    directories can be made and the text is written. *)
Definition writable (resolve : string -> string -> string)
    (mkdir_error : string -> option exn)
    (write_text : string -> string -> written) (repo_path : string)
    (change : FileChange) : Prop :=
  exists relative content,
    file_path change = VStr relative /\ new_content change = VStr content
    /\ mkdir_error (resolve repo_path relative) = None
    /\ write_text (resolve repo_path relative) content = Written.

(** The least number of characters a match of an expression takes. *)
Fixpoint min_len (r : regex) : nat :=
  match r with
  | Eps | Bol | Eol | Star _ | LazyStar _ => 0
  | Lit _ | Cls _ => 1
  | Seq r1 r2 => min_len r1 + min_len r2
  | Alt r1 r2 => Nat.min (min_len r1) (min_len r2)
  | Group _ r1 => min_len r1
  end%nat.

(** Every group of the expression takes at least one character. *)
Fixpoint groups_take_text (r : regex) : bool :=
  match r with
  | Group _ r1 => (0 <? min_len r1)%nat && groups_take_text r1
  | Seq r1 r2 | Alt r1 r2 => groups_take_text r1 && groups_take_text r2
  | _ => true
  end.

(** The groups every match of the expression closes. *)
Fixpoint sure_groups (r : regex) : list string :=
  match r with
  | Group name r1 => name :: sure_groups r1
  | Seq r1 r2 => sure_groups r1 ++ sure_groups r2
  | Alt r1 r2 =>
      List.filter (fun name => existsb (String.eqb name) (sure_groups r2))
                  (sure_groups r1)
  | _ => []
  end.

(** A pattern of which every match is non-empty and names a file. *)
Definition locates_a_file (pat : pattern) : bool :=
  (0 <? min_len (p_regex pat))%nat
  && groups_take_text (p_regex pat)
  && existsb (String.eqb "file") (sure_groups (p_regex pat)).

(** A cursor stands in a text. *)
Definition cursor_in (text : string) (cur : cursor) : Prop :=
  (c_pos cur <= String.length text)%nat
  /\ c_rest cur = drop_str (c_pos cur) text.

Definition groups_nonempty (g : gmap string string) : Prop :=
  forall name s, g !! name = Some s -> s <> "".

(** What a successful run of an expression from [cur] hands to its
    continuation. *)
Definition reached (text : string) (r : regex) (cur cur' : cursor) : Prop :=
  cursor_in text cur'
  /\ (c_pos cur + min_len r <= c_pos cur')%nat
  /\ groups_nonempty (c_groups cur')
  /\ (forall name, is_Some (c_groups cur !! name) ->
                   is_Some (c_groups cur' !! name))
  /\ (forall name, In name (sure_groups r) -> is_Some (c_groups cur' !! name)).

(** A match lies in the text, takes at least [least] characters, and its
    groups hold text, the groups [names] among them. *)
Definition match_in (text : string) (least : nat) (names : list string)
    (m : Match) : Prop :=
  0 <= m_start m /\ m_start m + Z.of_nat least <= m_end m
  /\ m_end m <= len text
  /\ groups_nonempty (m_groups m)
  /\ forall name, In name names -> is_Some (m_groups m !! name).

Definition has_file_path (e : ParsedError) : Prop :=
  exists f, pe_file_path e = Some f /\ f <> "".

(** A context is the text of a match with what stands around it in the
    logs, 200 characters on each side or what there is. *)
Definition surrounds (logs : string) (m : Match) (context : string) : Prop :=
  exists before after,
    context = before +:+ slice logs (m_start m) (m_end m) +:+ after
    /\ before = slice logs (m_start m - len before) (m_start m)
    /\ after = slice logs (m_end m) (m_end m + len after)
    /\ len before = Z.min 200 (m_start m)
    /\ len after = Z.min 200 (len logs - m_end m)
    /\ 0 < len (slice logs (m_start m) (m_end m)).



(** The original content of a change is empty or what the source map holds
    for the path of the change. *)
Definition original_from (source_files : gmap string string) (c : FileChange)
    : Prop :=
  original_content c = ""
  \/ exists p, file_path c = VStr p
               /\ source_files !! p = Some (original_content c).

End MoreNotions.

Module MoreSamples.
Import Py PyMore Re Parser Claude Handler Validator Config Webhook Repo Fixer.
Import Samples.

(** Collaborators that all answer, the oracle proposing one change. *)
Definition sample_fix : FixResult :=
  MkFixResult (VBool true) (VStr "Annotate the argument")
    [MkFileChange (VStr "src/main.py") "x = 0" (VStr "x = 1")]
    (VFloat 1%float) (VStr "wrong type").

Definition sample_pr : string := "https://github.com/owner/repo/pull/1".

(** What the parser returns on the single pyright line. *)
Definition pyright_parsed : ParsedErrors :=
  MkParsedErrors
    [MkParsedError "pyright" "bad argument" (Some "src/main.py") (Some 10)
       (Some 5) pyright_log]
    pyright_log "pyright".

(** What the decoder returns on the reply with two proposed changes. *)
Definition two_changes_result : FixResult :=
  MkFixResult (VBool true) (VStr "")
    [MkFileChange (VStr "src/b.py") "x = 0" (VStr "x = 1")]
    (VFloat 0%float) (VStr "").

Definition fixing_env : Collaborators :=
  MkCollaborators
    (fun _ _ _ _ => Ok tt)
    (fun _ _ => Ok pyright_log)
    (fun _ _ _ => Ok sample_checkout)
    (fun _ _ => Ok sample_fix)
    (fun _ _ => Ok tt)
    (fun _ _ _ _ _ => Ok sample_pr)
    (fun _ _ _ _ => Ok tt).

(** The same, with logs in which nothing is recognised. *)
Definition quiet_env : Collaborators :=
  MkCollaborators
    (fun _ _ _ _ => Ok tt)
    (fun _ _ => Ok "All checks passed!")
    (fun _ _ _ => Ok sample_checkout)
    (fun _ _ => Ok sample_fix)
    (fun _ _ => Ok tt)
    (fun _ _ _ _ _ => Ok sample_pr)
    (fun _ _ _ _ => Ok tt).

(** The same as [fixing_env], the first notification raising. *)
Definition unreachable_slack_env : Collaborators :=
  MkCollaborators
    (fun _ _ _ _ => Raise (OSError "Name or service not known"))
    (fun _ _ => Ok pyright_log)
    (fun _ _ _ => Ok sample_checkout)
    (fun _ _ => Ok sample_fix)
    (fun _ _ => Ok tt)
    (fun _ _ _ _ _ => Ok sample_pr)
    (fun _ _ _ _ => Ok tt).

(** A signed delivery of a failed run, as the handler's tests post it. *)
Definition sample_settings : Settings :=
  MkSettings test_secret [] 20 50000.

Definition sample_run : WorkflowRun :=
  MkWorkflowRun 12345 (Some "failure") "main" "abc123"
    "https://github.com/owner/repo/actions/runs/12345".

Definition sample_payload : Payload :=
  MkPayload (Some "completed") (Some sample_run) (Some "owner/repo").

Definition sample_request : Request :=
  MkRequest test_payload (Some test_signature) (Some "workflow_run")
    sample_payload.

(** The same settings with an allow list. *)
Definition restricted_settings : Settings :=
  MkSettings test_secret ["owner/repo"] 20 50000.

(** The same delivery under another event name. *)
Definition other_event_request : Request :=
  MkRequest test_payload (Some test_signature) (Some "pull_request")
    sample_payload.

(** A signature with the prefix and an e with acute accent after it. *)
Definition non_ascii_signature : string :=
  "sha256=" +:+ String (ascii_of_N 233) "".

Definition non_ascii_request : Request :=
  MkRequest test_payload (Some non_ascii_signature) (Some "workflow_run")
    sample_payload.

(** A reply that is a JSON array, one whose [changes] is a number, one
    whose [can_fix] is a text, and a decoder that knows them. *)
Definition array_json : string := "[1, 2]".

Definition numeric_changes_json : string :=
  "{" +:+ quoted "changes" +:+ ": 5}".

Definition textual_gate_json : string :=
  "{" +:+ quoted "can_fix" +:+ ": " +:+ quoted "false" +:+ "}".

Definition textual_gate_data : gmap string value :=
  list_to_map [("can_fix", VStr "false")].

(** An array nested 1000 deep, which is deeper than the decoder's stack. *)
Definition deep_json : string :=
  string_of_list_ascii (repeat "["%char (Z.to_nat 1000))
  +:+ string_of_list_ascii (repeat "]"%char (Z.to_nat 1000)).

Definition more_loads (text : string) : loads :=
  if String.eqb text array_json then Loaded (VList [VInt 1; VInt 2])
  else if String.eqb text numeric_changes_json then
    Loaded (VDict (list_to_map [("changes", VInt 5)]))
  else if String.eqb text textual_gate_json then Loaded (VDict textual_gate_data)
  else if String.eqb text deep_json then
    TooDeep "maximum recursion depth exceeded while decoding a JSON array from a unicode string"
  else sample_loads text.

(** What the disk answers below the working copy: one file that reads,
    one whose reading is refused, nothing else. *)
Definition sample_disk (file_path : string) : file_state :=
  if String.eqb file_path "src/b.py" then Readable "x = 0"
  else if String.eqb file_path "src/c.py"
       then Unreadable (OSError "Permission denied")
       else Missing.

(** A working copy with a Python marker, below the checkout directory. *)
Definition join (repo_path relative : string) : string :=
  repo_path +:+ "/" +:+ relative.

Definition sample_tree : gmap string string :=
  list_to_map [(join sample_checkout "pyproject.toml", "[project]");
               (join sample_checkout "package.json", "{}");
               (join sample_checkout "src/main.py", "x = 0")].

(** No directory refuses.  Every file is written, except that under
    [locked/] the disk is full: the file is opened and nothing reaches it. *)
Definition no_error (target : string) : option exn := None.

Definition writes_all (target content : string) : written := Written.


(** [ruff] is not installed; the Node tools run and change nothing. *)
Definition tools_without_ruff (t : tool) (repo_path : string)
    (fs : gmap string string) : launch :=
  match t with
  | RuffFormat | RuffCheckFix => NotFound
  | Prettier | EslintFix => Launched fs
  end.


Definition rewrite_twice : list FileChange :=
  [MkFileChange (VStr "src/main.py") "x = 0" (VStr "x = 1");
   MkFileChange (VStr "src/main.py") "x = 0" (VStr "x = 2")].

End MoreSamples.

(** * Properties *)

(** ** The parser *)

Module ParserFacts.
Import Py Re Parser Notions Samples.

(** *** Loops that may raise *)

Lemma map_result_app {A B} (f : A -> result B) (l1 l2 : list A) :
  map_result f (l1 ++ l2)
  = (ys1 <- map_result f l1 ;; ys2 <- map_result f l2 ;; Ok (ys1 ++ ys2)).
Proof.
  induction l1 as [|x l1 IH]; simpl.
  - by destruct (map_result f l2).
  - destruct (f x) as [y|e]; simpl; [|done]. rewrite IH.
    destruct (map_result f l1) as [ys1|e]; simpl; [|done].
    by destruct (map_result f l2).
Qed.

Lemma map_result_map {A B C} (f : B -> result C) (g : A -> B) (l : list A) :
  map_result f (map g l) = map_result (fun x => f (g x)) l.
Proof. induction l as [|x l IH]; simpl; [done|]. by rewrite IH. Qed.

Lemma map_result_Forall2 {A B} (f : A -> result B) (l : list A) (ys : list B) :
  map_result f l = Ok ys <-> Forall2 (fun x y => f x = Ok y) l ys.
Proof.
  revert ys. induction l as [|x l IH]; intros ys; simpl.
  - split; [intros [= <-]; constructor|by intros ->%Forall2_nil_inv_l].
  - split.
    + destruct (f x) as [y|e] eqn:E; simpl; [|done].
      destruct (map_result f l) as [ys'|e]; simpl; [|done].
      intros [= <-]. constructor; [done|]. by apply IH.
    + intros (y & ys' & Hy & Hys & ->)%Forall2_cons_inv_l.
      rewrite Hy. simpl. apply IH in Hys. by rewrite Hys.
Qed.

Lemma map_result_returns {A B} (f : A -> result B) (l : list A) :
  (exists ys, map_result f l = Ok ys) <-> Forall (fun x => exists y, f x = Ok y) l.
Proof.
  induction l as [|x l IH]; simpl.
  - split; [constructor|by eexists].
  - split.
    + intros [ys H]. destruct (f x) as [y|e] eqn:E; simpl in H; [|done].
      destruct (map_result f l) as [ys'|e]; simpl in H; [|done].
      constructor; [by eexists|]. apply IH. by eexists.
    + intros [[y Hy] Hl]%Forall_cons. apply IH in Hl as [ys Hys].
      rewrite Hy, Hys. by eexists.
Qed.

Lemma map_result_raises {A B} (f : A -> result B) (l : list A) (e : exn) :
  map_result f l = Raise e -> exists x, In x l /\ f x = Raise e.
Proof.
  induction l as [|x l IH]; simpl; [done|].
  destruct (f x) as [y|e'] eqn:E; simpl.
  - destruct (map_result f l) as [ys|e'']; simpl; [done|].
    intros [= <-]. destruct IH as (x' & Hin & Hx); [done|]. eauto.
  - intros [= <-]. eauto.
Qed.

(** *** The loops of [parse_error_logs] *)

Lemma fold_on_match logs tool ms st :
  fold_result (on_match logs tool) ms st =
  (errs <- map_result (error_of_match logs tool) ms ;;
   Ok (st.1 ++ errs, match ms with [] => st.2 | _ :: _ => tool end)).
Proof.
  revert st. induction ms as [|m ms IH]; intros [errs ty]; simpl.
  - by rewrite app_nil_r.
  - unfold on_match at 1.
    destruct (error_of_match logs tool m) as [e|x]; simpl; [|done].
    rewrite IH. simpl.
    destruct (map_result (error_of_match logs tool) ms) as [es|x]; simpl;
      [|done].
    rewrite <- app_assoc. simpl. by destruct ms.
Qed.

Lemma fold_on_pattern logs tool pats st :
  fold_result (on_pattern logs tool) pats st =
  (errs <- map_result (error_of_match logs tool) (tool_matches logs pats) ;;
   Ok (st.1 ++ errs,
       match tool_matches logs pats with [] => st.2 | _ :: _ => tool end)).
Proof.
  revert st. induction pats as [|p pats IH]; intros [errs ty]; simpl.
  - by rewrite app_nil_r.
  - unfold on_pattern at 1. rewrite fold_on_match.
    unfold tool_matches. simpl. rewrite map_result_app.
    destruct (map_result (error_of_match logs tool) (finditer p logs))
      as [es|x]; simpl; [|done].
    rewrite IH. simpl. unfold tool_matches.
    destruct (map_result (error_of_match logs tool) (flat_map _ pats))
      as [es'|x]; simpl; [|done].
    rewrite app_assoc. f_equal. f_equal.
    destruct (finditer p logs); simpl; [done|].
    by destruct (flat_map _ pats).
Qed.

Lemma last_cons_default {A} (x : A) (l : list A) (d d' : A) :
  List.last (x :: l) d = List.last (x :: l) d'.
Proof.
  revert x. induction l as [|y l IH]; intros x; [done|].
  change (List.last (y :: l) d = List.last (y :: l) d'). apply IH.
Qed.

Lemma fold_on_tool logs registry st :
  fold_result (on_tool logs) registry st =
  (errs <- tool_errors registry logs ;;
   Ok (st.1 ++ errs, List.last (matching_tools registry logs) st.2)).
Proof.
  revert st. induction registry as [|[tool pats] reg IH]; intros [errs ty];
    simpl.
  - by rewrite app_nil_r.
  - unfold on_tool at 1. rewrite fold_on_pattern. simpl.
    unfold tool_errors, registry_matches. simpl.
    rewrite map_result_app, map_result_map. simpl.
    destruct (map_result (error_of_match logs tool) (tool_matches logs pats))
      as [es|x]; simpl; [|done].
    rewrite IH. simpl. unfold tool_errors, registry_matches.
    destruct (map_result _ (flat_map _ reg)) as [es'|x]; simpl; [|done].
    rewrite <- app_assoc. f_equal. f_equal.
    unfold matching_tools, has_match. simpl.
    destruct (tool_matches logs pats) eqn:E; simpl; [done|].
    fold (has_match logs).
    destruct (map fst (List.filter (has_match logs) reg)) eqn:E'; [done|].
    apply last_cons_default.
Qed.

Lemma scan_registry_spec registry logs :
  scan_registry registry logs =
  (errs <- tool_errors registry logs ;;
   Ok (errs, List.last (matching_tools registry logs) "unknown")).
Proof. unfold scan_registry. by rewrite fold_on_tool. Qed.

Lemma registry_matches_nil registry logs :
  registry_matches registry logs = [] <-> matching_tools registry logs = [].
Proof.
  unfold registry_matches, matching_tools.
  induction registry as [|[tool pats] reg IH]; simpl; [done|].
  unfold has_match at 1. simpl.
  destruct (tool_matches logs pats) eqn:E; simpl; [done|].
  split; intros H; discriminate H.
Qed.

Lemma tool_errors_matches registry logs errs :
  tool_errors registry logs = Ok errs <->
  Forall2 (error_for logs) (registry_matches registry logs) errs.
Proof. apply map_result_Forall2. Qed.

Lemma tool_errors_nil registry logs errs :
  tool_errors registry logs = Ok errs ->
  errs = [] <-> matching_tools registry logs = [].
Proof.
  intros H. apply tool_errors_matches in H.
  rewrite <- registry_matches_nil. split.
  - intros ->. by apply Forall2_nil_inv_r in H.
  - intros E. rewrite E in H. by apply Forall2_nil_inv_l in H.
Qed.

Lemma no_match_no_tool_error registry logs :
  matching_tools registry logs = [] -> tool_errors registry logs = Ok [].
Proof.
  intros H. apply registry_matches_nil in H. unfold tool_errors. by rewrite H.
Qed.

Lemma matching_tools_in registry logs t :
  In t (matching_tools registry logs) -> In t (map fst registry).
Proof.
  unfold matching_tools. rewrite !in_map_iff.
  intros [e [He Hin]]. exists e. split; [done|].
  by apply List.filter_In in Hin as [? _].
Qed.

Lemma last_in {A} (x : A) (l : list A) (d : A) : In (List.last (x :: l) d) (x :: l).
Proof.
  revert x. induction l as [|y l IH]; intros x; [by left|].
  right. apply (IH y).
Qed.

Lemma last_snoc {A} (l : list A) (x d : A) : List.last (l ++ [x]) d = x.
Proof. apply List.last_last. Qed.

Lemma parse_error_logs_spec logs :
  parse_error_logs logs =
  (errs <- tool_errors PATTERNS logs ;;
   Ok match errs with
      | [] => MkParsedErrors (_extract_generic_errors logs) logs "unknown"
      | _ :: _ =>
          MkParsedErrors errs logs
            (List.last (matching_tools PATTERNS logs) "unknown")
      end).
Proof.
  unfold parse_error_logs. rewrite scan_registry_spec.
  destruct (tool_errors PATTERNS logs) as [errs|e] eqn:E; [|reflexivity].
  destruct errs as [|e errs]; [|reflexivity].
  pose proof (proj1 (tool_errors_nil _ _ _ E) eq_refl) as Hn.
  unfold bind. rewrite Hn. by destruct (_extract_generic_errors logs).
Qed.

(** *** When the parser returns *)

Lemma int_returns (s : string) :
  (exists n, int s = Ok n) <-> (len s <=? int_max_str_digits) = true.
Proof.
  unfold int. rewrite Z.leb_le.
  destruct (int_max_str_digits <? len s) eqn:E.
  - apply Z.ltb_lt in E. split; [by intros [n H]|lia].
  - apply Z.ltb_ge in E. split; [done|by eexists].
Qed.

Lemma int_group_returns (m : Match) (g : string) :
  (exists n, int_group m g = Ok n) <-> fits_int m g = true.
Proof.
  unfold int_group, fits_int. destruct (group m g) as [s|]; [|by split; eauto].
  destruct s as [|c s]; [by split; eauto|]. cbn [nonempty].
  rewrite <- int_returns. split.
  - intros [n H]. destruct (int (String c s)); [by eexists|done].
  - intros [n ->]. by eexists.
Qed.

Lemma int_group_raises (m : Match) (g : string) (e : exn) :
  int_group m g = Raise e -> is_value_error e.
Proof.
  unfold int_group, int. destruct (group m g) as [s|]; [|done].
  destruct (nonempty s); [|done].
  destruct (int_max_str_digits <? len s); [|done].
  intros [= <-]. by eexists.
Qed.

Lemma error_of_match_returns logs tool (m : Match) :
  (exists e, error_of_match logs tool m = Ok e)
  <-> fits_int m "line" && fits_int m "col" = true.
Proof.
  rewrite andb_true_iff, <- !int_group_returns. unfold error_of_match. split.
  - intros [e H].
    destruct (int_group m "line"); simpl in H; [|done].
    destruct (int_group m "col"); simpl in H; [|done]. eauto.
  - intros [[l ->] [c ->]]. by eexists.
Qed.

Lemma error_of_match_raises logs tool (m : Match) (e : exn) :
  error_of_match logs tool m = Raise e -> is_value_error e.
Proof.
  unfold error_of_match.
  destruct (int_group m "line") eqn:El; simpl.
  - destruct (int_group m "col") eqn:Ec; simpl; [done|].
    intros [= <-]. by eapply int_group_raises.
  - intros [= <-]. by eapply int_group_raises.
Qed.

Lemma tool_errors_returns registry logs :
  (exists errs, tool_errors registry logs = Ok errs)
  <-> numbers_fit registry logs = true.
Proof.
  unfold tool_errors, numbers_fit. rewrite map_result_returns.
  rewrite forallb_forall, Forall_forall. split.
  - intros H tm Hin. apply (error_of_match_returns logs tm.1).
    apply H. by apply list_elem_of_In.
  - intros H tm Hin. apply error_of_match_returns, H.
    by apply list_elem_of_In.
Qed.

Lemma tool_errors_raises registry logs e :
  tool_errors registry logs = Raise e -> is_value_error e.
Proof.
  intros (tm & _ & H)%map_result_raises. by eapply error_of_match_raises.
Qed.

Lemma parse_error_logs_returns logs :
  (exists r, parse_error_logs logs = Ok r) <-> numbers_fit PATTERNS logs = true.
Proof.
  rewrite parse_error_logs_spec, <- tool_errors_returns. split.
  - intros [r H]. destruct (tool_errors PATTERNS logs); [by eexists|done].
  - intros [errs ->]. by eexists.
Qed.

Lemma parse_error_logs_raises logs e :
  parse_error_logs logs = Raise e -> is_value_error e.
Proof.
  rewrite parse_error_logs_spec.
  destruct (tool_errors PATTERNS logs) eqn:E; simpl; [done|].
  intros [= <-]. by eapply tool_errors_raises.
Qed.

Lemma parse_error_logs_tools logs r :
  parse_error_logs logs = Ok r ->
  matching_tools PATTERNS logs <> [] ->
  Forall2 (error_for logs) (registry_matches PATTERNS logs) (errors r)
  /\ errors r <> []
  /\ error_type r = List.last (matching_tools PATTERNS logs) "unknown".
Proof.
  rewrite parse_error_logs_spec.
  destruct (tool_errors PATTERNS logs) as [errs|e] eqn:E; simpl; [|done].
  intros [= <-] Hm.
  pose proof (tool_errors_nil _ _ _ E) as Hn.
  apply tool_errors_matches in E.
  destruct errs as [|e errs]; [by destruct Hm; apply Hn|]. done.
Qed.

Lemma parse_error_logs_generic logs :
  matching_tools PATTERNS logs = [] ->
  parse_error_logs logs
  = Ok (MkParsedErrors (_extract_generic_errors logs) logs "unknown").
Proof.
  intros H. rewrite parse_error_logs_spec.
  by rewrite (no_match_no_tool_error _ _ H).
Qed.

(** *** Matches come in text order *)

Lemma greedy_continues {R} p rest cur (k : cursor -> option R) x :
  greedy p rest cur k = Some x -> exists cur', k cur' = Some x.
Proof.
  revert cur. induction rest as [|c rest IH]; intros cur; simpl; [by eauto|].
  destruct (p c); [|by eauto].
  destruct (greedy p rest _ k) eqn:E; [|by eauto].
  intros [= <-]. by apply IH in E.
Qed.

Lemma lazy_star_continues {R} p rest cur (k : cursor -> option R) x :
  lazy_star p rest cur k = Some x -> exists cur', k cur' = Some x.
Proof.
  revert cur. induction rest as [|c rest IH]; intros cur; simpl.
  - destruct (k cur) eqn:E; [|done]. intros [= <-]. eauto.
  - destruct (k cur) eqn:E; [intros [= <-]; eauto|].
    destruct (p c); [|done]. apply IH.
Qed.

Lemma run_continues {R} icase r : forall cur (k : cursor -> option R) x,
  run icase r cur k = Some x -> exists cur', k cur' = Some x.
Proof.
  induction r as [|l|p| | |r1 IH1 r2 IH2|r1 IH1 r2 IH2|p|p|name r IH];
    intros cur k x; simpl.
  - eauto.
  - destruct (c_rest cur); [done|]. destruct (lit_matches _ _ _); [eauto|done].
  - destruct (c_rest cur); [done|]. destruct (p _); [eauto|done].
  - destruct (at_bol cur); [eauto|done].
  - destruct (at_eol cur); [eauto|done].
  - intros H. apply IH1 in H as [cur' H]. by apply IH2 in H.
  - destruct (run icase r1 cur k) eqn:E.
    + intros [= <-]. by apply IH1 in E.
    + apply IH2.
  - apply greedy_continues.
  - apply lazy_star_continues.
  - intros H. apply IH in H as [cur' H]. eauto.
Qed.

Lemma match_at_start pat prev rest pos m :
  match_at pat prev rest pos = Some m -> m_start m = Z.of_nat pos.
Proof.
  unfold match_at. intros H. apply run_continues in H as [cur' [= <-]]. done.
Qed.

Lemma scan_in_text_order pat rest : forall prev pos skip,
  Forall (fun m => Z.of_nat pos <= m_start m) (scan pat prev rest pos skip)
  /\ StronglySorted starts_before (scan pat prev rest pos skip).
Proof.
  induction rest as [|c rest IH]; intros prev pos skip; simpl.
  - destruct skip; [|split; constructor].
    destruct (match_at pat prev "" pos) eqn:E; [|split; constructor].
    apply match_at_start in E.
    split; repeat constructor. lia.
  - destruct (IH (Some c) (S pos) (skip - 1)%nat) as [Hge Hs].
    destruct skip as [|skip]; [|].
    + destruct (match_at pat prev (String c rest) pos) eqn:E.
      * apply match_at_start in E.
        destruct (IH (Some c) (S pos) (match_len m - 1)%nat) as [Hge' Hs'].
        split.
        -- constructor; [lia|]. eapply Forall_impl; [exact Hge'|]. simpl. lia.
        -- constructor; [done|]. eapply Forall_impl; [exact Hge'|].
           unfold starts_before. simpl. lia.
      * split; [|done]. eapply Forall_impl; [exact Hge|]. simpl. lia.
    + split; [|done]. eapply Forall_impl; [exact Hge|]. simpl. lia.
Qed.

Lemma finditer_in_text_order pat logs :
  StronglySorted starts_before (finditer pat logs).
Proof. apply scan_in_text_order. Qed.

(** *** The generic fallback pass *)

Lemma fold_generic logs pats acc :
  fold_left
    (fun errors pat =>
       fold_left (fun errors m => errors ++ [generic_error m])
                 (finditer pat logs) errors) pats acc =
  acc ++ map generic_error (tool_matches logs pats).
Proof.
  revert acc. induction pats as [|p pats IH]; intros acc; simpl.
  - by rewrite app_nil_r.
  - rewrite IH. unfold tool_matches. simpl. rewrite map_app, app_assoc. f_equal.
    generalize (finditer p logs). intros ms. revert acc.
    induction ms as [|m ms IHm]; intros acc; simpl; [by rewrite app_nil_r|].
    rewrite IHm, <- app_assoc. done.
Qed.

Lemma extract_generic_errors_spec logs :
  _extract_generic_errors logs = take 10 (map generic_error (generic_matches logs)).
Proof. unfold _extract_generic_errors. by rewrite fold_generic. Qed.

Lemma tool_names_known : ~ In "unknown" (map fst PATTERNS).
Proof. simpl. intros H. repeat destruct H as [H|H]; try discriminate H. done. Qed.

(** *** The overall error type *)

(** C1 (as the code has it).  Whenever [parse_error_logs] returns, the
    overall [error_type] of the value it returns is "unknown" exactly when
    no tool-specific pattern matched; in particular an empty [errors] list
    comes with [error_type] "unknown".  The converse is not claimed: the
    generic fallback pass fills [errors] and leaves the type alone.  The
    function returns unless a line or column number matched by a registry
    pattern is longer than the 4300 digits [int] accepts; it then raises
    [ValueError] and there is no value. *)
Theorem error_type_unknown_iff_no_tool_matched (logs : string) :
  (forall r, parse_error_logs logs = Ok r ->
     (error_type r = "unknown" <-> matching_tools PATTERNS logs = [])
     /\ (errors r = [] -> error_type r = "unknown"))
  /\ ((exists r, parse_error_logs logs = Ok r)
      <-> numbers_fit PATTERNS logs = true)
  /\ (forall e, parse_error_logs logs = Raise e -> is_value_error e).
Proof.
  split; [|split; [apply parse_error_logs_returns|apply parse_error_logs_raises]].
  intros r Hr.
  destruct (matching_tools PATTERNS logs) as [|t ts] eqn:M.
  - rewrite (parse_error_logs_generic _ M) in Hr. by injection Hr as <-.
  - destruct (parse_error_logs_tools logs r Hr) as (_ & Hne & Ht);
      [by rewrite M|].
    split; [|done]. split; [|done]. intros Hu. exfalso.
    apply tool_names_known. apply (matching_tools_in PATTERNS logs).
    rewrite M. rewrite M, Hu in Ht. rewrite Ht. apply last_in.
Qed.

Lemma error_type_unknown_iff_no_tool_matched_witness :
  matching_tools PATTERNS generic_only_log = []
  /\ exists r, parse_error_logs generic_only_log = Ok r
               /\ error_type r = "unknown".
Proof.
  assert (H : matching_tools PATTERNS generic_only_log = [])
    by (vm_compute; reflexivity).
  split; [exact H|].
  destruct (parse_error_logs generic_only_log) as [r|e] eqn:E.
  - exists r. split; [reflexivity|].
    exact (proj2 (proj1 (proj1
             (error_type_unknown_iff_no_tool_matched generic_only_log) r E)) H).
  - exfalso. vm_compute in E. discriminate E.
Defined.

(** C1 (as stated) fails: a log with a generic indicator only has a
    non-empty [errors] list and the overall type "unknown". *)
Lemma unknown_type_with_errors :
  exists r, parse_error_logs generic_only_log = Ok r
            /\ ~ (error_type r = "unknown" <-> errors r = []).
Proof.
  eexists. split; [vm_compute; reflexivity|].
  intros [H _]. specialize (H eq_refl). discriminate H.
Qed.

(** On a pyright line whose line number has 4301 digits the conversion
    raises, and the parser with it. *)
Lemma overlong_number_raises :
  parse_error_logs overlong_number_log
  = Raise (ValueError
             ("Exceeds the limit (4300 digits) for integer string conversion: "
              +:+ "value has 4301 digits; use "
              +:+ "sys.set_int_max_str_digits() to increase the limit")).
Proof. vm_compute. reflexivity. Qed.

(** C5.  When the tools with a match in the text are, in registry order,
    [earlier] followed by [t], the overall [error_type] of the value
    [parse_error_logs] returns is [t]: the last matching tool of the
    registry wins, wherever the matches stand in the text.  The value is
    returned whenever the matched line and column numbers fit [int]. *)
Theorem last_matching_tool_wins (logs : string) (earlier : list string) (t : string) :
  matching_tools PATTERNS logs = earlier ++ [t] ->
  (forall r, parse_error_logs logs = Ok r -> error_type r = t)
  /\ (numbers_fit PATTERNS logs = true ->
      exists r, parse_error_logs logs = Ok r /\ error_type r = t).
Proof.
  intros M.
  assert (H : forall r, parse_error_logs logs = Ok r -> error_type r = t).
  { intros r Hr.
    destruct (parse_error_logs_tools logs r Hr) as (_ & _ & Ht).
    { rewrite M. by destruct earlier. }
    rewrite Ht, M. apply last_snoc. }
  split; [exact H|].
  intros [r Hr]%parse_error_logs_returns. exists r. split; [done|by apply H].
Qed.

Lemma last_matching_tool_wins_witness :
  matching_tools PATTERNS jest_then_pyright_log = ["pyright"] ++ ["jest"]
  /\ exists r, parse_error_logs jest_then_pyright_log = Ok r
               /\ map pe_error_type (errors r) = ["pyright"; "jest"]
               /\ error_type r = "jest".
Proof.
  assert (H : matching_tools PATTERNS jest_then_pyright_log = ["pyright"] ++ ["jest"])
    by (vm_compute; reflexivity).
  split; [exact H|].
  destruct (parse_error_logs jest_then_pyright_log) as [r|e] eqn:E.
  - exists r. split; [reflexivity|]. split.
    + vm_compute in E. injection E as <-. reflexivity.
    + exact (proj1 (last_matching_tool_wins jest_then_pyright_log ["pyright"]
                      "jest" H) r E).
  - exfalso. vm_compute in E. discriminate E.
Defined.

(** C4 (as the code has it).  When no tool-specific pattern matches,
    [parse_error_logs] returns, and the errors are the first 10 of the
    generic matches taken indicator by indicator in the order of the
    indicator list, each indicator's matches in text order; there are
    min(10, number of matches) of them, all typed "generic" and without
    location. *)
Theorem generic_fallback_first_ten (logs : string) :
  matching_tools PATTERNS logs = [] ->
  exists r,
    parse_error_logs logs = Ok r
    /\ errors r = take 10 (map generic_error (generic_matches logs))
    /\ length (errors r) = Nat.min 10 (length (generic_matches logs))
    /\ Forall is_generic (errors r)
    /\ Forall (fun pat => StronglySorted starts_before (finditer pat logs))
              error_indicators.
Proof.
  intros M. eexists. split; [by apply parse_error_logs_generic|]. simpl.
  rewrite extract_generic_errors_spec.
  split; [done|]. split.
  { rewrite length_take, length_map. done. }
  split.
  { apply Forall_take, Forall_map, Forall_forall. intros m _. by repeat split. }
  apply Forall_forall. intros pat _. apply finditer_in_text_order.
Qed.

Lemma generic_fallback_first_ten_witness :
  matching_tools PATTERNS fifteen_indicator_log = []
  /\ length (generic_matches fifteen_indicator_log) = 15%nat
  /\ exists r, parse_error_logs fifteen_indicator_log = Ok r
               /\ length (errors r) = 10%nat.
Proof.
  assert (H : matching_tools PATTERNS fifteen_indicator_log = [])
    by (vm_compute; reflexivity).
  assert (L : length (generic_matches fifteen_indicator_log) = 15%nat)
    by (vm_compute; reflexivity).
  split; [exact H|]. split; [exact L|].
  destruct (generic_fallback_first_ten fifteen_indicator_log H)
    as (r & Hr & _ & Hlen & _).
  exists r. split; [exact Hr|]. rewrite Hlen, L. reflexivity.
Defined.

(** C4 (as stated) fails: with an [Error:] line before an [error[...]:] line
    the fallback returns the later line first, where text order puts the
    earlier line first. *)
Lemma fallback_not_in_text_order :
  matching_tools PATTERNS two_indicator_log = []
  /\ exists r,
       parse_error_logs two_indicator_log = Ok r
       /\ map pe_message (errors r)
          = ["second in the text"; "first in the text"]
       /\ map pe_message (generic_errors_in_text_order two_indicator_log)
          = ["first in the text"; "second in the text"]
       /\ errors r <> generic_errors_in_text_order two_indicator_log.
Proof.
  split; [vm_compute; reflexivity|].
  eexists. split; [vm_compute; reflexivity|].
  split; [vm_compute; reflexivity|].
  split; [vm_compute; reflexivity|].
  intros H. apply (f_equal (map pe_message)) in H.
  vm_compute in H. discriminate H.
Qed.

End ParserFacts.

(** ** The reply decoder and the oracle adapter *)

Module ClaudeFacts.
Import Py Claude Notions Samples.

(** *** Extraction *)

Lemma json_match_selected text : json_match text = Ok (selected_strategy text).
Proof.
  unfold json_match, selected_strategy, tagged_block, any_block, widest_braces.
  destruct (contains "```json" text).
  { by destruct (_ >? _). }
  destruct (contains "```" text).
  { by destruct (_ >? _). }
  unfold index, rindex, bind.
  destruct (find text "{" 0 <? 0); [done|].
  destruct (rfind text "}" <? 0); done.
Qed.

Lemma chain_agrees_with_selected text t :
  yielded (selected_strategy text) = Some t -> extraction_chain text = Some t.
Proof.
  unfold selected_strategy, extraction_chain.
  destruct (contains "```json" text) eqn:Ha.
  { by intros ->. }
  assert (Hta : tagged_block text = None) by (unfold tagged_block; by rewrite Ha).
  rewrite Hta. simpl.
  destruct (contains "```" text) eqn:Hb.
  { by intros ->. }
  assert (Htb : any_block text = None) by (unfold any_block; by rewrite Hb).
  by rewrite Htb.
Qed.

Section WithDecoder.
Variable json_loads : string -> loads.

Lemma parse_nothing_yielded text source_files :
  yielded (selected_strategy text) = None ->
  _parse_claude_response json_loads text source_files
  = Ok (negative_result "Failed to parse Claude response").
Proof.
  intros Hy. unfold _parse_claude_response.
  rewrite json_match_selected. simpl.
  destruct (selected_strategy text) as [t|]; [|done].
  simpl in Hy. by destruct (nonempty t).
Qed.

Lemma parse_not_json text source_files t e :
  yielded (selected_strategy text) = Some t ->
  json_loads t = NotJSON e ->
  _parse_claude_response json_loads text source_files
  = Ok (negative_result ("JSON parse error: " +:+ e)).
Proof.
  intros Hy He. unfold _parse_claude_response.
  rewrite json_match_selected. simpl.
  destruct (selected_strategy text) as [t'|]; [|done].
  simpl in Hy. destruct (nonempty t'); [|done].
  injection Hy as ->. by rewrite He.
Qed.

Lemma parse_loads_raises text source_files t e :
  yielded (selected_strategy text) = Some t ->
  loads_raises (json_loads t) e ->
  _parse_claude_response json_loads text source_files = Raise e.
Proof.
  intros Hy He. unfold _parse_claude_response.
  rewrite json_match_selected. simpl.
  destruct (selected_strategy text) as [t'|]; [|done].
  simpl in Hy. destruct (nonempty t'); [|done].
  injection Hy as ->.
  destruct (json_loads t); simpl in He; try done; by subst e.
Qed.

(** *** The change list *)

Lemma build_changes_well_shaped source_files items : forall acc,
  Forall well_shaped_change items ->
  build_changes source_files items acc
  = Ok (acc ++ map (change_of source_files) (List.filter fully_populated items)).
Proof.
  induction items as [|entry items IH]; intros acc Hw; simpl.
  - by rewrite app_nil_r.
  - apply Forall_cons in Hw as [He Hw].
    destruct entry as [| | | | | |e]; try done.
    destruct He as [Hp Hn]. unfold fully_populated, change_of. simpl.
    destruct (e !! "file_path") as [[| | | |p| |]|] eqn:Ep; try done;
      destruct (e !! "new_content") as [[| | | |n| |]|] eqn:En; try done;
      simpl; try (by apply IH);
      try (rewrite andb_false_r; by apply IH).
    destruct (nonempty p && nonempty n) eqn:B; simpl.
    + rewrite IH by done. rewrite <- app_assoc. simpl. by rewrite Ep, En.
    + by apply IH.
Qed.

Lemma parse_decoded text source_files d :
  decodes_to json_loads text (VDict d) ->
  well_shaped_reply d ->
  _parse_claude_response json_loads text source_files
  = Ok (MkFixResult
          (default (VBool false) (d !! "can_fix"))
          (default (VStr "") (d !! "description"))
          (map (change_of source_files) (List.filter fully_populated (proposed d)))
          (default (VFloat 0%float) (d !! "confidence"))
          (default (VStr "") (d !! "analysis"))).
Proof.
  intros (t & Hm & Hne & Hl) Hw. unfold _parse_claude_response.
  rewrite Hm. simpl. rewrite Hne, Hl. simpl.
  unfold well_shaped_reply in Hw. unfold proposed.
  destruct (d !! "changes") as [[| | | | |cs|]|]; try done; simpl.
  - by rewrite build_changes_well_shaped.
Qed.

Lemma parse_decoded_gate text source_files d r :
  decodes_to json_loads text (VDict d) ->
  _parse_claude_response json_loads text source_files = Ok r ->
  can_fix r = default (VBool false) (d !! "can_fix").
Proof.
  intros (t & Hm & Hne & Hl). unfold _parse_claude_response.
  rewrite Hm. simpl. rewrite Hne, Hl. simpl.
  destruct (iterate _); simpl; [|done].
  destruct (build_changes _ _ _); simpl; [|done].
  by intros [= <-].
Qed.

(** *** What the decoder can raise *)

Lemma build_changes_raises source_files items : forall acc e,
  build_changes source_files items acc = Raise e -> shape_error e.
Proof.
  induction items as [|entry items IH]; intros acc e; simpl; [done|].
  destruct entry as [| | | | | |d]; simpl; try (intros [= <-]; by left).
  destruct (truthy _ && truthy _).
  - destruct (default (VStr "") (d !! "file_path")); simpl;
      try apply IH; intros [= <-]; by right.
  - apply IH.
Qed.

Lemma parse_raises text source_files e :
  _parse_claude_response json_loads text source_files = Raise e ->
  shape_error e
  \/ exists t, yielded (selected_strategy text) = Some t
                /\ loads_raises (json_loads t) e.
Proof.
  unfold _parse_claude_response. rewrite json_match_selected. simpl.
  destruct (selected_strategy text) as [t|]; [|done]. simpl.
  destruct (nonempty t); [|done].
  destruct (json_loads t) as [data|msg|msg|msg] eqn:El; [|done| |].
  2,3: intros [= <-]; right; exists t; by rewrite El.
  intros H. left. revert H.
  destruct data as [| | | | | |d]; simpl; try (intros [= <-]; by left).
  destruct (default (VList []) (d !! "changes")) as [| | | |s|l|d']; simpl;
    try (intros [= <-]; by right).
  - destruct (build_changes _ _ _) eqn:B; simpl; [done|].
    intros [= <-]. by apply build_changes_raises in B.
  - destruct (build_changes _ _ _) eqn:B; simpl; [done|].
    intros [= <-]. by apply build_changes_raises in B.
  - destruct (build_changes _ _ _) eqn:B; simpl; [done|].
    intros [= <-]. by apply build_changes_raises in B.
Qed.

Lemma parse_never_api_error text source_files detail :
  _parse_claude_response json_loads text source_files
  <> Raise (APIError detail).
Proof.
  intros H. apply parse_raises in H as [[H|H]|(t & _ & H)]; try done.
  by destruct (json_loads t).
Qed.

(** C2 (as the code has it).  [_parse_claude_response] attempts one
    extraction strategy, selected by the first marker the reply contains:
    the tagged block when the json fence occurs, else any fenced block when a
    fence occurs, else the widest brace-bounded text.  When that strategy
    yields no non-empty candidate, or [json.loads] rejects the candidate with
    [JSONDecodeError], the result is a FixResult with can_fix false and an
    analysis noting the parse failure, and nothing is raised.  When
    [json.loads] raises anything else on the candidate, [RecursionError] on
    a nesting too deep or [ValueError] on a number too long, the exception
    leaves the function.  Whenever the selected strategy yields a candidate,
    it is the one the ordered chain yields. *)
Theorem extraction_by_first_marker (text : string)
    (source_files : gmap string string) :
  json_match text = Ok (selected_strategy text)
  /\ (yielded (selected_strategy text) = None ->
      _parse_claude_response json_loads text source_files
      = Ok (negative_result "Failed to parse Claude response"))
  /\ (forall t e,
        yielded (selected_strategy text) = Some t ->
        json_loads t = NotJSON e ->
        _parse_claude_response json_loads text source_files
        = Ok (negative_result ("JSON parse error: " +:+ e)))
  /\ (forall t detail,
        yielded (selected_strategy text) = Some t ->
        (json_loads t = TooDeep detail ->
         _parse_claude_response json_loads text source_files
         = Raise (RecursionError detail))
        /\ (json_loads t = NumberTooLong detail ->
            _parse_claude_response json_loads text source_files
            = Raise (ValueError detail)))
  /\ (forall t,
        yielded (selected_strategy text) = Some t ->
        extraction_chain text = Some t).
Proof.
  split; [apply json_match_selected|].
  split; [apply parse_nothing_yielded|].
  split; [intros t e; apply parse_not_json|].
  split.
  { intros t detail Hy.
    split; intros Hl; apply (parse_loads_raises _ _ t); try done;
      by rewrite Hl. }
  intros t. apply chain_agrees_with_selected.
Qed.

(** C3 (as the code has it).  An [anthropic.APIError] raised by the one
    service invocation is turned into a FixResult with can_fix false and the
    non-empty analysis "API error: <detail>"; nothing is propagated.  A
    reply whose first content block has text is handed to the decoder, and a
    first content block without text raises [ValueError] to the caller. *)
Theorem api_error_is_converted (source_files : gmap string string)
    (detail : string) :
  (exists r,
     analyze_failure json_loads (Ok source_files) (Raises (APIError detail)) = Ok r
     /\ can_fix r = VBool false
     /\ analysis r = VStr ("API error: " +:+ detail)
     /\ nonempty ("API error: " +:+ detail) = true)
  /\ (forall text rest,
        analyze_failure json_loads (Ok source_files)
          (Responds (TextBlock text :: rest))
        = _parse_claude_response json_loads text source_files)
  /\ (forall rest,
        analyze_failure json_loads (Ok source_files) (Responds (OtherBlock :: rest))
        = Raise (ValueError "Unexpected response format from Claude API")).
Proof.
  split; [by eexists|]. split; [|done].
  intros text rest. unfold analyze_failure. simpl.
  destruct (_parse_claude_response json_loads text source_files) as [r|e] eqn:E;
    [done|].
  destruct e; try done. by apply parse_never_api_error in E.
Qed.

(** C7.  For a reply that decodes to an object whose proposed changes are
    shaped as requested, the FixResult's changes are exactly the proposed
    entries with a non-empty path and non-empty new content, in order, each
    with the original content the resolved source map has for its path, the
    empty text when the path is not in the map. *)
Theorem changes_are_filtered (text : string)
    (source_files : gmap string string) (d : gmap string value) :
  decodes_to json_loads text (VDict d) ->
  well_shaped_reply d ->
  exists r,
    _parse_claude_response json_loads text source_files = Ok r
    /\ changes r
       = map (change_of source_files) (List.filter fully_populated (proposed d))
    /\ Forall (fun c => exists p n,
                  file_path c = VStr p /\ new_content c = VStr n
                  /\ p <> "" /\ n <> ""
                  /\ original_content c = default "" (source_files !! p))
              (changes r).
Proof.
  intros Hd Hw. eexists. split; [by apply parse_decoded|]. simpl.
  split; [done|].
  apply Forall_map, Forall_forall. intros entry Hin.
  apply list_elem_of_In, List.filter_In in Hin as [_ Hf].
  unfold fully_populated in Hf.
  apply andb_true_iff in Hf as [Hp Hn].
  exists (text_field entry "file_path"), (text_field entry "new_content").
  repeat split; try done.
  - intros E. by rewrite E in Hp.
  - intros E. by rewrite E in Hn.
Qed.

(** C9.  For a reply that decodes to an object without the member can_fix,
    no FixResult with another can_fix than false is returned, and when the
    proposed changes are shaped as requested a FixResult is returned, with
    can_fix false. *)
Theorem missing_gate_fails_closed (text : string)
    (source_files : gmap string string) (d : gmap string value) :
  decodes_to json_loads text (VDict d) ->
  d !! "can_fix" = None ->
  (forall r, _parse_claude_response json_loads text source_files = Ok r ->
             can_fix r = VBool false)
  /\ (well_shaped_reply d ->
      exists r, _parse_claude_response json_loads text source_files = Ok r
                /\ can_fix r = VBool false).
Proof.
  intros Hd Hg. split.
  - intros r Hr. rewrite (parse_decoded_gate _ _ _ _ Hd Hr). by rewrite Hg.
  - intros Hw. eexists. split; [by apply parse_decoded|]. simpl. by rewrite Hg.
Qed.

End WithDecoder.

Lemma extraction_by_first_marker_witness :
  yielded (selected_strategy broken_reply) = Some "{oops"
  /\ _parse_claude_response sample_loads broken_reply sample_sources
     = Ok (negative_result
             "JSON parse error: Expecting property name enclosed in double quotes: line 1 column 2 (char 1)").
Proof.
  assert (H : yielded (selected_strategy broken_reply) = Some "{oops")
    by (vm_compute; reflexivity).
  split; [exact H|].
  exact (proj1 (proj2 (proj2
           (extraction_by_first_marker sample_loads broken_reply sample_sources)))
           "{oops" _ H eq_refl).
Defined.

(** C2 (as stated) fails: on a reply whose tagged block is never closed the
    first two strategies yield nothing and the third yields a parseable
    object, yet the code stops after the first and reports a parse failure. *)
Lemma unclosed_block_not_retried :
  yielded (tagged_block unclosed_reply) = None
  /\ yielded (any_block unclosed_reply) = None
  /\ yielded (widest_braces unclosed_reply) = Some declined_json
  /\ extraction_chain unclosed_reply = Some declined_json
  /\ sample_loads declined_json
     = Loaded (VDict (list_to_map [("can_fix", VBool false)]))
  /\ json_match unclosed_reply = Ok None
  /\ _parse_claude_response sample_loads unclosed_reply sample_sources
     = Ok (negative_result "Failed to parse Claude response").
Proof. repeat split; vm_compute; reflexivity. Qed.

Lemma api_error_is_converted_witness :
  exists r,
    analyze_failure sample_loads (Ok sample_sources)
      (Raises (APIError "Connection error.")) = Ok r
    /\ can_fix r = VBool false
    /\ analysis r = VStr "API error: Connection error.".
Proof.
  destruct (proj1 (api_error_is_converted sample_loads sample_sources
                     "Connection error.")) as (r & Hr & Hc & Ha & _).
  exists r. repeat split; assumption.
Defined.

(** C3 (as stated) fails: a reply whose first content block carries no text
    makes [analyze_failure] raise. *)
Lemma unexpected_reply_shape_raises :
  analyze_failure sample_loads (Ok sample_sources) (Responds [OtherBlock])
  = Raise (ValueError "Unexpected response format from Claude API").
Proof. reflexivity. Qed.

Lemma two_changes_decoded :
  decodes_to sample_loads (fenced_json two_changes_json) (VDict two_changes_data).
Proof. exists two_changes_json. repeat split; vm_compute; reflexivity. Defined.

Lemma two_changes_well_shaped : well_shaped_reply two_changes_data.
Proof.
  unfold well_shaped_reply.
  replace (two_changes_data !! "changes") with
    (Some (VList [VDict (list_to_map [("file_path", VStr "src/a.py");
                                      ("new_content", VStr "")]);
                  VDict (list_to_map [("file_path", VStr "src/b.py");
                                      ("new_content", VStr "x = 1")])]))
    by (vm_compute; reflexivity).
  repeat constructor.
Defined.

Lemma changes_are_filtered_witness :
  exists r,
    _parse_claude_response sample_loads (fenced_json two_changes_json)
      sample_sources = Ok r
    /\ changes r = [MkFileChange (VStr "src/b.py") "x = 0" (VStr "x = 1")].
Proof.
  destruct (changes_are_filtered sample_loads (fenced_json two_changes_json)
              sample_sources two_changes_data two_changes_decoded
              two_changes_well_shaped) as (r & Hr & Hc & _).
  exists r. split; [exact Hr|]. rewrite Hc. vm_compute. reflexivity.
Defined.

Lemma no_gate_decoded :
  decodes_to sample_loads (fenced_json no_gate_json) (VDict no_gate_data).
Proof. exists no_gate_json. repeat split; vm_compute; reflexivity. Defined.

Lemma missing_gate_fails_closed_witness :
  exists r,
    _parse_claude_response sample_loads (fenced_json no_gate_json)
      sample_sources = Ok r
    /\ can_fix r = VBool false.
Proof.
  assert (Hg : no_gate_data !! "can_fix" = None) by (vm_compute; reflexivity).
  assert (Hw : well_shaped_reply no_gate_data).
  { unfold well_shaped_reply.
    replace (no_gate_data !! "changes") with (@None value)
      by (vm_compute; reflexivity).
    exact I. }
  exact (proj2 (missing_gate_fails_closed sample_loads (fenced_json no_gate_json)
                  sample_sources no_gate_data no_gate_decoded Hg) Hw).
Defined.

End ClaudeFacts.

(** ** The deduplication cache and the pipeline *)

Module HandlerFacts.
Import Py Parser Claude Handler Notions Samples.

(** *** The sweep *)

Lemma lookup_delete_all (keys : list Z) : forall (m : gmap Z float) (k : Z),
  fold_left (fun runs run_id => delete run_id runs) keys m !! k
  = if decide (k ∈ keys) then None else m !! k.
Proof.
  induction keys as [|key keys IH]; intros m k; simpl; [done|].
  rewrite IH. destruct (decide (k ∈ keys)) as [Hin|Hout].
  - rewrite decide_True; [done|]. by right.
  - destruct (decide (k = key)) as [->|Hne].
    + rewrite lookup_delete_eq. rewrite decide_True; [done|]. by left.
    + rewrite lookup_delete_ne by done. rewrite decide_False; [done|].
      intros [?|?]%elem_of_cons; done.
Qed.

Lemma lookup_cleanup_cache current_time (cache : gmap Z float) (k : Z) :
  _cleanup_cache current_time cache !! k
  = match cache !! k with
    | Some timestamp =>
        if is_expired current_time timestamp then None else Some timestamp
    | None => None
    end.
Proof.
  unfold _cleanup_cache. rewrite lookup_delete_all.
  destruct (decide _) as [Hin|Hout].
  - apply list_elem_of_omap in Hin as ([k' ts] & Hin & Hsome).
    apply elem_of_map_to_list in Hin. simpl in Hsome.
    destruct (is_expired current_time ts) eqn:E; [|done].
    injection Hsome as ->. by rewrite Hin, E.
  - destruct (cache !! k) as [ts|] eqn:Hk; [|done].
    destruct (is_expired current_time ts) eqn:E; [|done].
    exfalso. apply Hout. apply list_elem_of_omap.
    exists (k, ts). split; [by apply elem_of_map_to_list|]. simpl. by rewrite E.
Qed.

Lemma deduplicate_seen key sweep_time record_time (cache : gmap Z float) ts :
  cache !! key = Some ts -> is_expired sweep_time ts = false ->
  deduplicate key sweep_time record_time cache
  = (true, _cleanup_cache sweep_time cache).
Proof.
  intros Hk He. unfold deduplicate.
  by rewrite lookup_cleanup_cache, Hk, He.
Qed.

Lemma deduplicate_new key sweep_time record_time (cache : gmap Z float) :
  (cache !! key = None
   \/ exists ts, cache !! key = Some ts /\ is_expired sweep_time ts = true) ->
  deduplicate key sweep_time record_time cache
  = (false, <[key := record_time]> (_cleanup_cache sweep_time cache)).
Proof.
  intros H. unfold deduplicate. rewrite lookup_cleanup_cache.
  destruct H as [-> | (ts & -> & ->)]; done.
Qed.

(** C6.  The check-and-record step first sweeps the cache: an entry survives
    exactly when it is not older than the TTL.  If the key was recorded and is
    not older than the TTL the step answers true and leaves the swept cache as
    it is, the key still at its old timestamp; otherwise it answers false and
    records the key with the current timestamp.  Key 42 asked at a moment,
    again within the TTL, and again after the TTL has elapsed is answered
    false, true, false. *)
Theorem check_and_record_contract (key : Z) (sweep_time record_time : float)
    (cache : gmap Z float) :
  (forall k,
     _cleanup_cache sweep_time cache !! k
     = match cache !! k with
       | Some timestamp =>
           if is_expired sweep_time timestamp then None else Some timestamp
       | None => None
       end)
  /\ (forall ts,
        cache !! key = Some ts -> is_expired sweep_time ts = false ->
        deduplicate key sweep_time record_time cache
        = (true, _cleanup_cache sweep_time cache)
        /\ _cleanup_cache sweep_time cache !! key = Some ts)
  /\ ((cache !! key = None
       \/ exists ts, cache !! key = Some ts /\ is_expired sweep_time ts = true) ->
      deduplicate key sweep_time record_time cache
      = (false, <[key := record_time]> (_cleanup_cache sweep_time cache)))
  /\ (forall now soon later,
        cache !! 42 = None ->
        is_expired soon now = false ->
        is_expired later now = true ->
        let first := seen_or_record 42 now cache in
        let second := seen_or_record 42 soon first.2 in
        let third := seen_or_record 42 later second.2 in
        (first.1, second.1, third.1) = (false, true, false)
        /\ third.2 !! 42 = Some later).
Proof.
  split; [intros k; apply lookup_cleanup_cache|].
  split.
  { intros ts Hk He. split; [by eapply deduplicate_seen|].
    by rewrite lookup_cleanup_cache, Hk, He. }
  split; [apply deduplicate_new|].
  intros now soon later Hk Hsoon Hlater. simpl.
  unfold seen_or_record.
  rewrite (deduplicate_new 42 now now cache) by by left. simpl.
  rewrite (deduplicate_seen 42 soon soon _ now);
    [|by rewrite lookup_insert_eq|done]. simpl.
  rewrite (deduplicate_new 42 later later).
  - simpl. by rewrite lookup_insert_eq.
  - right. exists now. split; [|done].
    by rewrite lookup_cleanup_cache, lookup_insert_eq, Hsoon.
Qed.

Lemma check_and_record_contract_witness :
  let first := seen_or_record 42 t0 ∅ in
  let second := seen_or_record 42 t0_plus_1s first.2 in
  let third := seen_or_record 42 t0_plus_ttl_1s second.2 in
  (first.1, second.1, third.1) = (false, true, false).
Proof.
  assert (H1 : (∅ : gmap Z float) !! 42 = None) by reflexivity.
  assert (H2 : is_expired t0_plus_1s t0 = false) by (vm_compute; reflexivity).
  assert (H3 : is_expired t0_plus_ttl_1s t0 = true) by (vm_compute; reflexivity).
  exact (proj1 (proj2 (proj2 (proj2
           (check_and_record_contract 42 t0 t0 ∅))) t0 t0_plus_1s t0_plus_ttl_1s
           H1 H2 H3)).
Defined.

(** *** The gate of the pipeline *)

(** C8.  When the pipeline reaches the oracle (the failure notification is
    sent, the logs are fetched, parsed and hold errors, the repository is
    cloned) and the oracle returns a FixResult whose can_fix is false, the
    run makes exactly the calls up to the analysis and the removal of the
    working copy: the Applier is not invoked, no pull request is published,
    no fix notification is sent, and the run leaves through the not-fixable
    exit. *)
Theorem declined_fix_is_not_applied (env : Collaborators) (w : WorkItem)
    (logs repo_path : string) (parsed_errors : ParsedErrors)
    (fix_result : FixResult) :
  send_failure_notification env (repo_full_name w) (head_branch w) (run_id w)
    (html_url w) = Ok tt ->
  fetch_workflow_logs env (repo_full_name w) (run_id w) = Ok logs ->
  parse_error_logs logs = Ok parsed_errors ->
  errors parsed_errors <> [] ->
  clone_repository env (repo_full_name w) (head_branch w) (head_sha w)
    = Ok repo_path ->
  analyze_failure env parsed_errors repo_path = Ok fix_result ->
  truthy (can_fix fix_result) = false ->
  process_workflow_failure env w
  = ([SendFailureNotification (repo_full_name w) (head_branch w) (run_id w)
        (html_url w);
      FetchWorkflowLogs (repo_full_name w) (run_id w);
      CloneRepository (repo_full_name w) (head_branch w) (head_sha w);
      AnalyzeFailure parsed_errors repo_path;
      Rmtree repo_path],
     NOT_FIXABLE)
  /\ existsb is_fix_action (process_workflow_failure env w).1 = false.
Proof.
  intros Hn Hf Hp He Hc Ha Hg.
  assert (E : process_workflow_failure env w
              = ([SendFailureNotification (repo_full_name w) (head_branch w)
                    (run_id w) (html_url w);
                  FetchWorkflowLogs (repo_full_name w) (run_id w);
                  CloneRepository (repo_full_name w) (head_branch w) (head_sha w);
                  AnalyzeFailure parsed_errors repo_path;
                  Rmtree repo_path], NOT_FIXABLE)).
  { unfold process_workflow_failure, call, local, ebind. rewrite Hn, Hf, Hp.
    destruct (errors parsed_errors) as [|e errs] eqn:Eerrs; [done|].
    rewrite Hc. unfold finally_rmtree. rewrite Ha, Hg. reflexivity. }
  split; [exact E|]. rewrite E. reflexivity.
Qed.

Lemma declined_fix_is_not_applied_witness :
  exists parsed_errors,
    parse_error_logs pyright_log = Ok parsed_errors
    /\ process_workflow_failure declining_env sample_item
       = ([SendFailureNotification "owner/repo" "main" 12345
             "https://github.com/owner/repo/actions/runs/12345";
           FetchWorkflowLogs "owner/repo" 12345;
           CloneRepository "owner/repo" "main" "abc123";
           AnalyzeFailure parsed_errors sample_checkout;
           Rmtree sample_checkout],
          NOT_FIXABLE).
Proof.
  destruct (parse_error_logs pyright_log) as [parsed_errors|e] eqn:Hp.
  - exists parsed_errors. split; [reflexivity|].
    refine (proj1 (declined_fix_is_not_applied declining_env sample_item
                     pyright_log sample_checkout parsed_errors
                     (negative_result "not feasible")
                     eq_refl eq_refl Hp _ eq_refl eq_refl eq_refl)).
    vm_compute in Hp. injection Hp as <-. discriminate.
  - exfalso. vm_compute in Hp. discriminate Hp.
Defined.

End HandlerFacts.

(** ** The signature validator *)

Module ValidatorFacts.
Import Py Validator Samples.

Lemma all_ascii_app a b : all_ascii (a +:+ b) = all_ascii a && all_ascii b.
Proof.
  unfold all_ascii. induction a as [|c a IH]; simpl; [done|].
  rewrite IH. by rewrite andb_assoc.
Qed.

Lemma hex_digit_ascii n : (n < 16)%N -> is_ascii (hex_digit n) = true.
Proof.
  intros H. unfold hex_digit, is_ascii.
  destruct (n <? 10)%N eqn:E.
  - apply N.ltb_lt in E. rewrite N_ascii_embedding by lia. apply N.ltb_lt. lia.
  - rewrite N_ascii_embedding by lia. apply N.ltb_lt. lia.
Qed.

Lemma hex_ascii bs : all_ascii (hex bs) = true.
Proof.
  unfold all_ascii. induction bs as [|b bs IH]; simpl; [done|].
  pose proof (Byte.to_N_bounded b) as Hb.
  rewrite !hex_digit_ascii; [exact IH| |].
  - apply N.mod_lt. lia.
  - apply N.Div0.div_lt_upper_bound. lia.
Qed.

Lemma startswith_app p s : startswith p (p +:+ s) = true.
Proof. induction p as [|c p IH]; simpl; [done|]. by rewrite Ascii.eqb_refl. Qed.

Lemma expected_signature_ascii payload secret :
  all_ascii (expected_signature payload secret) = true.
Proof.
  unfold expected_signature. rewrite all_ascii_app, hex_ascii. reflexivity.
Qed.

(** C10.  [validate_github_signature] returns false, raising nothing, when the
    signature is absent or does not start with the prefix sha256=, and it
    returns true exactly when the signature is that prefix followed by the
    hexadecimal HMAC-SHA256 digest of the payload under the secret. *)
Theorem signature_validation (payload : list Byte.byte)
    (signature : option string) (secret : string) :
  ((signature = None
    \/ exists s, signature = Some s /\ startswith "sha256=" s = false) ->
   validate_github_signature payload signature secret = Ok false)
  /\ (validate_github_signature payload signature secret = Ok true
      <-> signature
          = Some ("sha256=" +:+ hex (Hashlib.hmac_sha256 (encode_utf8 secret) payload))).
Proof.
  split.
  - intros [-> | (s & -> & Hs)]; [done|].
    unfold validate_github_signature. rewrite Hs. by destruct (nonempty s).
  - unfold validate_github_signature. split.
    + destruct signature as [s|]; [|done].
      destruct (nonempty s); [|done].
      destruct (startswith "sha256=" s); [|done].
      cbn [negb]. unfold compare_digest.
      destruct (_ && _); [|done].
      destruct (String.eqb _ s) eqn:E; [|discriminate].
      intros _. apply String.eqb_eq in E. by rewrite <- E.
    + intros ->. fold (expected_signature payload secret).
      assert (Hp : startswith "sha256=" (expected_signature payload secret) = true)
        by apply startswith_app.
      rewrite Hp. cbn [negb nonempty expected_signature String.append].
      fold (expected_signature payload secret).
      unfold compare_digest.
      rewrite expected_signature_ascii, String.eqb_refl. reflexivity.
Qed.

Lemma signature_validation_witness :
  validate_github_signature test_payload (Some test_signature) test_secret
  = Ok true
  /\ validate_github_signature test_payload None test_secret = Ok false
  /\ validate_github_signature test_payload (Some "sha1=866b3ab1") test_secret
     = Ok false.
Proof.
  pose proof (signature_validation test_payload (Some test_signature) test_secret)
    as [_ Hvalid].
  split.
  { apply Hvalid. vm_compute. reflexivity. }
  split.
  - apply (proj1 (signature_validation test_payload None test_secret)).
    by left.
  - apply (proj1 (signature_validation test_payload (Some "sha1=866b3ab1")
                    test_secret)).
    right. eexists. split; reflexivity.
Defined.

End ValidatorFacts.

(** * Further properties *)

(** ** Texts and their lengths *)

Module TextFacts.
Import Py PyMore.

Lemma length_app_str (a b : string) :
  String.length (a +:+ b) = (String.length a + String.length b)%nat.
Proof. induction a as [|c a IH]; simpl; [done|]. by rewrite IH. Qed.

Lemma length_take_str (n : nat) (s : string) :
  String.length (take_str n s) = Nat.min n (String.length s).
Proof.
  revert s. induction n as [|n IH]; intros [|c s]; simpl; try done.
  by rewrite IH.
Qed.

Lemma length_drop_str (n : nat) (s : string) :
  String.length (drop_str n s) = (String.length s - n)%nat.
Proof.
  revert s. induction n as [|n IH]; intros [|c s]; simpl; try done; lia.
Qed.

Lemma app_cons_str (c : ascii) (a b : string) :
  String c a +:+ b = String c (a +:+ b).
Proof. reflexivity. Qed.

Lemma take_drop_str (n : nat) (s : string) : take_str n s +:+ drop_str n s = s.
Proof.
  revert s. induction n as [|n IH]; intros [|c s]; simpl; try done.
  by rewrite app_cons_str, IH.
Qed.

Lemma take_str_all (n : nat) (s : string) :
  (String.length s <= n)%nat -> take_str n s = s.
Proof.
  revert s. induction n as [|n IH]; intros [|c s]; simpl; try done; try lia.
  intros H. rewrite IH; [done|lia].
Qed.

Lemma len_app (a b : string) : len (a +:+ b) = len a + len b.
Proof. unfold len. rewrite length_app_str. lia. Qed.

Lemma len_nonneg (s : string) : 0 <= len s.
Proof. unfold len. lia. Qed.

(** [s[-n:]] for [0 < n < len(s)] is what is left after dropping the first
    [len(s) - n] characters. *)
Lemma slice_tail (s : string) (n : Z) :
  0 < n < len s ->
  slice s (- n) (len s) = drop_str (Z.to_nat (len s - n)) s.
Proof.
  intros H. unfold slice, clip.
  destruct (- n <? 0) eqn:E1; [|lia].
  destruct (len s <? 0) eqn:E2; [lia|].
  rewrite Z.max_r by lia. rewrite Z.min_id.
  replace (- n + len s) with (len s - n) by lia.
  apply take_str_all. rewrite length_drop_str. unfold len in *. lia.
Qed.

Lemma drop_str_all (n : nat) (s : string) :
  (String.length s <= n)%nat -> drop_str n s = "".
Proof.
  revert s. induction n as [|n IH]; intros [|c s]; simpl; try done; try lia.
  intros H. apply IH. lia.
Qed.

(** [s[a:]] for [0 <= a]. *)
Lemma slice_from (s : string) (a : Z) :
  0 <= a -> slice s a (len s) = drop_str (Z.to_nat a) s.
Proof.
  intros H. pose proof (len_nonneg s) as Hs. unfold slice, clip.
  replace (a <? 0) with false by (symmetry; apply Z.ltb_ge; lia).
  replace (len s <? 0) with false by (symmetry; apply Z.ltb_ge; lia).
  rewrite Z.min_id.
  rewrite take_str_all by (rewrite length_drop_str; unfold len in *; lia).
  destruct (Z.min_spec a (len s)) as [[? ->]|[? ->]]; [done|].
  rewrite !drop_str_all; unfold len in *; [done|lia|lia].
Qed.

(** [s[:n]] for [0 <= n]. *)
Lemma slice_to_take (s : string) (n : Z) :
  0 <= n -> slice_to s n = take_str (Z.to_nat n) s.
Proof.
  intros H. pose proof (len_nonneg s) as Hs.
  unfold slice_to, slice, clip.
  replace (0 <? 0) with false by reflexivity.
  replace (n <? 0) with false by (symmetry; apply Z.ltb_ge; lia).
  rewrite (Z.min_l 0 (len s)) by lia. rewrite Z.sub_0_r.
  change (drop_str (Z.to_nat 0) s) with s.
  destruct (Z.min_spec n (len s)) as [[? ->]|[? ->]]; [done|].
  rewrite !take_str_all; unfold len in *; [done|lia|lia].
Qed.

End TextFacts.

(** ** The log fetcher *)

Module LogsFacts.
Import Py PyMore Logs TextFacts Samples.

(** X11.  [fetch_workflow_logs] raises RuntimeError with the error stream
    when the process fails.  Otherwise an output of at most max_log_size
    characters comes back unchanged, and a longer one comes back as a notice
    followed by the output from index -max_log_size on; the notice counts
    the length of the output minus max_log_size.  For a positive
    max_log_size that is the last max_log_size characters of the output,
    the notice counting the dropped ones.  For a max_log_size of zero or
    less, which the settings accept, nothing is cut to size: the notice is
    followed by the whole output for zero, and by the output without its
    first -max_log_size characters for a negative size. *)
Theorem fetched_logs_keep_the_tail (max_log_size returncode : Z)
    (stdout stderr : string) :
  (returncode <> 0 ->
   fetch_workflow_logs max_log_size returncode stdout stderr
   = Raise (RuntimeError ("Failed to fetch workflow logs: " +:+ stderr)))
  /\ (returncode = 0 -> len stdout <= max_log_size ->
      fetch_workflow_logs max_log_size returncode stdout stderr = Ok stdout)
  /\ (returncode = 0 -> 0 < max_log_size < len stdout ->
      exists dropped kept,
        stdout = dropped +:+ kept
        /\ len kept = max_log_size
        /\ fetch_workflow_logs max_log_size returncode stdout stderr
           = Ok ("[... truncated " +:+ str_int (len dropped)
                 +:+ " characters ...]" +:+ LF +:+ kept))
  /\ (returncode = 0 -> max_log_size <= 0 -> max_log_size < len stdout ->
      fetch_workflow_logs max_log_size returncode stdout stderr
      = Ok ("[... truncated " +:+ str_int (len stdout - max_log_size)
            +:+ " characters ...]" +:+ LF
            +:+ drop_str (Z.to_nat (- max_log_size)) stdout)).
Proof.
  unfold fetch_workflow_logs. repeat split.
  - intros H. apply Z.eqb_neq in H. by rewrite H.
  - intros -> H. simpl. destruct (len stdout >? max_log_size) eqn:E; [lia|done].
  - intros -> H. simpl. destruct (len stdout >? max_log_size) eqn:E; [|lia].
    exists (take_str (Z.to_nat (len stdout - max_log_size)) stdout),
           (drop_str (Z.to_nat (len stdout - max_log_size)) stdout).
    split; [by rewrite take_drop_str|].
    assert (Hk : len (drop_str (Z.to_nat (len stdout - max_log_size)) stdout)
                 = max_log_size).
    { unfold len in *. rewrite length_drop_str. lia. }
    split; [exact Hk|].
    rewrite slice_tail by done.
    assert (Hd : len (take_str (Z.to_nat (len stdout - max_log_size)) stdout)
                 = len stdout - max_log_size).
    { unfold len in *. rewrite length_take_str. lia. }
    by rewrite Hd.
  - intros -> H0 H. simpl. destruct (len stdout >? max_log_size) eqn:E; [|lia].
    by rewrite slice_from by lia.
Qed.

Lemma fetched_logs_keep_the_tail_witness :
  fetch_workflow_logs 5 0 "0123456789" ""
  = Ok ("[... truncated 5 characters ...]" +:+ LF +:+ "56789")
  /\ fetch_workflow_logs 0 0 "0123456789" ""
     = Ok ("[... truncated 10 characters ...]" +:+ LF +:+ "0123456789").
Proof.
  split.
  - destruct (proj1 (proj2 (proj2
                (fetched_logs_keep_the_tail 5 0 "0123456789" ""))) eq_refl)
      as (dropped & kept & Hs & Hk & ->).
    { vm_compute. split; reflexivity. }
    assert (Hd : len dropped = 5).
    { apply (f_equal len) in Hs. rewrite len_app, Hk in Hs.
      change (len "0123456789") with 10 in Hs. lia. }
    rewrite Hd.
    assert (Hkept : kept = drop_str (Z.to_nat (len dropped)) "0123456789").
    { rewrite Hs. clear. revert kept.
      induction dropped as [|c d IH]; intros kept.
      - reflexivity.
      - unfold len. simpl String.length. rewrite Nat2Z.id. simpl.
        specialize (IH kept). unfold len in IH. by rewrite Nat2Z.id in IH. }
    rewrite Hkept, Hd. reflexivity.
  - rewrite (proj2 (proj2 (proj2
               (fetched_logs_keep_the_tail 0 0 "0123456789" ""))) eq_refl).
    + vm_compute. reflexivity.
    + lia.
    + vm_compute. reflexivity.
Defined.

End LogsFacts.

(** ** The pipeline *)

Module PipelineFacts.
Import Py Parser Claude Handler Notions Samples MoreNotions MoreSamples.

#[local] Set Warnings "-clear-no-such-hyp".

(** One step through the branches of the pipeline: an answer that is
    already known is used, any other is split into its cases. *)
Ltac pipeline_step :=
  first
    [ match goal with
      | H : ?x = _ |- context [match ?x with _ => _ end] => rewrite H
      end
    | match goal with
      | |- context [match ?x with _ => _ end] =>
          lazymatch x with
          | context [match _ with _ => _ end] => fail
          | _ => destruct x eqn:?
          end
      end ];
  simpl.

Ltac pipeline_cases := repeat pipeline_step.

Ltac unfold_pipeline :=
  unfold process_workflow_failure, call, local, ebind, finally_rmtree, ret.

(** X1.  Whatever the collaborators answer, the pipeline calls each of them
    at most once and in the fixed order: failure notification, log fetch,
    clone, analysis, apply, pull request, fix notification, then the removal
    of the working copy, then the logging of an exception. *)
Theorem pipeline_calls_in_order (env : Collaborators) (w : WorkItem) :
  StronglySorted lt (map stage (process_workflow_failure env w).1).
Proof. unfold_pipeline. pipeline_cases; repeat constructor. Qed.

(** X2.  The working copy is removed exactly when the clone was called and
    returned it: on every path after a successful clone, and on no other. *)
Theorem working_copy_removed_iff_cloned (env : Collaborators) (w : WorkItem)
    (p : string) :
  In (Rmtree p) (process_workflow_failure env w).1
  <-> In (CloneRepository (repo_full_name w) (head_branch w) (head_sha w))
         (process_workflow_failure env w).1
      /\ clone_repository env (repo_full_name w) (head_branch w) (head_sha w)
         = Ok p.
Proof. unfold_pipeline. pipeline_cases; simpl; naive_solver. Qed.

Lemma pipeline_quiet_after_raise (env : Collaborators) (w : WorkItem) :
  quiet_after_raise env (process_workflow_failure env w).1.
Proof.
  unfold_pipeline. pipeline_cases; eauto.
Qed.

Lemma raised_not_bookkeeping (env : Collaborators) (ev : event) (e : exn)
    (l : list event) :
  raised env ev = Some e ->
  In ev l -> Forall (fun ev' => raised env ev' = None) l -> False.
Proof.
  intros Hr Hin Hl. rewrite Forall_forall in Hl.
  apply list_elem_of_In, Hl in Hin. congruence.
Qed.

Lemma quiet_after_raise_split (env : Collaborators) (before : list event) :
  forall (ev : event) (after : list event) (e : exn),
    quiet_after_raise env (before ++ ev :: after) ->
    raised env ev = Some e ->
    after = [LogException e]
    \/ exists repo_path, after = [Rmtree repo_path; LogException e].
Proof.
  induction before as [|ev0 before IH]; intros ev after e; simpl.
  - intros H Hr. by rewrite Hr in H.
  - destruct (raised env ev0) as [e0|] eqn:E0; [|apply IH].
    intros H Hr. exfalso.
    apply (raised_not_bookkeeping env ev e (before ++ ev :: after) Hr).
    { apply in_or_app. right. by left. }
    destruct H as [-> | [repo_path ->]]; by repeat constructor.
Qed.

(** The call of a trace that raised the logged exception. *)
Ltac raising_call before l :=
  match l with
  | ?ev :: ?after =>
      first
        [ exists before, ev, after; split; [reflexivity|];
          simpl; pipeline_cases; congruence
        | raising_call (before ++ [ev]) after ]
  end.

Lemma pipeline_failed_iff_logged (env : Collaborators) (w : WorkItem) :
  (process_workflow_failure env w).2 = FAILED
  <-> exists e, last (process_workflow_failure env w).1 = Some (LogException e).
Proof. unfold_pipeline. pipeline_cases; simpl; naive_solver. Qed.

Lemma logged_exception_was_raised (env : Collaborators) (w : WorkItem)
    (e : exn) :
  last (process_workflow_failure env w).1 = Some (LogException e) ->
  (exists before ev after,
     (process_workflow_failure env w).1 = before ++ ev :: after
     /\ raised env ev = Some e)
  \/ exists logs,
       fetch_workflow_logs env (repo_full_name w) (run_id w) = Ok logs
       /\ parse_error_logs logs = Raise e.
Proof.
  unfold_pipeline. pipeline_cases; intros [= <-];
    first
      [ by right; eauto
      | left;
        match goal with
        | |- exists before ev after, ?l = _ /\ _ => raising_call (@nil event) l
        end ].
Qed.

(** X3.  After a collaborator has raised, nothing more is called: whatever
    call of the trace raised, what follows it in the trace is the removal
    of the working copy, if the repository was cloned, and the logging of
    that exception, and the run leaves through the except clause.  The run
    leaves through the except clause exactly when an exception is logged
    last, and the exception logged is the one a collaborator raised or the
    one the parser raised on the fetched logs. *)
Theorem nothing_is_called_after_a_raise (env : Collaborators) (w : WorkItem) :
  (forall before ev after e,
     (process_workflow_failure env w).1 = before ++ ev :: after ->
     raised env ev = Some e ->
     (after = [LogException e]
      \/ exists repo_path, after = [Rmtree repo_path; LogException e])
     /\ (process_workflow_failure env w).2 = FAILED)
  /\ ((process_workflow_failure env w).2 = FAILED
      <-> exists e,
            last (process_workflow_failure env w).1 = Some (LogException e))
  /\ (forall e,
        last (process_workflow_failure env w).1 = Some (LogException e) ->
        (exists before ev after,
           (process_workflow_failure env w).1 = before ++ ev :: after
           /\ raised env ev = Some e)
        \/ exists logs,
             fetch_workflow_logs env (repo_full_name w) (run_id w) = Ok logs
             /\ parse_error_logs logs = Raise e).
Proof.
  split; [|split; [apply pipeline_failed_iff_logged
                  |apply logged_exception_was_raised]].
  intros before ev after e Ht Hr.
  pose proof (pipeline_quiet_after_raise env w) as Hq. rewrite Ht in Hq.
  pose proof (quiet_after_raise_split env before ev after e Hq Hr) as Ha.
  split; [exact Ha|].
  apply pipeline_failed_iff_logged. exists e. rewrite Ht.
  destruct Ha as [-> | [repo_path ->]].
  - change (ev :: [LogException e]) with ([ev] ++ [LogException e]).
    by rewrite app_assoc, last_snoc.
  - change (ev :: [Rmtree repo_path; LogException e])
      with ([ev; Rmtree repo_path] ++ [LogException e]).
    by rewrite app_assoc, last_snoc.
Qed.

Lemma nothing_is_called_after_a_raise_witness :
  (process_workflow_failure unreachable_slack_env sample_item).2 = FAILED.
Proof.
  refine (proj2 (proj1 (nothing_is_called_after_a_raise unreachable_slack_env
                          sample_item)
                   [] _ [LogException (OSError "Name or service not known")]
                   (OSError "Name or service not known") _ _)).
  - vm_compute. reflexivity.
  - vm_compute. reflexivity.
Defined.

(** X4.  When the logs hold no parseable error the run stops after the log
    fetch: the repository is not cloned and the oracle is not consulted. *)
Theorem no_errors_stops_before_clone (env : Collaborators) (w : WorkItem)
    (logs : string) (parsed_errors : ParsedErrors) :
  send_failure_notification env (repo_full_name w) (head_branch w) (run_id w)
    (html_url w) = Ok tt ->
  fetch_workflow_logs env (repo_full_name w) (run_id w) = Ok logs ->
  parse_error_logs logs = Ok parsed_errors ->
  errors parsed_errors = [] ->
  process_workflow_failure env w
  = ([SendFailureNotification (repo_full_name w) (head_branch w) (run_id w)
        (html_url w);
      FetchWorkflowLogs (repo_full_name w) (run_id w)],
     NO_ERRORS).
Proof.
  intros Hn Hf Hp He.
  unfold process_workflow_failure, call, local, ebind.
  by rewrite Hn, Hf, Hp, He.
Qed.

Lemma no_errors_stops_before_clone_witness :
  process_workflow_failure quiet_env sample_item
  = ([SendFailureNotification "owner/repo" "main" 12345
        "https://github.com/owner/repo/actions/runs/12345";
      FetchWorkflowLogs "owner/repo" 12345],
     NO_ERRORS).
Proof.
  refine (no_errors_stops_before_clone quiet_env sample_item "All checks passed!"
            (MkParsedErrors [] "All checks passed!" "unknown")
            eq_refl eq_refl _ eq_refl).
  vm_compute. reflexivity.
Defined.

(** X5.  The run ends published exactly when every collaborator answers,
    the parser returns errors and the oracle's can_fix is true; the trace is
    then the full sequence, the changes of the FixResult (possibly none)
    going to the Applier and its description to the pull request and to the
    notification. *)
Theorem published_iff_every_stage_succeeds (env : Collaborators) (w : WorkItem) :
  (process_workflow_failure env w).2 = PUBLISHED
  <-> exists logs parsed_errors repo_path fix_result pr_url,
        send_failure_notification env (repo_full_name w) (head_branch w)
          (run_id w) (html_url w) = Ok tt
        /\ fetch_workflow_logs env (repo_full_name w) (run_id w) = Ok logs
        /\ parse_error_logs logs = Ok parsed_errors
        /\ errors parsed_errors <> []
        /\ clone_repository env (repo_full_name w) (head_branch w) (head_sha w)
           = Ok repo_path
        /\ analyze_failure env parsed_errors repo_path = Ok fix_result
        /\ truthy (can_fix fix_result) = true
        /\ apply_fix env repo_path (changes fix_result) = Ok tt
        /\ create_fix_pr env repo_path (repo_full_name w) (run_id w)
             (description fix_result) (head_branch w) = Ok pr_url
        /\ send_pr_notification env (repo_full_name w) (head_branch w) pr_url
             (description fix_result) = Ok tt
        /\ (process_workflow_failure env w).1
           = [SendFailureNotification (repo_full_name w) (head_branch w)
                (run_id w) (html_url w);
              FetchWorkflowLogs (repo_full_name w) (run_id w);
              CloneRepository (repo_full_name w) (head_branch w) (head_sha w);
              AnalyzeFailure parsed_errors repo_path;
              ApplyFix repo_path (changes fix_result);
              CreateFixPr repo_path (repo_full_name w) (run_id w)
                (description fix_result) (head_branch w);
              SendPrNotification (repo_full_name w) (head_branch w) pr_url
                (description fix_result);
              Rmtree repo_path].
Proof.
  split.
  - unfold_pipeline. pipeline_cases; try discriminate. intros _.
    repeat match goal with u : unit |- _ => destruct u end.
    do 5 eexists.
    repeat split; try eassumption; try done;
      try (by apply negb_false_iff); congruence.
  - intros (logs & parsed_errors & repo_path & fix_result & pr_url & Hn & Hf
            & Hp & He & Hc & Ha & Hg & Hw & Hr & Hs & _).
    unfold_pipeline. rewrite Hn, Hf, Hp.
    destruct (errors parsed_errors); [done|].
    by rewrite Hc, Ha, Hg, Hw, Hr, Hs.
Qed.

Lemma published_iff_every_stage_succeeds_witness :
  (process_workflow_failure fixing_env sample_item).2 = PUBLISHED.
Proof.
  assert (Hp : parse_error_logs pyright_log = Ok pyright_parsed)
    by (vm_compute; reflexivity).
  apply (proj2 (published_iff_every_stage_succeeds fixing_env sample_item)).
  exists pyright_log, pyright_parsed, sample_checkout, sample_fix, sample_pr.
  split; [reflexivity|]. split; [reflexivity|]. split; [exact Hp|].
  split; [discriminate|].
  repeat split; vm_compute; reflexivity.
Defined.

(** X6.  The failure notification stands inside the try block: when it
    raises, the exception is logged and nothing else is called, the logs are
    not even fetched. *)
Theorem notification_failure_aborts (env : Collaborators) (w : WorkItem)
    (e : exn) :
  send_failure_notification env (repo_full_name w) (head_branch w) (run_id w)
    (html_url w) = Raise e ->
  process_workflow_failure env w
  = ([SendFailureNotification (repo_full_name w) (head_branch w) (run_id w)
        (html_url w);
      LogException e],
     FAILED).
Proof.
  intros Hn. unfold process_workflow_failure, call, ebind. by rewrite Hn.
Qed.

Lemma notification_failure_aborts_witness :
  process_workflow_failure unreachable_slack_env sample_item
  = ([SendFailureNotification "owner/repo" "main" 12345
        "https://github.com/owner/repo/actions/runs/12345";
      LogException (OSError "Name or service not known")],
     FAILED).
Proof.
  exact (notification_failure_aborts unreachable_slack_env sample_item
           (OSError "Name or service not known") eq_refl).
Defined.

End PipelineFacts.

(** ** The request handler *)

Module WebhookFacts.
Import Py PyMore Handler Validator Config Webhook.
Import Notions Samples MoreNotions MoreSamples.

Lemma validator_raises payload signature secret e :
  validate_github_signature payload signature secret = Raise e ->
  e = TypeError
  /\ exists s, signature = Some s /\ startswith "sha256=" s = true
               /\ all_ascii s = false.
Proof.
  unfold validate_github_signature.
  destruct signature as [s|]; [|done].
  destruct (nonempty s); [|done].
  destruct (startswith "sha256=" s) eqn:Hp; [|done].
  cbn [negb]. unfold compare_digest.
  rewrite ValidatorFacts.expected_signature_ascii. simpl.
  destruct (all_ascii s) eqn:Ha; [done|].
  intros [= <-]. eauto.
Qed.

(** X7.  A signature that carries the prefix sha256= and a character outside
    ASCII is not answered with false: the digest comparison refuses it and
    [validate_github_signature] raises TypeError, and nothing else makes the
    validator raise.  [github_webhook] lets that exception through instead
    of answering 401. *)
Theorem non_ascii_signature_raises (settings : Settings)
    (sweep_time record_time : float) (cache : gmap Z float) (request : Request)
    (e : exn) :
  (validate_github_signature (body request) (x_hub_signature_256 request)
     (github_webhook_secret settings) = Raise e
   <-> e = TypeError
       /\ exists s, x_hub_signature_256 request = Some s
                    /\ startswith "sha256=" s = true /\ all_ascii s = false)
  /\ (validate_github_signature (body request) (x_hub_signature_256 request)
        (github_webhook_secret settings) = Raise e ->
      github_webhook settings sweep_time record_time cache request = Raise e).
Proof.
  split.
  - split; [apply validator_raises|].
    intros (-> & s & Hs & Hp & Ha). rewrite Hs.
    unfold validate_github_signature.
    destruct s as [|c s]; [done|]. cbn [nonempty negb].
    rewrite Hp. cbn [negb]. unfold compare_digest.
    by rewrite Ha, andb_false_r.
  - intros H. unfold github_webhook. by rewrite H.
Qed.

Lemma non_ascii_signature_raises_witness :
  github_webhook sample_settings t0 t0 ∅ non_ascii_request = Raise TypeError.
Proof.
  pose proof (non_ascii_signature_raises sample_settings t0 t0 ∅
                non_ascii_request TypeError) as [[_ H1] H2].
  apply H2, H1. split; [reflexivity|].
  exists non_ascii_signature. repeat split; vm_compute; reflexivity.
Defined.

(** X8.  A delivery that does not pass every filter (valid signature, event
    workflow_run, action completed, conclusion failure, repository allowed)
    and is answered at all is answered 401 or ignored; it queues nothing and
    leaves the deduplication cache exactly as it was, not even swept. *)
Theorem filtered_delivery_changes_nothing (settings : Settings)
    (sweep_time record_time : float) (cache : gmap Z float) (request : Request)
    (h : handled) :
  passes_filters settings request = false ->
  github_webhook settings sweep_time record_time cache request = Ok h ->
  h_cache h = cache /\ h_queued h = None
  /\ (h_response h = Unauthorized
      <-> validate_github_signature (body request) (x_hub_signature_256 request)
            (github_webhook_secret settings) = Ok false)
  /\ (forall run, h_response h <> Accepted run).
Proof.
  unfold passes_filters, github_webhook.
  destruct (validate_github_signature _ _ _) as [[|]|e']; simpl; [| |done].
  - destruct (is_text (x_github_event request) _); simpl.
    2:{ intros _ [= <-]. simpl. naive_solver. }
    destruct (pl_workflow_run _) as [wr|]; simpl.
    2:{ intros _ [= <-]. simpl. naive_solver. }
    destruct (is_text (pl_action _) _); simpl.
    2:{ intros _ [= <-]. simpl. naive_solver. }
    destruct (is_text (wr_conclusion wr) _); simpl.
    2:{ intros _ [= <-]. simpl. naive_solver. }
    destruct (is_repo_allowed _ _); simpl; [done|].
    intros _ [= <-]. simpl. naive_solver.
  - intros _ [= <-]. simpl. naive_solver.
Qed.

Lemma filtered_delivery_changes_nothing_witness :
  let h := MkHandled (Ignored "not a workflow_run event") (<[7 := t0]> ∅) None in
  github_webhook sample_settings t0 t0 (<[7 := t0]> ∅) other_event_request
  = Ok h
  /\ h_cache h = <[7 := t0]> ∅ /\ h_queued h = None.
Proof.
  intros h.
  assert (Hf : passes_filters sample_settings other_event_request = false)
    by (vm_compute; reflexivity).
  assert (E : github_webhook sample_settings t0 t0 (<[7 := t0]> ∅)
                other_event_request = Ok h)
    by (vm_compute; reflexivity).
  pose proof (filtered_delivery_changes_nothing _ _ _ _ _ _ Hf E)
    as (Hc & Hq & _).
  split; [exact E|]. split; [exact Hc|exact Hq].
Defined.

Lemma passing_delivery_result (settings : Settings)
    (sweep_time record_time : float) (cache : gmap Z float) (request : Request) :
  passes_filters settings request = true ->
  exists workflow_run,
    pl_workflow_run (json request) = Some workflow_run
    /\ github_webhook settings sweep_time record_time cache request
       = Ok (let '(duplicate, runs) :=
               deduplicate (wr_id workflow_run) sweep_time record_time cache in
             if duplicate then MkHandled (Ignored "duplicate") runs None
             else MkHandled (Accepted (str_int (wr_id workflow_run))) runs
                    (Some (json request))).
Proof.
  unfold passes_filters, github_webhook.
  destruct (validate_github_signature _ _ _) as [[|]|e']; simpl; [|done|done].
  destruct (is_text (x_github_event request) _); simpl; [|done].
  destruct (is_text (pl_action _) _); simpl; [|done].
  destruct (pl_workflow_run _) as [wr|]; simpl; [|done].
  destruct (is_text (wr_conclusion wr) _); simpl; [|done].
  destruct (is_repo_allowed _ _); simpl; [|done].
  intros _. exists wr. split; [done|].
  by destruct (deduplicate _ _ _ _) as [[|] ?].
Qed.

(** X9.  A delivery of a workflow run with an integer id that passes
    every filter is answered by what the cache holds for that id.  If the id
    was recorded and the record is not older than the TTL at the sweep, the
    delivery is ignored as a duplicate, nothing is queued, and the cache is
    left swept with the record as it was.  Otherwise, the id being new or
    its record expired, the id is recorded with the current time, the
    delivery is accepted with the id in decimal, and its payload is queued. *)
Theorem passing_delivery_is_deduplicated (settings : Settings)
    (sweep_time record_time : float) (cache : gmap Z float) (request : Request)
    (workflow_run : WorkflowRun) :
  passes_filters settings request = true ->
  pl_workflow_run (json request) = Some workflow_run ->
  (forall recorded,
     cache !! wr_id workflow_run = Some recorded ->
     is_expired sweep_time recorded = false ->
     github_webhook settings sweep_time record_time cache request
     = Ok (MkHandled (Ignored "duplicate") (_cleanup_cache sweep_time cache)
             None)
     /\ _cleanup_cache sweep_time cache !! wr_id workflow_run = Some recorded)
  /\ ((cache !! wr_id workflow_run = None
       \/ exists recorded,
            cache !! wr_id workflow_run = Some recorded
            /\ is_expired sweep_time recorded = true) ->
      github_webhook settings sweep_time record_time cache request
      = Ok (MkHandled (Accepted (str_int (wr_id workflow_run)))
              (<[wr_id workflow_run := record_time]>
                 (_cleanup_cache sweep_time cache))
              (Some (json request)))).
Proof.
  intros Hf Hwr.
  destruct (passing_delivery_result settings sweep_time record_time cache
              request Hf) as (wr & Hwr' & E).
  rewrite Hwr in Hwr'. injection Hwr' as <-. rewrite E. split.
  - intros recorded Hk He.
    rewrite (HandlerFacts.deduplicate_seen _ _ _ _ recorded Hk He).
    split; [done|]. by rewrite HandlerFacts.lookup_cleanup_cache, Hk, He.
  - intros H. by rewrite (HandlerFacts.deduplicate_new _ _ _ _ H).
Qed.

Lemma passing_delivery_is_deduplicated_witness :
  github_webhook sample_settings t0 t0 ∅ sample_request
  = Ok (MkHandled (Accepted "12345") (<[12345 := t0]> ∅) (Some sample_payload)).
Proof.
  assert (Hf : passes_filters sample_settings sample_request = true)
    by (vm_compute; reflexivity).
  assert (Hw : pl_workflow_run (json sample_request) = Some sample_run)
    by reflexivity.
  rewrite (proj2 (passing_delivery_is_deduplicated sample_settings t0 t0 ∅
                    sample_request sample_run Hf Hw) (or_introl (lookup_empty _))).
  vm_compute. reflexivity.
Defined.

(** X10.  The same passing delivery posted twice, the second time within the
    TTL of the first recording, is accepted and queued the first time and
    ignored as a duplicate the second time; the second delivery queues
    nothing and leaves the recorded timestamp as it was. *)
Theorem second_delivery_is_duplicate (settings : Settings) (request : Request)
    (workflow_run : WorkflowRun) (cache : gmap Z float)
    (sweep1 record1 sweep2 record2 : float) (first second : handled) :
  passes_filters settings request = true ->
  pl_workflow_run (json request) = Some workflow_run ->
  cache !! wr_id workflow_run = None ->
  is_expired sweep2 record1 = false ->
  github_webhook settings sweep1 record1 cache request = Ok first ->
  github_webhook settings sweep2 record2 (h_cache first) request = Ok second ->
  h_response first = Accepted (str_int (wr_id workflow_run))
  /\ h_queued first = Some (json request)
  /\ h_response second = Ignored "duplicate"
  /\ h_queued second = None
  /\ h_cache second !! wr_id workflow_run = Some record1.
Proof.
  intros Hf Hwr Hnew Hlive H1 H2.
  destruct (passing_delivery_result settings sweep1 record1 cache
              request Hf) as (wr & Hwr' & E1).
  rewrite Hwr in Hwr'. injection Hwr' as <-.
  rewrite E1 in H1.
  rewrite (HandlerFacts.deduplicate_new _ _ _ _ (or_introl Hnew)) in H1.
  injection H1 as <-. simpl in H2.
  destruct (passing_delivery_result settings sweep2 record2
              (<[wr_id workflow_run := record1]>
                 (_cleanup_cache sweep1 cache)) request Hf) as (wr & Hwr' & E2).
  rewrite Hwr in Hwr'. injection Hwr' as <-.
  rewrite E2 in H2.
  rewrite (HandlerFacts.deduplicate_seen _ _ _ _ record1) in H2;
    [|by rewrite lookup_insert_eq|done].
  injection H2 as <-. simpl. repeat split.
  by rewrite HandlerFacts.lookup_cleanup_cache, lookup_insert_eq, Hlive.
Qed.

Lemma second_delivery_is_duplicate_witness :
  let first :=
    MkHandled (Accepted "12345") (<[12345 := t0]> ∅) (Some sample_payload) in
  let second := MkHandled (Ignored "duplicate") (<[12345 := t0]> ∅) None in
  github_webhook sample_settings t0 t0 ∅ sample_request = Ok first
  /\ github_webhook sample_settings t0_plus_1s t0_plus_1s (h_cache first)
       sample_request = Ok second
  /\ h_response second = Ignored "duplicate"
  /\ h_queued second = None.
Proof.
  intros first second.
  assert (E1 : github_webhook sample_settings t0 t0 ∅ sample_request = Ok first)
    by (vm_compute; reflexivity).
  assert (E2 : github_webhook sample_settings t0_plus_1s t0_plus_1s
                 (h_cache first) sample_request = Ok second)
    by (vm_compute; reflexivity).
  assert (Hf : passes_filters sample_settings sample_request = true)
    by (vm_compute; reflexivity).
  assert (Hw : pl_workflow_run (json sample_request) = Some sample_run)
    by (vm_compute; reflexivity).
  assert (Hn : (∅ : gmap Z float) !! wr_id sample_run = None)
    by (vm_compute; reflexivity).
  assert (Hl : is_expired t0_plus_1s t0 = false) by (vm_compute; reflexivity).
  pose proof (second_delivery_is_duplicate sample_settings sample_request
                sample_run ∅ t0 t0 t0_plus_1s t0_plus_1s first second
                Hf Hw Hn Hl E1 E2) as (_ & _ & R2 & Q2 & _).
  split; [exact E1|]. split; [exact E2|]. split; [exact R2|exact Q2].
Defined.

End WebhookFacts.

(** ** From the request handler to the pipeline *)

Module QueueFacts.
Import Py PyMore Parser Claude Handler Validator Config Webhook.
Import Notions Samples MoreNotions MoreSamples.

#[local] Set Warnings "-clear-no-such-hyp".

Lemma queued_delivery (settings : Settings) (sweep_time record_time : float)
    (cache : gmap Z float) (request : Request) (h : handled)
    (payload : Payload) :
  github_webhook settings sweep_time record_time cache request = Ok h ->
  h_queued h = Some payload ->
  payload = json request
  /\ is_repo_allowed settings (default "" (pl_repository payload)) = true
  /\ exists workflow_run,
       pl_workflow_run payload = Some workflow_run
       /\ h_response h = Accepted (str_int (wr_id workflow_run))
       /\ h_cache h !! wr_id workflow_run = Some record_time.
Proof.
  unfold github_webhook.
  destruct (validate_github_signature _ _ _) as [[|]|e']; simpl;
    [|by intros [= <-]|done].
  destruct (is_text (x_github_event request) _); simpl; [|by intros [= <-]].
  destruct (pl_workflow_run (json request)) as [wr|] eqn:Hwr;
    [|by intros [= <-]].
  destruct (_ || _); [by intros [= <-]|].
  destruct (is_repo_allowed _ _) eqn:Ha; simpl; [|by intros [= <-]].
  unfold deduplicate.
  destruct (_cleanup_cache sweep_time cache !! wr_id wr); [by intros [= <-]|].
  intros [= <-]. simpl. intros [= <-].
  split; [done|]. split; [done|]. exists wr.
  split; [done|]. split; [done|]. by rewrite lookup_insert_eq.
Qed.

Lemma pipeline_names_its_repository (env : Collaborators) (w : WorkItem)
    (repo branch commit : string) :
  In (CloneRepository repo branch commit) (process_workflow_failure env w).1 ->
  repo = repo_full_name w /\ branch = head_branch w /\ commit = head_sha w.
Proof.
  PipelineFacts.unfold_pipeline.
  PipelineFacts.pipeline_cases; simpl; naive_solver.
Qed.

Lemma queued_iff_new_passing (settings : Settings)
    (sweep_time record_time : float) (cache : gmap Z float) (request : Request)
    (h : handled) :
  github_webhook settings sweep_time record_time cache request = Ok h ->
  is_Some (h_queued h)
  <-> passes_filters settings request = true
      /\ exists workflow_run,
           pl_workflow_run (json request) = Some workflow_run
           /\ _cleanup_cache sweep_time cache !! wr_id workflow_run = None.
Proof.
  unfold github_webhook, passes_filters.
  destruct (validate_github_signature _ _ _) as [[|]|e']; simpl;
    [|intros [= <-]; simpl; split; [by intros []|by intros []]|done].
  destruct (is_text (x_github_event request) _); simpl.
  2:{ intros [= <-]. simpl. split; [by intros []|by intros []]. }
  destruct (pl_workflow_run (json request)) as [wr|] eqn:Hwr.
  2:{ intros [= <-]. simpl. rewrite andb_false_r. simpl.
      split; [by intros []|by intros []]. }
  destruct (is_text (pl_action _) _); simpl.
  2:{ intros [= <-]. simpl. split; [by intros []|by intros []]. }
  destruct (is_text (wr_conclusion wr) _); simpl.
  2:{ intros [= <-]. simpl. split; [by intros []|by intros []]. }
  destruct (is_repo_allowed _ _); simpl.
  2:{ intros [= <-]. simpl. split; [by intros []|by intros []]. }
  unfold deduplicate.
  destruct (_cleanup_cache sweep_time cache !! wr_id wr) eqn:Hc.
  - intros [= <-]. simpl. split; [by intros []|].
    intros [_ (wr' & [= <-] & Hn)]. congruence.
  - intros [= <-]. simpl. split; [|by eauto].
    intros _. split; [done|]. by exists wr.
Qed.

(** X25.  On a delivery of GitHub, whose workflow run carries an integer
    id, [github_webhook] queues a payload exactly when the delivery passes
    every filter and the run id is not in the swept cache.  What it queues
    is the payload of that delivery: the answer names the run id in decimal,
    the id is recorded in the cache with the time of this delivery, and the
    repository passed the allow list. *)
Theorem queued_payload_was_accepted (settings : Settings)
    (sweep_time record_time : float) (cache : gmap Z float) (request : Request)
    (h : handled) :
  github_webhook settings sweep_time record_time cache request = Ok h ->
  (is_Some (h_queued h)
   <-> passes_filters settings request = true
       /\ exists workflow_run,
            pl_workflow_run (json request) = Some workflow_run
            /\ _cleanup_cache sweep_time cache !! wr_id workflow_run = None)
  /\ (forall payload,
        h_queued h = Some payload ->
        payload = json request
        /\ is_repo_allowed settings (default "" (pl_repository payload)) = true
        /\ exists workflow_run,
             pl_workflow_run payload = Some workflow_run
             /\ h_response h = Accepted (str_int (wr_id workflow_run))
             /\ h_cache h !! wr_id workflow_run = Some record_time).
Proof.
  intros H. split; [by eapply queued_iff_new_passing|].
  intros payload Hq. by eapply queued_delivery.
Qed.

Lemma queued_payload_was_accepted_witness :
  let h := MkHandled (Accepted "12345") (<[12345 := t0]> ∅)
             (Some sample_payload) in
  github_webhook sample_settings t0 t0 ∅ sample_request = Ok h
  /\ h_cache h !! 12345 = Some t0.
Proof.
  intros h.
  assert (E : github_webhook sample_settings t0 t0 ∅ sample_request = Ok h)
    by (vm_compute; reflexivity).
  destruct (proj2 (queued_payload_was_accepted sample_settings t0 t0 ∅
                     sample_request h E) sample_payload eq_refl)
    as (_ & _ & (wr & Hwr & _ & Hc)).
  split; [exact E|].
  assert (Hid : wr_id wr = 12345).
  { change (pl_workflow_run sample_payload) with (Some sample_run) in Hwr.
    injection Hwr as <-. reflexivity. }
  rewrite <- Hid. exact Hc.
Defined.

(** X26.  With a non-empty allow list, the pipeline run on a queued payload
    only ever clones a repository of the list, at the branch and commit of
    the delivered workflow run. *)
Theorem only_allowed_repositories_are_cloned (settings : Settings)
    (sweep_time record_time : float) (cache : gmap Z float) (request : Request)
    (h : handled) (payload : Payload) (w : WorkItem) (env : Collaborators)
    (repo branch commit : string) :
  allowed_repos settings <> [] ->
  github_webhook settings sweep_time record_time cache request = Ok h ->
  h_queued h = Some payload ->
  work_item payload = Some w ->
  In (CloneRepository repo branch commit) (process_workflow_failure env w).1 ->
  In repo (allowed_repos settings)
  /\ exists workflow_run,
       pl_workflow_run (json request) = Some workflow_run
       /\ branch = wr_head_branch workflow_run
       /\ commit = wr_head_sha workflow_run.
Proof.
  intros Hne H Hq Hw Hin.
  destruct (queued_delivery _ _ _ _ _ _ _ H Hq) as (Hp & Ha & wr & Hwr & _).
  apply pipeline_names_its_repository in Hin as (-> & -> & ->).
  subst payload. unfold work_item in Hw. rewrite Hwr in Hw.
  destruct (pl_repository (json request)) as [name|]; [|done].
  injection Hw as <-. simpl in *. split; [|by exists wr].
  unfold is_repo_allowed in Ha.
  destruct (allowed_repos settings) as [|a l] eqn:El; [done|].
  apply existsb_exists in Ha as (x & Hx & Heq).
  apply String.eqb_eq in Heq. by subst x.
Qed.

Lemma only_allowed_repositories_are_cloned_witness :
  In "owner/repo" (allowed_repos restricted_settings).
Proof.
  set (h := MkHandled (Accepted "12345") (<[12345 := t0]> ∅)
              (Some sample_payload)).
  assert (E : github_webhook restricted_settings t0 t0 ∅ sample_request = Ok h)
    by (vm_compute; reflexivity).
  assert (Hne : allowed_repos restricted_settings <> []) by discriminate.
  assert (Hin : In (CloneRepository "owner/repo" "main" "abc123")
                  (process_workflow_failure fixing_env sample_item).1)
    by (vm_compute; tauto).
  exact (proj1 (only_allowed_repositories_are_cloned restricted_settings t0 t0
                  ∅ sample_request h sample_payload sample_item fixing_env
                  "owner/repo" "main" "abc123" Hne E eq_refl eq_refl Hin)).
Defined.

End QueueFacts.

(** ** The source reader *)

Module RepoFacts.
Import Py PyMore Claude Repo TextFacts Notions Samples MoreNotions MoreSamples.

Lemma truncate_content_bound (content : string) :
  len (truncate_content content) <= 10016.
Proof.
  unfold truncate_content. destruct (len content >? 10000) eqn:E; [|lia].
  rewrite slice_to_take by lia. rewrite !len_app.
  unfold len at 1. rewrite length_take_str.
  change (len (String Re.newline "")) with 1.
  change (len "... [truncated]") with 15. lia.
Qed.

Lemma fold_read_lookup (fs : string -> file_state) (files : list string) :
  forall (acc files_content : gmap string string) (p : string),
    fold_result (read_file fs) files acc = Ok files_content ->
    files_content !! p
    = match fs p with
      | Readable content =>
          if bool_decide (p ∈ files) then Some (truncate_content content)
          else acc !! p
      | _ => acc !! p
      end.
Proof.
  induction files as [|f files IH]; intros acc files_content p; simpl.
  - intros [= <-]. by destruct (fs p).
  - unfold read_file at 1.
    destruct (fs f) as [|content_f|e_f|e_f] eqn:Ef; simpl; [| | |done];
      intros H; rewrite (IH _ _ p H); clear H.
    + destruct (fs p) as [|content| |] eqn:Ep; try done.
      destruct (bool_decide (p ∈ files)) eqn:Hin.
      * apply bool_decide_eq_true in Hin.
        rewrite bool_decide_eq_true_2; [done|]. by right.
      * apply bool_decide_eq_false in Hin.
        rewrite bool_decide_eq_false_2; [done|].
        intros [->|?]%elem_of_cons; [|done]. by rewrite Ep in Ef.
    + destruct (fs p) as [|content| |] eqn:Ep.
      * rewrite lookup_insert_ne; [done|]. intros ->. by rewrite Ep in Ef.
      * destruct (bool_decide (p ∈ files)) eqn:Hin.
        -- apply bool_decide_eq_true in Hin.
           rewrite bool_decide_eq_true_2; [done|]. by right.
        -- apply bool_decide_eq_false in Hin.
           destruct (decide (p = f)) as [->|Hne].
           ++ rewrite lookup_insert_eq.
              rewrite bool_decide_eq_true_2; [|by left].
              rewrite Ep in Ef. by injection Ef as ->.
           ++ rewrite lookup_insert_ne by done.
              rewrite bool_decide_eq_false_2; [done|].
              intros [?|?]%elem_of_cons; done.
      * rewrite lookup_insert_ne; [done|]. intros ->. by rewrite Ep in Ef.
      * rewrite lookup_insert_ne; [done|]. intros ->. by rewrite Ep in Ef.
    + destruct (fs p) as [|content| |] eqn:Ep; try done.
      destruct (bool_decide (p ∈ files)) eqn:Hin.
      * apply bool_decide_eq_true in Hin.
        rewrite bool_decide_eq_true_2; [done|]. by right.
      * apply bool_decide_eq_false in Hin.
        rewrite bool_decide_eq_false_2; [done|].
        intros [->|?]%elem_of_cons; [|done]. by rewrite Ep in Ef.
Qed.

Lemma fold_read_size (fs : string -> file_state) (files : list string) :
  forall acc files_content : gmap string string,
    fold_result (read_file fs) files acc = Ok files_content ->
    (size files_content <= size acc + length files)%nat.
Proof.
  induction files as [|f files IH]; intros acc files_content; simpl.
  - intros [= <-]. lia.
  - unfold read_file at 1.
    destruct (fs f); simpl; [| | |done]; intros H; apply IH in H; try lia.
    rewrite map_size_insert in H. destruct (acc !! f); simpl in H; lia.
Qed.

Lemma fold_read_returns (fs : string -> file_state) (files : list string) :
  forall acc : gmap string string,
    (exists files_content, fold_result (read_file fs) files acc = Ok files_content)
    <-> forall p e, p ∈ files -> fs p <> Inaccessible e.
Proof.
  induction files as [|f files IH]; intros acc; simpl.
  - split; [by intros _ p e ?%elem_of_nil|by eexists].
  - unfold read_file at 1. destruct (fs f) as [|c|e'|e'] eqn:Ef; simpl.
    + rewrite IH. split.
      * intros H p e [->|?]%elem_of_cons; [by rewrite Ef|by apply H].
      * intros H p e Hin. apply H. by right.
    + rewrite IH. split.
      * intros H p e [->|?]%elem_of_cons; [by rewrite Ef|by apply H].
      * intros H p e Hin. apply H. by right.
    + rewrite IH. split.
      * intros H p e [->|?]%elem_of_cons; [by rewrite Ef|by apply H].
      * intros H p e Hin. apply H. by right.
    + split; [by intros [? ?]|].
      intros H. exfalso. apply (H f e'); [by left|done].
Qed.

Lemma fold_read_raises (fs : string -> file_state) (files : list string) :
  forall (acc : gmap string string) (e : exn),
    fold_result (read_file fs) files acc = Raise e ->
    exists p, p ∈ files /\ fs p = Inaccessible e.
Proof.
  induction files as [|f files IH]; intros acc e; simpl; [done|].
  unfold read_file at 1. destruct (fs f) as [|c|e'|e'] eqn:Ef; simpl.
  1-3: intros (p & Hin & Hp)%IH; exists p; split; [by right|done].
  intros [= <-]. exists f. split; [by left|done].
Qed.

Lemma length_list_slice_to {A} (l : list A) (n : Z) :
  (length (list_slice_to l n) <= length l)%nat
  /\ (0 <= n -> Z.of_nat (length (list_slice_to l n)) <= n).
Proof.
  unfold list_slice_to, clip. rewrite length_take. split; [lia|].
  intros H. destruct (n <? 0) eqn:E; lia.
Qed.

(** X12.  When [get_relevant_files] returns, it holds an entry for a path
    exactly when the path is among the error files the slice
    [error_files[:max_context_files]] keeps and is a readable file; the
    entry is the file's content, cut to its first 10000 characters and a
    marker when it is longer.  Paths that do not exist and files whose
    reading raises are left out without an error.  No entry is longer than
    10016 characters; there are no more entries than error files, and no
    more than max_context_files when that setting is not negative.  The
    function returns unless the test of one of those paths itself raises,
    which is not caught: that exception leaves the function. *)
Theorem relevant_files_are_bounded (max_context_files : Z)
    (fs : string -> file_state) (error_files : list string) :
  (forall files_content,
     get_relevant_files max_context_files fs error_files = Ok files_content ->
     (forall p,
        files_content !! p
        = if bool_decide (p ∈ list_slice_to error_files max_context_files) then
            match fs p with
            | Readable content => Some (truncate_content content)
            | Missing | Unreadable _ | Inaccessible _ => None
            end
          else None)
     /\ (forall p content,
           files_content !! p = Some content -> len content <= 10016)
     /\ (size files_content <= length error_files)%nat
     /\ (0 <= max_context_files ->
         Z.of_nat (size files_content) <= max_context_files))
  /\ ((exists files_content,
         get_relevant_files max_context_files fs error_files = Ok files_content)
      <-> forall p e, p ∈ list_slice_to error_files max_context_files ->
                      fs p <> Inaccessible e)
  /\ (forall e,
        get_relevant_files max_context_files fs error_files = Raise e ->
        exists p, p ∈ list_slice_to error_files max_context_files
                  /\ fs p = Inaccessible e)
  /\ (forall content,
        truncate_content content
        = if len content >? 10000
          then take_str (Z.to_nat 10000) content +:+ LF +:+ "... [truncated]"
          else content).
Proof.
  split; [|split; [apply fold_read_returns|split; [apply fold_read_raises|]]].
  - intros files_content H.
    assert (Hl : forall p,
      files_content !! p
      = if bool_decide (p ∈ list_slice_to error_files max_context_files) then
          match fs p with
          | Readable content => Some (truncate_content content)
          | Missing | Unreadable _ | Inaccessible _ => None
          end
        else None).
    { intros p. rewrite (fold_read_lookup _ _ _ _ p H), lookup_empty.
      destruct (fs p); by destruct (bool_decide _). }
    split; [exact Hl|]. split.
    { intros p content. rewrite Hl. destruct (bool_decide _); [|done].
      destruct (fs p); try done. intros [= <-]. apply truncate_content_bound. }
    apply fold_read_size in H. rewrite map_size_empty in H.
    destruct (length_list_slice_to error_files max_context_files) as [H1 H2].
    split; [lia|]. intros H0. specialize (H2 H0). lia.
  - intros content. unfold truncate_content.
    destruct (len content >? 10000); [|done].
    by rewrite slice_to_take by lia.
Qed.

Lemma relevant_files_are_bounded_witness :
  get_relevant_files 2 sample_disk ["src/a.py"; "src/b.py"; "src/c.py"]
  = Ok sample_sources
  /\ sample_sources !! "src/b.py" = Some "x = 0"
  /\ Z.of_nat (size sample_sources) <= 2.
Proof.
  assert (E : get_relevant_files 2 sample_disk
                ["src/a.py"; "src/b.py"; "src/c.py"] = Ok sample_sources)
    by (vm_compute; reflexivity).
  destruct (proj1 (relevant_files_are_bounded 2 sample_disk
                     ["src/a.py"; "src/b.py"; "src/c.py"]) sample_sources E)
    as (Hl & _ & _ & Hs).
  split; [exact E|]. split; [|apply Hs; lia].
  rewrite Hl. vm_compute. reflexivity.
Defined.

Lemma relevant_file_bound (max_context_files : Z) (fs : string -> file_state)
    (error_files : list string) (files_content : gmap string string)
    (p content : string) :
  get_relevant_files max_context_files fs error_files = Ok files_content ->
  files_content !! p = Some content ->
  len content <= 10016
  /\ exists full, fs p = Readable full /\ content = truncate_content full.
Proof.
  intros H. rewrite (fold_read_lookup _ _ _ _ p H), lookup_empty.
  destruct (fs p) as [|full| |]; try done.
  destruct (bool_decide _); [|done]. intros [= <-].
  split; [apply truncate_content_bound|]. by exists full.
Qed.

(** *** The original content of a change *)

Lemma source_get_original (source_files : gmap string string)
    (path content : value) (original : string) :
  source_get source_files path = Ok original ->
  original_from source_files (MkFileChange path original content).
Proof.
  destruct path as [| | | |p| |]; simpl; try done;
    try (intros [= <-]; by left).
  intros [= <-]. destruct (source_files !! p) as [found|] eqn:Es; simpl.
  - right. by exists p.
  - by left.
Qed.

Lemma build_changes_originals (source_files : gmap string string)
    (items : list value) : forall acc cs,
  build_changes source_files items acc = Ok cs ->
  Forall (original_from source_files) acc ->
  Forall (original_from source_files) cs.
Proof.
  induction items as [|entry items IH]; intros acc cs; simpl.
  - by intros [= <-].
  - destruct entry as [| | | | | |d]; simpl; try done.
    destruct (truthy _ && truthy _); [|apply IH].
    destruct (source_get source_files _) as [original|] eqn:Eo; simpl; [|done].
    intros H Hacc. apply (IH _ _ H). apply Forall_app. split; [done|].
    constructor; [|constructor]. by apply source_get_original.
Qed.

Section WithLoads.
Variable json_loads : string -> loads.

Lemma parse_originals (text : string) (source_files : gmap string string)
    (r : FixResult) :
  _parse_claude_response json_loads text source_files = Ok r ->
  Forall (original_from source_files) (changes r).
Proof.
  unfold _parse_claude_response.
  destruct (json_match text) as [[t|]|]; simpl; try done.
  2:{ intros [= <-]. constructor. }
  destruct (nonempty t).
  2:{ intros [= <-]. constructor. }
  destruct (json_loads t) as [data|msg|msg|msg]; [|by intros [= <-]|done|done].
  destruct (dict_get data "changes" (VList [])) as [proposed|]; simpl; [|done].
  destruct (iterate proposed) as [items|]; simpl; [|done].
  destruct (build_changes source_files items []) as [cs|] eqn:B; simpl; [|done].
  destruct (dict_get data "can_fix" _); simpl; [|done].
  destruct (dict_get data "description" _); simpl; [|done].
  destruct (dict_get data "confidence" _); simpl; [|done].
  destruct (dict_get data "analysis" _); simpl; [|done].
  intros [= <-]. simpl. by apply (build_changes_originals _ _ _ _ B).
Qed.

(** X13.  Whatever the reply, the original content of every FileChange that
    [_parse_claude_response] returns is either empty or exactly what the
    resolved source map holds for the path of that change: the reply cannot
    supply it. *)
Theorem original_content_comes_from_sources (text : string)
    (source_files : gmap string string) (r : FixResult) :
  _parse_claude_response json_loads text source_files = Ok r ->
  Forall (original_from source_files) (changes r).
Proof. apply parse_originals. Qed.

(** X14.  When the source map is the one [get_relevant_files] resolved, the
    original content of every returned FileChange is at most 10016
    characters long, and when it is not empty it is the (possibly cut)
    content of the readable file at the path of the change. *)
Theorem original_content_is_bounded (text : string) (max_context_files : Z)
    (fs : string -> file_state) (error_files : list string)
    (source_files : gmap string string) (r : FixResult) :
  get_relevant_files max_context_files fs error_files = Ok source_files ->
  _parse_claude_response json_loads text source_files = Ok r ->
  Forall (fun c =>
            len (original_content c) <= 10016
            /\ (original_content c = ""
                \/ exists p full,
                     file_path c = VStr p /\ fs p = Readable full
                     /\ original_content c = truncate_content full))
         (changes r).
Proof.
  intros Hs H. apply parse_originals in H.
  eapply Forall_impl; [exact H|]. intros c [He|(p & Hp & Hl)].
  - rewrite He. split; [done|by left].
  - apply (relevant_file_bound _ _ _ _ _ _ Hs) in Hl as (Hb & full & Hf & Ht).
    split; [done|]. right. by exists p, full.
Qed.
End WithLoads.

Lemma original_content_comes_from_sources_witness :
  exists r,
    _parse_claude_response sample_loads (fenced_json two_changes_json)
      sample_sources = Ok r
    /\ Forall (original_from sample_sources) (changes r).
Proof.
  destruct (_parse_claude_response sample_loads (fenced_json two_changes_json)
              sample_sources) as [r|e] eqn:E.
  - exists r. split; [reflexivity|].
    exact (original_content_comes_from_sources sample_loads _ _ r E).
  - exfalso. vm_compute in E. discriminate E.
Defined.

Lemma original_content_is_bounded_witness :
  get_relevant_files 20 sample_disk ["src/b.py"] = Ok sample_sources
  /\ _parse_claude_response sample_loads (fenced_json two_changes_json)
       sample_sources = Ok two_changes_result
  /\ Forall (fun c => len (original_content c) <= 10016)
            (changes two_changes_result).
Proof.
  assert (Es : get_relevant_files 20 sample_disk ["src/b.py"] = Ok sample_sources)
    by (vm_compute; reflexivity).
  assert (E : _parse_claude_response sample_loads (fenced_json two_changes_json)
                sample_sources = Ok two_changes_result)
    by (vm_compute; reflexivity).
  split; [exact Es|]. split; [exact E|].
  eapply Forall_impl;
    [exact (original_content_is_bounded sample_loads _ _ _ _ _ _ Es E)|].
  intros c Hc. exact (proj1 Hc).
Defined.

End RepoFacts.

(** ** The fix applier *)

Module FixerFacts.
Import Py PyMore Claude Fixer Notions Samples MoreNotions MoreSamples.

Section FileSystem.
Variable resolve : string -> string -> string.
Variable mkdir_error : string -> option exn.
Variable write_text : string -> string -> written.
Variable run_tool : tool -> string -> gmap string string -> launch.

Lemma write_changes_writable (repo_path : string) (changes : list FileChange) :
  forall fs : gmap string string,
    Forall (writable resolve mkdir_error write_text repo_path) changes ->
    exists fs',
      write_changes resolve mkdir_error write_text repo_path changes fs
      = (fs', Ok tt)
      /\ forall target,
           fs' !! target
           = match last_write resolve repo_path changes target with
             | Some content => Some content
             | None => fs !! target
             end.
Proof.
  induction changes as [|change rest IH]; intros fs Hw.
  - exists fs. by split.
  - apply Forall_cons in Hw as [(relative & content & Hp & Hc & Hm & Hwr) Hrest].
    simpl. unfold write_change. rewrite Hp, Hc. simpl. rewrite Hm, Hwr.
    destruct (IH (<[resolve repo_path relative := content]> fs) Hrest)
      as (fs' & -> & Hl).
    exists fs'. split; [done|]. intros target. rewrite Hl.
    destruct (last_write resolve repo_path rest target); [done|].
    destruct (String.eqb (resolve repo_path relative) target) eqn:E.
    + apply String.eqb_eq in E as ->. by rewrite lookup_insert_eq.
    + apply String.eqb_neq in E. by rewrite lookup_insert_ne.
Qed.

(** X15.  When every change can be written, the loop of [apply_fix] leaves
    each file with the new content of the last change aimed at it and every
    other file as it was: a later change to the same file overwrites an
    earlier one, nothing is merged and nothing else is touched. *)
Theorem last_change_to_a_file_wins (repo_path : string)
    (changes : list FileChange) (fs : gmap string string) :
  Forall (writable resolve mkdir_error write_text repo_path) changes ->
  exists fs',
    write_changes resolve mkdir_error write_text repo_path changes fs
    = (fs', Ok tt)
    /\ (forall target content,
          last_write resolve repo_path changes target = Some content ->
          fs' !! target = Some content)
    /\ (forall target,
          last_write resolve repo_path changes target = None ->
          fs' !! target = fs !! target).
Proof.
  intros Hw.
  destruct (write_changes_writable repo_path changes fs Hw) as (fs' & E & Hl).
  exists fs'. split; [exact E|]. split.
  - intros target content Hc. by rewrite Hl, Hc.
  - intros target Hn. by rewrite Hl, Hn.
Qed.




(** X17.  The validation pass runs at most one toolchain, chosen by the
    marker files of the working copy: with pyproject.toml the ruff tools,
    whether or not package.json is there too; with package.json alone the
    Node tools; with neither nothing, the files staying as they are.  A
    missing ruff ends the Python pass after the first launch; a missing
    prettier does not keep eslint from being launched; and the pass raises
    only what a launch raises, never for a tool that is not installed. *)
Theorem validation_runs_one_toolchain (repo_path : string)
    (fs : gmap string string) :
  let r := _validate_changes resolve run_tool repo_path fs in
  (exists_in resolve fs repo_path "pyproject.toml" = true ->
   (a_tools r = [RuffFormat]
    /\ forall fs1, run_tool RuffFormat repo_path fs <> Launched fs1)
   \/ (a_tools r = [RuffFormat; RuffCheckFix]
       /\ exists fs1, run_tool RuffFormat repo_path fs = Launched fs1))
  /\ (exists_in resolve fs repo_path "pyproject.toml" = false ->
      exists_in resolve fs repo_path "package.json" = true ->
      (a_tools r = [Prettier]
       /\ exists e, run_tool Prettier repo_path fs = LaunchRaises e)
      \/ (a_tools r = [Prettier; EslintFix]
          /\ forall e, run_tool Prettier repo_path fs <> LaunchRaises e))
  /\ (exists_in resolve fs repo_path "pyproject.toml" = false ->
      exists_in resolve fs repo_path "package.json" = false ->
      r = MkApplied fs [] (Ok tt))
  /\ (forall e, a_result r = Raise e ->
                exists t fs0, run_tool t repo_path fs0 = LaunchRaises e).
Proof.
  unfold _validate_changes, _validate_python_project, _validate_node_project.
  destruct (exists_in resolve fs repo_path "pyproject.toml").
  - split; [intros _|split; [done|split; [done|]]].
    + destruct (run_tool RuffFormat repo_path fs) as [fs1| |e] eqn:E1.
      * right. destruct (run_tool RuffCheckFix repo_path fs1); simpl; eauto.
      * left. simpl. split; [done|]. intros fs1 H. discriminate H.
      * left. simpl. split; [done|]. intros fs1 H. discriminate H.
    + destruct (run_tool RuffFormat repo_path fs) as [fs1| |e1] eqn:E1; simpl.
      * destruct (run_tool RuffCheckFix repo_path fs1) eqn:E2; simpl; try done.
        intros e' [= <-]. eauto.
      * done.
      * intros e' [= <-]. eauto.
  - split; [done|].
    destruct (exists_in resolve fs repo_path "package.json").
    + split; [intros _ _|split; [done|]].
      * destruct (run_tool Prettier repo_path fs) as [fs1| |e] eqn:E1.
        -- right. destruct (run_tool EslintFix repo_path fs1); simpl; done.
        -- right. destruct (run_tool EslintFix repo_path fs); simpl; done.
        -- left. simpl. eauto.
      * destruct (run_tool Prettier repo_path fs) as [fs1| |e1] eqn:E1; simpl.
        -- destruct (run_tool EslintFix repo_path fs1) eqn:E2; simpl; try done.
           intros e' [= <-]. eauto.
        -- destruct (run_tool EslintFix repo_path fs) eqn:E2; simpl; try done.
           intros e' [= <-]. eauto.
        -- intros e' [= <-]. eauto.
    + split; [done|]. split; [done|]. simpl. done.
Qed.
End FileSystem.

Lemma last_change_to_a_file_wins_witness :
  exists fs',
    write_changes join no_error writes_all sample_checkout rewrite_twice
      sample_tree = (fs', Ok tt)
    /\ fs' !! join sample_checkout "src/main.py" = Some "x = 2"
    /\ fs' !! join sample_checkout "pyproject.toml" = Some "[project]".
Proof.
  assert (Hw : Forall (writable join no_error writes_all sample_checkout)
                 rewrite_twice).
  { repeat constructor; eexists _, _; repeat split; reflexivity. }
  destruct (last_change_to_a_file_wins join no_error writes_all sample_checkout
              rewrite_twice sample_tree Hw) as (fs' & E & Hlast & Hother).
  exists fs'. split; [exact E|]. split.
  - apply Hlast. vm_compute. reflexivity.
  - rewrite Hother by (vm_compute; reflexivity). vm_compute. reflexivity.
Defined.


Lemma validation_runs_one_toolchain_witness :
  a_tools (_validate_changes join tools_without_ruff sample_checkout sample_tree)
  = [RuffFormat].
Proof.
  destruct (proj1 (validation_runs_one_toolchain join tools_without_ruff
                     sample_checkout sample_tree)) as [[H _]|[_ [fs1 H]]].
  - vm_compute. reflexivity.
  - exact H.
  - vm_compute in H. discriminate H.
Defined.

End FixerFacts.

(** ** The matcher and the located errors *)

Module MatcherFacts.
Import Py PyMore Re Parser TextFacts Notions Samples MoreNotions MoreSamples.

Lemma drop_str_step (n : nat) (text : string) (c : ascii) (rest : string) :
  drop_str n text = String c rest ->
  (S n <= String.length text)%nat /\ drop_str (S n) text = rest.
Proof.
  revert text. induction n as [|n IH]; intros [|d text]; simpl; try done.
  - intros [= -> ->]. split; [lia|done].
  - intros H. apply IH in H as [? ?]. split; [lia|done].
Qed.

Lemma advance_in (text : string) (cur : cursor) (c : ascii) (rest : string) :
  cursor_in text cur -> c_rest cur = String c rest ->
  cursor_in text (advance cur c rest).
Proof.
  intros [Hp Hr] Hc. rewrite Hr in Hc.
  apply drop_str_step in Hc as [? ?]. by split.
Qed.

Section Run.
Context {R : Type}.
Variable text : string.

Lemma greedy_reaches p (k : cursor -> option R) x : forall rest cur,
  c_rest cur = rest -> cursor_in text cur ->
  greedy p rest cur k = Some x ->
  exists cur', cursor_in text cur' /\ (c_pos cur <= c_pos cur')%nat
               /\ c_groups cur' = c_groups cur /\ k cur' = Some x.
Proof.
  induction rest as [|c rest IH]; intros cur Hr Hin; simpl.
  - intros H. by exists cur.
  - destruct (p c); [|intros H; by exists cur].
    destruct (greedy p rest (advance cur c rest) k) eqn:E.
    + intros [= <-].
      apply IH in E as (cur' & Hin' & Hle & Hgr & Hk);
        [|done|by apply advance_in].
      exists cur'. unfold advance in Hle, Hgr. simpl in Hle, Hgr.
      split; [done|]. split; [lia|]. by split.
    + intros H. by exists cur.
Qed.

Lemma lazy_star_reaches p (k : cursor -> option R) x : forall rest cur,
  c_rest cur = rest -> cursor_in text cur ->
  lazy_star p rest cur k = Some x ->
  exists cur', cursor_in text cur' /\ (c_pos cur <= c_pos cur')%nat
               /\ c_groups cur' = c_groups cur /\ k cur' = Some x.
Proof.
  induction rest as [|c rest IH]; intros cur Hr Hin; simpl.
  - destruct (k cur) eqn:E; [|done]. intros [= <-]. by exists cur.
  - destruct (k cur) eqn:E; [intros [= <-]; by exists cur|].
    destruct (p c); [|done]. intros H.
    apply IH in H as (cur' & Hin' & Hle & Hgr & Hk);
      [|done|by apply advance_in].
    exists cur'. unfold advance in Hle, Hgr. simpl in Hle, Hgr.
    split; [done|]. split; [lia|]. by split.
Qed.

Lemma in_filter_both (names1 names2 : list string) (name : string) :
  In name (List.filter (fun n => existsb (String.eqb n) names2) names1) ->
  In name names1 /\ In name names2.
Proof.
  intros [H1 H2]%List.filter_In. split; [done|].
  apply existsb_exists in H2 as (n & Hn & E).
  by apply String.eqb_eq in E as ->.
Qed.

Lemma reached_here (r : regex) (cur : cursor) :
  cursor_in text cur -> groups_nonempty (c_groups cur) ->
  min_len r = 0%nat -> sure_groups r = [] -> reached text r cur cur.
Proof.
  intros Hin Hg Hl Hs. unfold reached. rewrite Hl, Hs.
  split; [done|]. split; [lia|]. split; [done|]. split; [done|].
  intros n [].
Qed.

Lemma reached_advance (r : regex) (cur : cursor) (c : ascii) (rest : string) :
  cursor_in text cur -> groups_nonempty (c_groups cur) ->
  c_rest cur = String c rest ->
  min_len r = 1%nat -> sure_groups r = [] -> reached text r cur (advance cur c rest).
Proof.
  intros Hin Hg Hc Hl Hs. unfold reached. rewrite Hl, Hs.
  split; [by apply advance_in|]. split; [simpl; lia|].
  split; [done|]. split; [done|]. intros n [].
Qed.

Lemma reached_same_groups (r : regex) (cur cur' : cursor) :
  cursor_in text cur' -> groups_nonempty (c_groups cur) ->
  (c_pos cur <= c_pos cur')%nat -> c_groups cur' = c_groups cur ->
  min_len r = 0%nat -> sure_groups r = [] -> reached text r cur cur'.
Proof.
  intros Hin Hg Hle Hgr Hl Hs. unfold reached. rewrite Hl, Hs, Hgr.
  split; [done|]. split; [lia|]. split; [done|]. split; [done|].
  intros n [].
Qed.

Lemma run_reaches icase r : forall cur (k : cursor -> option R) x,
  cursor_in text cur -> groups_nonempty (c_groups cur) ->
  groups_take_text r = true ->
  run icase r cur k = Some x ->
  exists cur', reached text r cur cur' /\ k cur' = Some x.
Proof.
  induction r as [|l|p| | |r1 IH1 r2 IH2|r1 IH1 r2 IH2|p|p|name r IH];
    intros cur k x Hin Hg Ht; simpl.
  - intros H. exists cur. split; [by apply reached_here|done].
  - destruct (c_rest cur) as [|c rest] eqn:Hc; [done|].
    destruct (lit_matches _ _ _); [|done]. intros H.
    exists (advance cur c rest). split; [by apply reached_advance|done].
  - destruct (c_rest cur) as [|c rest] eqn:Hc; [done|].
    destruct (p c); [|done]. intros H.
    exists (advance cur c rest). split; [by apply reached_advance|done].
  - destruct (at_bol cur); [|done]. intros H. exists cur.
    split; [by apply reached_here|done].
  - destruct (at_eol cur); [|done]. intros H. exists cur.
    split; [by apply reached_here|done].
  - simpl in Ht. apply andb_true_iff in Ht as [Ht1 Ht2]. intros H.
    apply IH1 in H as (cur1 & (Hin1 & Hp1 & Hg1 & Hm1 & Hs1) & H); try done.
    apply IH2 in H as (cur2 & (Hin2 & Hp2 & Hg2 & Hm2 & Hs2) & H); try done.
    exists cur2. split; [|done]. unfold reached.
    split; [done|]. split; [simpl; lia|]. split; [done|]. split.
    + intros n Hn. by apply Hm2, Hm1.
    + simpl. intros n [Hn|Hn]%in_app_or; [by apply Hm2, Hs1|by apply Hs2].
  - simpl in Ht. apply andb_true_iff in Ht as [Ht1 Ht2].
    destruct (run icase r1 cur k) eqn:E.
    + intros [= <-].
      apply IH1 in E as (cur1 & (Hin1 & Hp1 & Hg1 & Hm1 & Hs1) & H); try done.
      exists cur1. split; [|done]. unfold reached.
      split; [done|]. split; [simpl; lia|]. split; [done|]. split; [done|].
      simpl. intros n [Hn _]%in_filter_both. by apply Hs1.
    + intros H.
      apply IH2 in H as (cur2 & (Hin2 & Hp2 & Hg2 & Hm2 & Hs2) & H); try done.
      exists cur2. split; [|done]. unfold reached.
      split; [done|]. split; [simpl; lia|]. split; [done|]. split; [done|].
      simpl. intros n [_ Hn]%in_filter_both. by apply Hs2.
  - intros H.
    apply greedy_reaches in H as (cur' & ? & ? & Hgr & ?); try done.
    exists cur'. split; [by apply reached_same_groups|done].
  - intros H.
    apply lazy_star_reaches in H as (cur' & ? & ? & Hgr & ?); try done.
    exists cur'. split; [by apply reached_same_groups|done].
  - simpl in Ht. apply andb_true_iff in Ht as [Hlen Ht].
    apply Nat.ltb_lt in Hlen. intros H.
    apply IH in H as (cur1 & (Hin1 & Hp1 & Hg1 & Hm1 & Hs1) & H); try done.
    exists (close_group name cur cur1). split; [|done].
    destruct Hin as [Hpos Hrest]. destruct Hin1 as [Hpos1 Hrest1].
    unfold reached. simpl.
    split; [by split|]. split; [done|]. split; [|split].
    + intros n s. destruct (decide (n = name)) as [->|Hne].
      * rewrite lookup_insert_eq. intros [= <-] Hs.
        apply (f_equal String.length) in Hs.
        rewrite length_take_str, Hrest, length_drop_str in Hs. simpl in Hs. lia.
      * rewrite lookup_insert_ne by done. apply Hg1.
    + intros n Hn. destruct (decide (n = name)) as [->|Hne].
      * rewrite lookup_insert_eq. by eexists.
      * rewrite lookup_insert_ne by done. by apply Hm1.
    + intros n [<-|Hn].
      * rewrite lookup_insert_eq. by eexists.
      * destruct (decide (n = name)) as [->|Hne].
        -- rewrite lookup_insert_eq. by eexists.
        -- rewrite lookup_insert_ne by done. by apply Hs1.
Qed.
End Run.

Lemma match_at_in (text : string) (pat : pattern) (prev : option ascii)
    (pos : nat) (m : Match) :
  (pos <= String.length text)%nat ->
  groups_take_text (p_regex pat) = true ->
  match_at pat prev (drop_str pos text) pos = Some m ->
  m_start m = Z.of_nat pos
  /\ match_in text (min_len (p_regex pat)) (sure_groups (p_regex pat)) m.
Proof.
  intros Hpos Ht H. unfold match_at in H.
  assert (Hin0 : cursor_in text (Cursor prev (drop_str pos text) pos ∅))
    by by split.
  assert (Hg0 : groups_nonempty
                  (c_groups (Cursor prev (drop_str pos text) pos ∅))).
  { intros n s. simpl. by rewrite lookup_empty. }
  apply (run_reaches text _ _ _ _ _ Hin0 Hg0 Ht) in H
    as (cur' & (Hin & Hp & Hg & _ & Hs) & [= <-]).
  simpl in *. destruct Hin as [Hle _].
  split; [done|]. unfold match_in. simpl.
  split; [lia|]. split; [lia|]. split; [unfold len; lia|]. by split.
Qed.

Lemma scan_in (text : string) (pat : pattern) :
  groups_take_text (p_regex pat) = true ->
  forall rest prev pos skip,
    (pos <= String.length text)%nat -> rest = drop_str pos text ->
    Forall (match_in text (min_len (p_regex pat)) (sure_groups (p_regex pat)))
           (scan pat prev rest pos skip).
Proof.
  intros Ht. induction rest as [|c rest IH]; intros prev pos skip Hpos Hrest.
  - simpl. destruct skip; [|constructor].
    destruct (match_at pat prev "" pos) eqn:E; [|constructor].
    rewrite Hrest in E. apply match_at_in in E as [_ ?]; try done.
    constructor; [done|constructor].
  - symmetry in Hrest. pose proof (drop_str_step _ _ _ _ Hrest) as [Hle Hnext].
    simpl. destruct skip as [|skip].
    + destruct (match_at pat prev (String c rest) pos) eqn:E.
      * rewrite <- Hrest in E. apply match_at_in in E as [_ ?]; try done.
        constructor; [done|]. by apply IH.
      * by apply IH.
    + by apply IH.
Qed.

Lemma finditer_in (text : string) (pat : pattern) :
  groups_take_text (p_regex pat) = true ->
  Forall (match_in text (min_len (p_regex pat)) (sure_groups (p_regex pat)))
         (finditer pat text).
Proof. intros Ht. apply scan_in; [done|lia|done]. Qed.

Lemma registry_locates_files :
  Forall (fun entry : string * list pattern =>
            Forall (fun pat => locates_a_file pat = true) entry.2) PATTERNS.
Proof. repeat constructor. Qed.

End MatcherFacts.

(** ** The errors the parser reports *)

Module ErrorFacts.
Import Py PyMore Re Parser TextFacts MatcherFacts.
Import Notions Samples MoreNotions MoreSamples.

Lemma locates_a_file_parts (pat : pattern) :
  locates_a_file pat = true ->
  (0 < min_len (p_regex pat))%nat
  /\ groups_take_text (p_regex pat) = true
  /\ In "file" (sure_groups (p_regex pat)).
Proof.
  unfold locates_a_file.
  intros [[H1 H2]%andb_true_iff H3]%andb_true_iff.
  apply Nat.ltb_lt in H1. split; [done|]. split; [done|].
  apply existsb_exists in H3 as (n & Hn & E).
  by apply String.eqb_eq in E as <-.
Qed.

(** What the error of a match holds, when there is one. *)
Lemma error_of_match_fields (logs tool : string) (m : Match) (e : ParsedError) :
  error_of_match logs tool m = Ok e ->
  pe_error_type e = tool
  /\ pe_file_path e = group m "file"
  /\ pe_context e
     = slice logs (Z.max 0 (m_start m - 200))
         (Z.min (len logs) (m_end m + 200)).
Proof.
  unfold error_of_match.
  destruct (int_group m "line"); simpl; [|done].
  destruct (int_group m "col"); simpl; [|done].
  by intros [= <-].
Qed.

(** A match of the registry pass is a match of a pattern of its tool, and
    lies in the text with a file group. *)
Lemma registry_match_in (registry : list (string * list pattern))
    (logs : string) :
  Forall (fun entry : string * list pattern =>
            Forall (fun pat => locates_a_file pat = true) entry.2) registry ->
  Forall (fun tm : string * Match =>
            In tm.1 (matching_tools registry logs)
            /\ match_in logs 1 ["file"] tm.2)
         (registry_matches registry logs).
Proof.
  intros Hreg. unfold registry_matches.
  apply Forall_forall. intros [tool m] Hin. apply list_elem_of_In in Hin.
  apply in_flat_map in Hin as ([tool' pats] & Hentry & Hin).
  apply in_map_iff in Hin as (m' & [= <- <-] & Hm). cbn [fst snd] in *.
  split.
  - unfold matching_tools. apply in_map_iff. exists (tool', pats).
    split; [done|]. apply List.filter_In. split; [done|].
    unfold has_match. cbn [snd]. by destruct (tool_matches logs pats).
  - unfold tool_matches in Hm.
    apply in_flat_map in Hm as (pat & Hpat & Hm).
    rewrite Forall_forall in Hreg.
    apply list_elem_of_In, Hreg in Hentry. cbn [snd] in Hentry.
    rewrite Forall_forall in Hentry.
    apply list_elem_of_In, Hentry, locates_a_file_parts in Hpat
      as (Hl & Ht & Hf).
    pose proof (finditer_in logs pat Ht) as Hall.
    rewrite Forall_forall in Hall.
    apply list_elem_of_In, Hall in Hm as (H1 & H2 & H3 & H4 & H5).
    repeat split; try done; try lia.
    intros name [<-|[]]. apply H5, Hf.
Qed.

Lemma Forall2_with {A B} (P R : A -> B -> Prop) (Q : A -> Prop)
    (l : list A) (k : list B) :
  Forall2 P l k -> Forall Q l ->
  (forall x y, Q x -> P x y -> R x y) ->
  Forall2 R l k.
Proof.
  intros H. induction H as [|x y l k Hxy H IH]; intros Hq Himp; [constructor|].
  apply Forall_cons in Hq as [Hx Hq]. constructor; [by apply Himp|by apply IH].
Qed.

Lemma Forall2_right {A B} (P : A -> B -> Prop) (R : B -> Prop)
    (l : list A) (k : list B) :
  Forall2 P l k -> (forall x y, P x y -> R y) -> Forall R k.
Proof.
  intros H Himp. induction H as [|x y l k Hxy H IH]; constructor; eauto.
Qed.

(** The errors of a returned value, match by match. *)
Lemma located_errors (logs : string) (r : ParsedErrors) :
  parse_error_logs logs = Ok r ->
  matching_tools PATTERNS logs <> [] ->
  Forall2 (fun (tm : string * Match) e =>
             error_for logs tm e
             /\ In tm.1 (matching_tools PATTERNS logs)
             /\ match_in logs 1 ["file"] tm.2)
          (registry_matches PATTERNS logs) (errors r).
Proof.
  intros Hr M.
  destruct (ParserFacts.parse_error_logs_tools logs r Hr M) as (H & _ & _).
  eapply Forall2_with;
    [exact H|exact (registry_match_in PATTERNS logs registry_locates_files)|].
  intros tm e [Hin Hm] He. split; [exact He|]. split; [exact Hin|exact Hm].
Qed.

(** X18.  In the value [parse_error_logs] returns, every error of the
    tool-specific pass carries a non-empty file path, and an error of the
    generic fallback carries none; so the affected files are empty exactly
    when no tool-specific pattern matched. *)
Theorem affected_files_empty_iff_generic (logs : string) (r : ParsedErrors) :
  parse_error_logs logs = Ok r ->
  (matching_tools PATTERNS logs <> [] -> Forall has_file_path (errors r))
  /\ (matching_tools PATTERNS logs = [] ->
      Forall (fun e => pe_file_path e = None) (errors r))
  /\ (affected_files r = ∅ <-> matching_tools PATTERNS logs = []).
Proof.
  intros Hr.
  assert (Hf : matching_tools PATTERNS logs <> [] ->
               Forall has_file_path (errors r)).
  { intros M. eapply Forall2_right; [exact (located_errors logs r Hr M)|].
    intros [tool m] e (He & _ & (_ & _ & _ & Hg & Hs)).
    apply error_of_match_fields in He as (_ & Hp & _). cbn [snd] in *.
    destruct (Hs "file") as [f Hfile]; [by left|].
    exists f. split; [by rewrite Hp|]. by apply (Hg "file"). }
  assert (Hg : matching_tools PATTERNS logs = [] ->
               Forall (fun e => pe_file_path e = None) (errors r)).
  { intros M. rewrite (ParserFacts.parse_error_logs_generic _ M) in Hr.
    injection Hr as <-. simpl.
    rewrite ParserFacts.extract_generic_errors_spec.
    apply Forall_take, Forall_map, Forall_forall. by intros m _. }
  split; [exact Hf|]. split; [exact Hg|].
  destruct (matching_tools PATTERNS logs) as [|t ts] eqn:M.
  - split; [done|]. intros _. specialize (Hg eq_refl). clear Hf.
    unfold affected_files.
    induction Hg as [|g gs Hg Hgs IH]; [done|]. simpl. rewrite Hg. exact IH.
  - split; [|done]. intros H. exfalso.
    destruct (ParserFacts.parse_error_logs_tools logs r Hr) as (_ & Hne & _);
      [by rewrite M|].
    specialize (Hf ltac:(done)).
    destruct (errors r) as [|e errs] eqn:E; [done|].
    unfold affected_files in H. rewrite E in H. simpl in H.
    apply Forall_cons in Hf as [(f & Hp & Hnf) _]. rewrite Hp in H.
    destruct f as [|c f]; [done|]. simpl in H.
    assert (Hin : String c f ∈ (∅ : gset string)) by (rewrite <- H; set_solver).
    set_solver.
Qed.

Lemma affected_files_empty_iff_generic_witness :
  exists r, parse_error_logs generic_only_log = Ok r /\ affected_files r = ∅.
Proof.
  destruct (parse_error_logs generic_only_log) as [r|e] eqn:E.
  - exists r. split; [reflexivity|].
    apply (proj2 (proj2 (affected_files_empty_iff_generic generic_only_log r E))).
    vm_compute. reflexivity.
  - exfalso. vm_compute in E. discriminate E.
Defined.

(** X19.  As soon as one tool-specific pattern matches, the errors of the
    value [parse_error_logs] returns are the errors of the matches of the
    registry patterns and nothing else: one error for each match, in
    registry order, typed with a tool of the registry that matched, with no
    cap on their number and no entry of the generic fallback. *)
Theorem tool_errors_exclude_generic (logs : string) (r : ParsedErrors) :
  parse_error_logs logs = Ok r ->
  matching_tools PATTERNS logs <> [] ->
  Forall2 (error_for logs) (registry_matches PATTERNS logs) (errors r)
  /\ length (errors r) = length (registry_matches PATTERNS logs)
  /\ Forall (fun e => In (pe_error_type e) (matching_tools PATTERNS logs))
            (errors r)
  /\ Forall (fun e => pe_error_type e <> "generic") (errors r).
Proof.
  intros Hr M.
  destruct (ParserFacts.parse_error_logs_tools logs r Hr M) as (H & _ & _).
  assert (Ht : Forall (fun e => In (pe_error_type e)
                                  (matching_tools PATTERNS logs)) (errors r)).
  { eapply Forall2_right; [exact (located_errors logs r Hr M)|].
    intros [tool m] e (He & Hin & _).
    apply error_of_match_fields in He as (-> & _). exact Hin. }
  split; [exact H|]. split; [symmetry; by eapply Forall2_length|].
  split; [exact Ht|].
  eapply Forall_impl; [exact Ht|]. intros e He Hg. cbv beta in He.
  rewrite Hg in He. apply ParserFacts.matching_tools_in in He. simpl in He.
  repeat destruct He as [He|He]; try discriminate He. done.
Qed.

Lemma tool_errors_exclude_generic_witness :
  exists r,
    parse_error_logs (unlines ["Error: boom"; pyright_log]) = Ok r
    /\ map pe_error_type (errors r) = ["pyright"]
    /\ length (errors r)
       = length (registry_matches PATTERNS
                   (unlines ["Error: boom"; pyright_log])).
Proof.
  destruct (parse_error_logs (unlines ["Error: boom"; pyright_log]))
    as [r|e] eqn:E.
  - exists r. split; [reflexivity|].
    destruct (tool_errors_exclude_generic _ r E) as (_ & Hl & _).
    { vm_compute. discriminate. }
    split; [|exact Hl].
    vm_compute in E. injection E as <-. reflexivity.
  - exfalso. vm_compute in E. discriminate E.
Defined.

(** *** The context window *)

Lemma take_str_add (n k : nat) (s : string) :
  take_str (n + k) s = take_str n s +:+ take_str k (drop_str n s).
Proof.
  revert s. induction n as [|n IH]; intros s; simpl; [done|].
  destruct s as [|c s]; [by destruct k|].
  by rewrite app_cons_str, IH.
Qed.

Lemma drop_str_add (n k : nat) (s : string) :
  drop_str k (drop_str n s) = drop_str (n + k) s.
Proof.
  revert s. induction n as [|n IH]; intros s; simpl; [done|].
  destruct s as [|c s]; [by destruct k|]. apply IH.
Qed.

Lemma slice_in_bounds (s : string) (a b : Z) :
  0 <= a <= b -> b <= len s ->
  slice s a b = take_str (Z.to_nat (b - a)) (drop_str (Z.to_nat a) s).
Proof.
  intros Ha Hb. unfold slice, clip.
  replace (a <? 0) with false by (symmetry; apply Z.ltb_ge; lia).
  replace (b <? 0) with false by (symmetry; apply Z.ltb_ge; lia).
  by rewrite !Z.min_l by lia.
Qed.

Lemma len_slice (s : string) (a b : Z) :
  0 <= a <= b -> b <= len s -> len (slice s a b) = b - a.
Proof.
  intros Ha Hb. rewrite slice_in_bounds by done.
  unfold len in *. rewrite length_take_str, length_drop_str. lia.
Qed.

Lemma slice_split (s : string) (a b c : Z) :
  0 <= a <= b -> b <= c -> c <= len s ->
  slice s a c = slice s a b +:+ slice s b c.
Proof.
  intros Ha Hb Hc. rewrite !slice_in_bounds by lia.
  replace (Z.to_nat (c - a)) with (Z.to_nat (b - a) + Z.to_nat (c - b))%nat
    by lia.
  rewrite take_str_add, drop_str_add.
  by replace (Z.to_nat a + Z.to_nat (b - a))%nat with (Z.to_nat b) by lia.
Qed.

(** X20.  In the value [parse_error_logs] returns, the context of the error
    of each match is the matched text, which is never empty, with the text
    that stands right before it and right after it in the logs: 200
    characters on each side, and fewer only where the logs begin or end. *)
Theorem context_surrounds_the_match (logs : string) (r : ParsedErrors) :
  parse_error_logs logs = Ok r ->
  matching_tools PATTERNS logs <> [] ->
  Forall2 (fun (tm : string * Match) e => surrounds logs tm.2 (pe_context e))
          (registry_matches PATTERNS logs) (errors r).
Proof.
  intros Hr M.
  eapply Forall2_impl; [exact (located_errors logs r Hr M)|].
  intros [tool m] e (He & _ & (Hs & Hlen & Hend & _)). cbn [snd] in *.
  apply error_of_match_fields in He as (_ & _ & ->). cbn [snd].
  unfold surrounds.
  exists (slice logs (Z.max 0 (m_start m - 200)) (m_start m)),
         (slice logs (m_end m) (Z.min (len logs) (m_end m + 200))).
  assert (Hb : len (slice logs (Z.max 0 (m_start m - 200)) (m_start m))
               = Z.min 200 (m_start m))
    by (rewrite len_slice by lia; lia).
  assert (Ha : len (slice logs (m_end m) (Z.min (len logs) (m_end m + 200)))
               = Z.min 200 (len logs - m_end m))
    by (rewrite len_slice by lia; lia).
  split; [|split; [|split; [|split; [|split]]]].
  - rewrite (slice_split logs _ (m_start m)) by lia.
    f_equal. apply slice_split; lia.
  - rewrite Hb. f_equal. lia.
  - rewrite Ha. f_equal. lia.
  - exact Hb.
  - exact Ha.
  - rewrite len_slice by lia. lia.
Qed.

Lemma context_surrounds_the_match_witness :
  Forall2 (fun (tm : string * Match) e =>
             surrounds pyright_log tm.2 (pe_context e))
          (registry_matches PATTERNS pyright_log) (errors pyright_parsed).
Proof.
  apply context_surrounds_the_match.
  - vm_compute. reflexivity.
  - vm_compute. discriminate.
Defined.

End ErrorFacts.

(** ** The decoder on unexpected replies *)

Module DecoderFacts.
Import Py PyMore Claude Handler Notions Samples MoreNotions MoreSamples.

Section WithReply.
Variable json_loads : string -> loads.

Lemma decoded_is_yielded (text : string) (data : value) :
  decodes_to json_loads text data ->
  exists t, yielded (selected_strategy text) = Some t
            /\ json_loads t = Loaded data.
Proof.
  intros (t & Hm & Hne & Hl). exists t. split; [|done].
  rewrite ClaudeFacts.json_match_selected in Hm. injection Hm as ->.
  simpl. by rewrite Hne.
Qed.



(** X22.  The fields of a returned FixResult are the members of the decoded
    object as they are, whatever their type, with the defaults false, the
    empty text, 0.0 and the empty text for a missing can_fix, description,
    confidence and analysis.  In particular a can_fix given as a non-empty
    text, even the text false, is truthy. *)
Theorem decoded_fields_pass_through (text : string)
    (source_files : gmap string string) (d : gmap string value)
    (r : FixResult) :
  decodes_to json_loads text (VDict d) ->
  _parse_claude_response json_loads text source_files = Ok r ->
  can_fix r = default (VBool false) (d !! "can_fix")
  /\ description r = default (VStr "") (d !! "description")
  /\ confidence r = default (VFloat 0%float) (d !! "confidence")
  /\ analysis r = default (VStr "") (d !! "analysis")
  /\ (forall s, d !! "can_fix" = Some (VStr s) -> s <> "" ->
                truthy (can_fix r) = true).
Proof.
  intros (t & Hm & Hne & Hl). unfold _parse_claude_response.
  rewrite Hm. simpl. rewrite Hne, Hl. simpl.
  destruct (iterate _); simpl; [|done].
  destruct (build_changes _ _ _); simpl; [|done].
  intros [= <-]. simpl. repeat split.
  intros s -> Hs. simpl. by destruct s.
Qed.
End WithReply.



(** A reply nested too deep leaves the decoder with the RecursionError of
    [json.loads]. *)
Lemma deep_reply_raises :
  _parse_claude_response more_loads (fenced_json deep_json) sample_sources
  = Raise (RecursionError
             "maximum recursion depth exceeded while decoding a JSON array from a unicode string").
Proof. vm_compute. reflexivity. Qed.

Lemma textual_gate_decoded :
  decodes_to more_loads (fenced_json textual_gate_json) (VDict textual_gate_data).
Proof. exists textual_gate_json. repeat split; vm_compute; reflexivity. Defined.

Lemma decoded_fields_pass_through_witness :
  exists r,
    _parse_claude_response more_loads (fenced_json textual_gate_json)
      sample_sources = Ok r
    /\ can_fix r = VStr "false" /\ truthy (can_fix r) = true.
Proof.
  destruct (_parse_claude_response more_loads (fenced_json textual_gate_json)
              sample_sources) as [r|e] eqn:E.
  - destruct (decoded_fields_pass_through more_loads _ _ _ r
                textual_gate_decoded E) as (Hc & _ & _ & _ & Ht).
    exists r. split; [reflexivity|]. split.
    + rewrite Hc. vm_compute. reflexivity.
    + apply (Ht "false"); [vm_compute; reflexivity|discriminate].
  - exfalso. vm_compute in E. discriminate E.
Defined.

End DecoderFacts.

(** ** The cache across keys *)

Module CacheFacts.
Import Py Handler Notions Samples MoreNotions MoreSamples.

(** X23.  The sweep only removes: what it leaves is part of the cache, none
    of it expired, and sweeping again at the same time changes nothing.
    The step on one run never changes another run's entry: after it, any
    other key is in the cache exactly as the sweep left it, and the run
    itself is always in the cache. *)
Theorem runs_do_not_interfere (key : Z) (sweep_time record_time : float)
    (cache : gmap Z float) :
  _cleanup_cache sweep_time cache ⊆ cache
  /\ (forall k ts, _cleanup_cache sweep_time cache !! k = Some ts ->
                   is_expired sweep_time ts = false)
  /\ _cleanup_cache sweep_time (_cleanup_cache sweep_time cache)
     = _cleanup_cache sweep_time cache
  /\ (forall other,
        other <> key ->
        (deduplicate key sweep_time record_time cache).2 !! other
        = _cleanup_cache sweep_time cache !! other)
  /\ is_Some ((deduplicate key sweep_time record_time cache).2 !! key).
Proof.
  split; [|split; [|split; [|split]]].
  - apply map_subseteq_spec. intros k ts.
    rewrite HandlerFacts.lookup_cleanup_cache.
    destruct (cache !! k) as [ts'|]; [|done]. by destruct (is_expired _ _).
  - intros k ts. rewrite HandlerFacts.lookup_cleanup_cache.
    destruct (cache !! k) as [ts'|]; [|done].
    destruct (is_expired sweep_time ts') eqn:E; [done|]. by intros [= <-].
  - apply map_eq. intros k. rewrite !HandlerFacts.lookup_cleanup_cache.
    destruct (cache !! k) as [ts|]; [|done].
    destruct (is_expired sweep_time ts) eqn:E; [done|]. by rewrite E.
  - intros other Hne. unfold deduplicate.
    destruct (_cleanup_cache sweep_time cache !! key); simpl; [done|].
    by rewrite lookup_insert_ne.
  - unfold deduplicate.
    destruct (_cleanup_cache sweep_time cache !! key) eqn:E; simpl.
    + by rewrite E.
    + by rewrite lookup_insert_eq.
Qed.

Lemma runs_do_not_interfere_witness :
  (deduplicate 42 t0_plus_1s t0_plus_1s (<[7 := t0]> ∅)).2 !! 7 = Some t0.
Proof.
  rewrite (proj1 (proj2 (proj2 (proj2
             (runs_do_not_interfere 42 t0_plus_1s t0_plus_1s (<[7 := t0]> ∅))))) 7)
    by discriminate.
  vm_compute. reflexivity.
Defined.

End CacheFacts.

(** ** The size of a digest *)

Module HashFacts.
Import Py Hashlib Validator Notions Samples MoreNotions MoreSamples.

Lemma be_bytes_length (n : nat) (x : Z) : length (be_bytes n x) = n.
Proof. induction n as [|n IH]; simpl; [done|]. by rewrite IH. Qed.

Lemma round_length (st : list Z) (kw : Z * Z) :
  length (round st kw) = length st.
Proof.
  unfold round.
  do 9 (destruct st as [|? st]; [reflexivity|]). reflexivity.
Qed.

Lemma rounds_length (kws : list (Z * Z)) (st : list Z) :
  length (fold_left round kws st) = length st.
Proof.
  revert st. induction kws as [|kw kws IH]; intros st; simpl; [done|].
  by rewrite IH, round_length.
Qed.

Lemma compress_length (hash : list Z) (block : list Byte.byte) :
  length (compress hash block) = length hash.
Proof.
  unfold compress.
  rewrite length_map, length_combine, rounds_length. lia.
Qed.

Lemma compress_all_length (blocks : list (list Byte.byte)) (hash : list Z) :
  length (fold_left compress blocks hash) = length hash.
Proof.
  revert hash. induction blocks as [|b blocks IH]; intros hash; simpl; [done|].
  by rewrite IH, compress_length.
Qed.

Lemma words_length (ws : list Z) :
  length (flat_map (be_bytes 4) ws) = (4 * length ws)%nat.
Proof.
  induction ws as [|w ws IH]; [done|].
  change (flat_map (be_bytes 4) (w :: ws))
    with (be_bytes 4 w ++ flat_map (be_bytes 4) ws).
  rewrite length_app, be_bytes_length, IH. simpl. lia.
Qed.

Lemma sha256_length (msg : list Byte.byte) : length (sha256 msg) = 32%nat.
Proof.
  unfold sha256. cbv zeta. rewrite words_length, compress_all_length.
  reflexivity.
Qed.

Lemma hmac_sha256_length (key msg : list Byte.byte) :
  length (hmac_sha256 key msg) = 32%nat.
Proof. unfold hmac_sha256. cbv zeta. apply sha256_length. Qed.

Lemma hex_length (bs : list Byte.byte) :
  String.length (hex bs) = (2 * length bs)%nat.
Proof.
  induction bs as [|b bs IH]; [done|].
  cbn [hex length String.length]. rewrite IH. lia.
Qed.

Lemma expected_signature_length (payload : list Byte.byte) (secret : string) :
  String.length (expected_signature payload secret) = 71%nat.
Proof.
  unfold expected_signature.
  change ("sha256=" +:+ ?s) with
    (String "s" (String "h" (String "a" (String "2" (String "5" (String "6"
       (String "=" s))))))).
  cbn [String.length]. rewrite hex_length, hmac_sha256_length. reflexivity.
Qed.

(** X24.  The digest is 32 bytes whatever the key and the message, so the
    expected header value has 71 characters, and a signature that
    [validate_github_signature] accepts has exactly 71 characters: for any
    other length the answer is false or an exception, never true. *)
Theorem accepted_signature_has_71_characters (payload : list Byte.byte)
    (signature secret : string) :
  validate_github_signature payload (Some signature) secret = Ok true ->
  String.length signature = 71%nat.
Proof.
  unfold validate_github_signature, compare_digest.
  destruct (negb (nonempty signature)); [discriminate|].
  destruct (negb (startswith "sha256=" signature)); [discriminate|].
  destruct (_ && _); [|discriminate].
  destruct (String.eqb (expected_signature payload secret) signature) eqn:H;
    [|discriminate].
  intros _. apply String.eqb_eq in H. rewrite <- H.
  apply expected_signature_length.
Qed.

Lemma accepted_signature_has_71_characters_witness :
  String.length test_signature = 71%nat.
Proof.
  apply (accepted_signature_has_71_characters test_payload test_signature
           test_secret).
  vm_compute. reflexivity.
Defined.

End HashFacts.
